(** * Stackit: the vote / answer-count / accepted-answer consistency rules

    A shallow embedding of the relational schema, the row-level policies and
    the three trigger functions of
    [supabase/migrations/20250712074052-993c1e99-5831-48d4-886c-f4b7befdfa19.sql],
    together with the handlers of the client that issue statements on these
    tables or prepare what they show: [src/pages/QuestionDetail.tsx],
    [src/components/questions/QuestionCard.tsx], [src/hooks/useProfile.ts],
    [src/pages/AskQuestion.tsx] and [src/pages/Questions.tsx].

    Modelling conventions.
    - A table is the list of its rows, in heap order.  A statement first
      writes all of its rows; its AFTER ROW triggers then fire once per
      affected row, in that order.
    - Only the columns read or written by the triggers, the constraints and
      the policies are kept: text, tags and timestamps are dropped, and with
      them the [update_updated_at_column] triggers.  [votes.id] is generated,
      never supplied and never referenced, so it is dropped too.
    - [INTEGER] columns are integers of [Z]; range errors are not modelled.
    - A statement either commits a new database or raises an error, in which
      case the transaction is rolled back and the database is unchanged.
    - Row-level policies guard every statement a session runs: rows that
      fail a USING clause are skipped silently, a row that fails a WITH CHECK
      clause raises.  The three trigger functions of the migration are not
      SECURITY DEFINER, so the statements of their bodies run as the session
      that fired them and are filtered by its policies like any other.  The
      foreign-key cascades delete on every row that references a deleted
      row, whoever owns it; the triggers of the rows they delete are fired
      with the triggers of the statement, as its session. *)

From Stdlib Require Import List ZArith Bool Lia Sorted.
From Stdlib Require String.
Import ListNotations.

Local Open Scope Z_scope.

(** ** Identifiers and enum types *)

Definition uuid := String.string.

Notation "a == b" := (String.eqb a b) (at level 70, no associativity).

(** [CREATE TYPE public.user_role AS ENUM ('user', 'admin')] *)
Inductive user_role := user | admin.

(** [CREATE TYPE public.vote_type AS ENUM ('upvote', 'downvote')] *)
Inductive vote_type := upvote | downvote.

Definition vote_type_eqb (a b : vote_type) : bool :=
  match a, b with
  | upvote, upvote | downvote, downvote => true
  | _, _ => false
  end.

Definition is_admin (r : user_role) : bool :=
  match r with admin => true | user => false end.

(** [col = x] where [col] is nullable: never true on NULL. *)
Definition is_id (col : option uuid) (x : uuid) : bool :=
  match col with
  | Some y => y == x
  | None => false
  end.

(** [col IS NOT NULL] *)
Definition not_null (col : option uuid) : bool :=
  match col with Some _ => true | None => false end.

(** ** Tables *)

Module Profiles.
Record row := mk { user_id : uuid; role : user_role }.
End Profiles.

Module Questions.
Record row := mk {
  id : uuid;
  user_id : uuid;
  upvote_count : Z;
  downvote_count : Z;
  answer_count : Z;
  has_accepted_answer : bool
}.

Definition set_upvote_count (f : Z -> Z) (q : row) : row :=
  mk (id q) (user_id q) (f (upvote_count q)) (downvote_count q)
     (answer_count q) (has_accepted_answer q).
Definition set_downvote_count (f : Z -> Z) (q : row) : row :=
  mk (id q) (user_id q) (upvote_count q) (f (downvote_count q))
     (answer_count q) (has_accepted_answer q).
Definition set_answer_count (f : Z -> Z) (q : row) : row :=
  mk (id q) (user_id q) (upvote_count q) (downvote_count q)
     (f (answer_count q)) (has_accepted_answer q).
Definition set_has_accepted_answer (b : bool) (q : row) : row :=
  mk (id q) (user_id q) (upvote_count q) (downvote_count q)
     (answer_count q) b.

(** The counter a vote of kind [k] is tallied in. *)
Definition count_of (k : vote_type) (q : row) : Z :=
  match k with upvote => upvote_count q | downvote => downvote_count q end.
End Questions.

Module Answers.
Record row := mk {
  id : uuid;
  question_id : uuid;
  user_id : uuid;
  upvote_count : Z;
  downvote_count : Z;
  is_accepted : bool
}.

Definition set_upvote_count (f : Z -> Z) (a : row) : row :=
  mk (id a) (question_id a) (user_id a) (f (upvote_count a))
     (downvote_count a) (is_accepted a).
Definition set_downvote_count (f : Z -> Z) (a : row) : row :=
  mk (id a) (question_id a) (user_id a) (upvote_count a)
     (f (downvote_count a)) (is_accepted a).
Definition set_is_accepted (b : bool) (a : row) : row :=
  mk (id a) (question_id a) (user_id a) (upvote_count a)
     (downvote_count a) b.

Definition count_of (k : vote_type) (a : row) : Z :=
  match k with upvote => upvote_count a | downvote => downvote_count a end.
End Answers.

Module Votes.
Local Abbreviation enum := vote_type.

Record row := mk {
  user_id : uuid;
  question_id : option uuid;
  answer_id : option uuid;
  vote_type : enum
}.

Definition set_vote_type (k : enum) (v : row) : row :=
  mk (user_id v) (question_id v) (answer_id v) k.

(** [CONSTRAINT vote_target_check]: a question or an answer, not both. *)
Definition vote_target_check (v : row) : bool :=
  (not_null (question_id v) && negb (not_null (answer_id v)))
  || (negb (not_null (question_id v)) && not_null (answer_id v)).
End Votes.

Record db := mkdb {
  profiles : list Profiles.row;
  questions : list Questions.row;
  answers : list Answers.row;
  votes : list Votes.row
}.

Definition with_questions (qs : list Questions.row) (d : db) : db :=
  mkdb (profiles d) qs (answers d) (votes d).
Definition with_answers (l : list Answers.row) (d : db) : db :=
  mkdb (profiles d) (questions d) l (votes d).
Definition with_votes (vs : list Votes.row) (d : db) : db :=
  mkdb (profiles d) (questions d) (answers d) vs.

Definition empty_db : db := mkdb [] [] [] [].

(** ** Sessions and row-level policies *)

(** Who issues a statement: [auth.uid()] for the [authenticated] role; the
    service role bypasses every policy. *)
Inductive session := service_role | authenticated (uid : uuid).

(** A policy expression over [auth.uid()]. *)
Definition policy (s : session) (expr : uuid -> bool) : bool :=
  match s with
  | service_role => true
  | authenticated uid => expr uid
  end.

(** [EXISTS (SELECT 1 FROM public.profiles
             WHERE user_id = auth.uid() AND role = 'admin')] *)
Definition admin_exists (d : db) (uid : uuid) : bool :=
  existsb (fun p => (Profiles.user_id p == uid) && is_admin (Profiles.role p))
          (profiles d).

(** "Authenticated users can create questions" / "... create answers" /
    "Users can create their own votes": [WITH CHECK (auth.uid() = user_id)] *)
Definition policy_insert (s : session) (user_id : uuid) : bool :=
  policy s (fun uid => uid == user_id).

(** "Users can update their own questions" / "... their own answers" /
    "... their own votes": [USING (auth.uid() = user_id)] *)
Definition policy_update (s : session) (user_id : uuid) : bool :=
  policy s (fun uid => uid == user_id).

(** "Users can delete their own votes": [USING (auth.uid() = user_id)] *)
Definition policy_delete_vote (s : session) (user_id : uuid) : bool :=
  policy s (fun uid => uid == user_id).

(** "Question authors and admins can delete questions" /
    "Answer authors and admins can delete answers" *)
Definition policy_delete (s : session) (d : db) (user_id : uuid) : bool :=
  policy s (fun uid => (uid == user_id) || admin_exists d uid).

(** ** Statements issued by trigger bodies

    The three trigger functions below are declared [LANGUAGE plpgsql] without
    [SECURITY DEFINER] (only [handle_new_user] has it): they run as the
    session [s] whose statement fired them, and their UPDATEs are subject to
    the row-level policies of that session. *)

(** [UPDATE public.questions SET ... WHERE <p>], under "Users can update
    their own questions". *)
Definition update_questions (s : session) (p : Questions.row -> bool)
    (f : Questions.row -> Questions.row) (d : db) : db :=
  with_questions
    (map (fun q => if p q && policy_update s (Questions.user_id q) then f q else q)
         (questions d)) d.

(** [UPDATE public.answers SET ... WHERE <p>], under "Users can update their
    own answers", for the columns on which no trigger function acts (the two
    vote counters). *)
Definition update_answers (s : session) (p : Answers.row -> bool)
    (f : Answers.row -> Answers.row) (d : db) : db :=
  with_answers
    (map (fun a => if p a && policy_update s (Answers.user_id a) then f a else a)
         (answers d)) d.

(** OLD and NEW of a row-level trigger, by [TG_OP]. *)
Inductive trigger_event (row : Type) : Type :=
| TgInsert (NEW : row)
| TgUpdate (OLD NEW : row)
| TgDelete (OLD : row).
Arguments TgInsert {row} NEW.
Arguments TgUpdate {row} OLD NEW.
Arguments TgDelete {row} OLD.

(** ** [public.update_question_answer_count()] *)
Definition update_question_answer_count (s : session)
    (ev : trigger_event Answers.row) (d : db) : db :=
  match ev with
  | TgInsert NEW =>
      update_questions s (fun q => Questions.id q == Answers.question_id NEW)
        (Questions.set_answer_count (fun n => n + 1)) d
  | TgDelete OLD =>
      update_questions s (fun q => Questions.id q == Answers.question_id OLD)
        (Questions.set_answer_count (fun n => n - 1)) d
  | TgUpdate _ _ => d
  end.

(** ** [public.update_vote_counts()] *)
Definition update_vote_counts (s : session)
    (ev : trigger_event Votes.row) (d : db) : db :=
  match ev with
  | TgInsert NEW =>
      if not_null (Votes.question_id NEW) then
        if vote_type_eqb (Votes.vote_type NEW) upvote then
          update_questions s (fun q => is_id (Votes.question_id NEW) (Questions.id q))
            (Questions.set_upvote_count (fun n => n + 1)) d
        else
          update_questions s (fun q => is_id (Votes.question_id NEW) (Questions.id q))
            (Questions.set_downvote_count (fun n => n + 1)) d
      else if not_null (Votes.answer_id NEW) then
        if vote_type_eqb (Votes.vote_type NEW) upvote then
          update_answers s (fun a => is_id (Votes.answer_id NEW) (Answers.id a))
            (Answers.set_upvote_count (fun n => n + 1)) d
        else
          update_answers s (fun a => is_id (Votes.answer_id NEW) (Answers.id a))
            (Answers.set_downvote_count (fun n => n + 1)) d
      else d
  | TgDelete OLD =>
      if not_null (Votes.question_id OLD) then
        if vote_type_eqb (Votes.vote_type OLD) upvote then
          update_questions s (fun q => is_id (Votes.question_id OLD) (Questions.id q))
            (Questions.set_upvote_count (fun n => n - 1)) d
        else
          update_questions s (fun q => is_id (Votes.question_id OLD) (Questions.id q))
            (Questions.set_downvote_count (fun n => n - 1)) d
      else if not_null (Votes.answer_id OLD) then
        if vote_type_eqb (Votes.vote_type OLD) upvote then
          update_answers s (fun a => is_id (Votes.answer_id OLD) (Answers.id a))
            (Answers.set_upvote_count (fun n => n - 1)) d
        else
          update_answers s (fun a => is_id (Votes.answer_id OLD) (Answers.id a))
            (Answers.set_downvote_count (fun n => n - 1)) d
      else d
  | TgUpdate OLD NEW =>
      (* Handle vote type changes *)
      if not_null (Votes.question_id OLD) then
        let d1 :=
          if vote_type_eqb (Votes.vote_type OLD) upvote then
            update_questions s (fun q => is_id (Votes.question_id OLD) (Questions.id q))
              (Questions.set_upvote_count (fun n => n - 1)) d
          else
            update_questions s (fun q => is_id (Votes.question_id OLD) (Questions.id q))
              (Questions.set_downvote_count (fun n => n - 1)) d in
        if vote_type_eqb (Votes.vote_type NEW) upvote then
          update_questions s (fun q => is_id (Votes.question_id NEW) (Questions.id q))
            (Questions.set_upvote_count (fun n => n + 1)) d1
        else
          update_questions s (fun q => is_id (Votes.question_id NEW) (Questions.id q))
            (Questions.set_downvote_count (fun n => n + 1)) d1
      else if not_null (Votes.answer_id OLD) then
        let d1 :=
          if vote_type_eqb (Votes.vote_type OLD) upvote then
            update_answers s (fun a => is_id (Votes.answer_id OLD) (Answers.id a))
              (Answers.set_upvote_count (fun n => n - 1)) d
          else
            update_answers s (fun a => is_id (Votes.answer_id OLD) (Answers.id a))
              (Answers.set_downvote_count (fun n => n - 1)) d in
        if vote_type_eqb (Votes.vote_type NEW) upvote then
          update_answers s (fun a => is_id (Votes.answer_id NEW) (Answers.id a))
            (Answers.set_upvote_count (fun n => n + 1)) d1
        else
          update_answers s (fun a => is_id (Votes.answer_id NEW) (Answers.id a))
            (Answers.set_downvote_count (fun n => n + 1)) d1
      else d
  end.

(** ** [public.update_question_accepted_status()]

    The function is attached AFTER UPDATE on [answers], and its accept branch
    itself updates [answers], so it fires again for every sibling row it
    writes.  Those nested firings all have [NEW.is_accepted = false]: they
    can only reach the ELSE branch, which touches [questions] alone.  The
    recursion is therefore two levels deep and is unfolded here:
    [recheck_accepted] is the ELSE branch, [accepted_status_nested] is the
    function as it runs for a row written by the sibling-clearing UPDATE. *)

(** [EXISTS (SELECT 1 FROM answers WHERE question_id = NEW.question_id
      AND is_accepted = true AND id != NEW.id)]; "Answers are viewable by
    everyone", so the check reads every row. *)
Definition other_accepted_exists (NEW : Answers.row) (d : db) : bool :=
  existsb (fun a => (Answers.question_id a == Answers.question_id NEW)
                    && Answers.is_accepted a
                    && negb (Answers.id a == Answers.id NEW))
          (answers d).

Definition recheck_accepted (s : session) (NEW : Answers.row) (d : db) : db :=
  if negb (other_accepted_exists NEW d) then
    update_questions s (fun q => Questions.id q == Answers.question_id NEW)
      (Questions.set_has_accepted_answer false) d
  else d.

Definition accepted_status_nested (s : session) (OLD NEW : Answers.row)
    (d : db) : db :=
  if negb (Bool.eqb (Answers.is_accepted OLD) (Answers.is_accepted NEW))
  then recheck_accepted s NEW d
  else d.

(** [UPDATE public.answers SET is_accepted = false
     WHERE question_id = NEW.question_id AND id != NEW.id], under "Users can
    update their own answers", followed by the AFTER UPDATE firings for the
    rows it wrote. *)
Definition clear_other_answers (s : session) (NEW : Answers.row) (d : db) : db :=
  let p := fun a => (Answers.question_id a == Answers.question_id NEW)
                    && negb (Answers.id a == Answers.id NEW)
                    && policy_update s (Answers.user_id a) in
  let olds := filter p (answers d) in
  let d1 := with_answers
              (map (fun a => if p a then Answers.set_is_accepted false a else a)
                   (answers d)) d in
  fold_left (fun d' OLD =>
               accepted_status_nested s OLD (Answers.set_is_accepted false OLD) d')
            olds d1.

Definition update_question_accepted_status (s : session)
    (ev : trigger_event Answers.row) (d : db) : db :=
  match ev with
  | TgUpdate OLD NEW =>
      if negb (Bool.eqb (Answers.is_accepted OLD) (Answers.is_accepted NEW)) then
        if Answers.is_accepted NEW then
          (* Unmark other answers as accepted for this question *)
          let d1 := clear_other_answers s NEW d in
          (* Mark question as having accepted answer *)
          update_questions s (fun q => Questions.id q == Answers.question_id NEW)
            (Questions.set_has_accepted_answer true) d1
        else
          (* Check if any other answers are accepted for this question *)
          recheck_accepted s NEW d
      else d
  | TgInsert _ | TgDelete _ => d
  end.

(** ** Statements *)

Inductive sqlstate :=
| insufficient_privilege   (* 42501: new row violates row-level security *)
| check_violation          (* 23514 *)
| unique_violation         (* 23505 *)
| foreign_key_violation.   (* 23503 *)

Inductive response :=
| ok (d : db)
| error (e : sqlstate).

Definition profile_exists (d : db) (uid : uuid) : bool :=
  existsb (fun p => Profiles.user_id p == uid) (profiles d).
Definition question_exists (d : db) (qid : uuid) : bool :=
  existsb (fun q => Questions.id q == qid) (questions d).
Definition answer_exists (d : db) (aid : uuid) : bool :=
  existsb (fun a => Answers.id a == aid) (answers d).

(** [SELECT * FROM questions WHERE id = qid] (at most one row) *)
Definition select_question (d : db) (qid : uuid) : option Questions.row :=
  find (fun q => Questions.id q == qid) (questions d).
Definition select_answer (d : db) (aid : uuid) : option Answers.row :=
  find (fun a => Answers.id a == aid) (answers d).

(** *** votes *)

(** [DELETE FROM votes WHERE <p>] and its AFTER DELETE firings.  The rows
    are deleted by the statement of session [s] or by a cascade of it; in
    both cases the row-level triggers are fired at the end of that statement,
    as [s]. *)
Definition delete_votes (s : session) (p : Votes.row -> bool) (d : db) : db :=
  let olds := filter p (votes d) in
  let d1 := with_votes (filter (fun v => negb (p v)) (votes d)) d in
  fold_left (fun d' OLD => update_vote_counts s (TgDelete OLD) d') olds d1.

(** [UPDATE votes SET vote_type = k WHERE <p>] and its AFTER UPDATE firings. *)
Definition update_votes (s : session) (p : Votes.row -> bool) (k : vote_type)
    (d : db) : db :=
  let olds := filter p (votes d) in
  let d1 := with_votes
              (map (fun v => if p v then Votes.set_vote_type k v else v)
                   (votes d)) d in
  fold_left (fun d' OLD =>
               update_vote_counts s (TgUpdate OLD (Votes.set_vote_type k OLD)) d')
            olds d1.

(** [UNIQUE (user_id, question_id)] and [UNIQUE (user_id, answer_id)]: NULLs
    are distinct, so a NULL column never collides. *)
Definition vote_collides (NEW v : Votes.row) : bool :=
  (Votes.user_id v == Votes.user_id NEW)
  && (match Votes.question_id NEW with
      | Some q => is_id (Votes.question_id v) q
      | None => false
      end
      || match Votes.answer_id NEW with
         | Some a => is_id (Votes.answer_id v) a
         | None => false
         end).

Definition vote_references_ok (d : db) (NEW : Votes.row) : bool :=
  profile_exists d (Votes.user_id NEW)
  && match Votes.question_id NEW with
     | Some q => question_exists d q
     | None => true
     end
  && match Votes.answer_id NEW with
     | Some a => answer_exists d a
     | None => true
     end.

(** [INSERT INTO votes (user_id, question_id, answer_id, vote_type)] *)
Definition insert_vote (s : session) (NEW : Votes.row) (d : db) : response :=
  if negb (policy_insert s (Votes.user_id NEW)) then error insufficient_privilege
  else if negb (Votes.vote_target_check NEW) then error check_violation
  else if existsb (vote_collides NEW) (votes d) then error unique_violation
  else if negb (vote_references_ok d NEW) then error foreign_key_violation
  else ok (update_vote_counts s (TgInsert NEW)
             (with_votes (votes d ++ [NEW]) d)).

(** The columns a [votes] statement of the clients selects on: the voter and
    one of the two target columns. *)
Inductive vote_target := on_question (qid : uuid) | on_answer (aid : uuid).

Definition vote_matches (user_id : uuid) (t : vote_target) (v : Votes.row) : bool :=
  (Votes.user_id v == user_id)
  && match t with
     | on_question qid => is_id (Votes.question_id v) qid
     | on_answer aid => is_id (Votes.answer_id v) aid
     end.

(** [DELETE FROM votes WHERE user_id = .. AND question_id|answer_id = ..] *)
Definition delete_vote (s : session) (user_id : uuid) (t : vote_target)
    (d : db) : response :=
  ok (delete_votes s (fun v => vote_matches user_id t v
                               && policy_delete_vote s (Votes.user_id v)) d).

(** [UPDATE votes SET vote_type = k WHERE user_id = .. AND target = ..] *)
Definition update_vote (s : session) (user_id : uuid) (t : vote_target)
    (k : vote_type) (d : db) : response :=
  ok (update_votes s (fun v => vote_matches user_id t v
                               && policy_update s (Votes.user_id v)) k d).

(** *** answers *)

(** [INSERT INTO answers (id, content, question_id, user_id)]: the counters
    and [is_accepted] take their column defaults. *)
Definition insert_answer (s : session) (id question_id user_id : uuid)
    (d : db) : response :=
  if negb (policy_insert s user_id) then error insufficient_privilege
  else if answer_exists d id then error unique_violation
  else if negb (question_exists d question_id && profile_exists d user_id)
  then error foreign_key_violation
  else
    let NEW := Answers.mk id question_id user_id 0 0 false in
    ok (update_question_answer_count s (TgInsert NEW)
          (with_answers (answers d ++ [NEW]) d)).

(** [DELETE FROM answers WHERE <p>]: each deleted row cascades to the votes
    that reference it ([votes.answer_id ... ON DELETE CASCADE]) and fires
    [update_answer_count_on_delete].  The cascade itself is not subject to
    the policies on [votes]; its triggers run as [s]. *)
Definition delete_answers (s : session) (p : Answers.row -> bool) (d : db) : db :=
  let olds := filter p (answers d) in
  let d1 := with_answers (filter (fun a => negb (p a)) (answers d)) d in
  fold_left (fun d' OLD =>
               update_question_answer_count s (TgDelete OLD)
                 (delete_votes s (fun v => is_id (Votes.answer_id v) (Answers.id OLD)) d'))
            olds d1.

Definition delete_answer (s : session) (id : uuid) (d : db) : response :=
  ok (delete_answers s (fun a => (Answers.id a == id)
                                 && policy_delete s d (Answers.user_id a)) d).

(** [UPDATE answers SET is_accepted = v WHERE id = ..]: the rows the policy
    lets through are written, then [update_accepted_answer_trigger] fires for
    each of them. *)
Definition update_answer_is_accepted (s : session) (id : uuid) (v : bool)
    (d : db) : response :=
  let p := fun a => (Answers.id a == id) && policy_update s (Answers.user_id a) in
  let olds := filter p (answers d) in
  let d1 := with_answers
              (map (fun a => if p a then Answers.set_is_accepted v a else a)
                   (answers d)) d in
  ok (fold_left (fun d' OLD =>
                   update_question_accepted_status s
                     (TgUpdate OLD (Answers.set_is_accepted v OLD)) d')
                olds d1).

(** *** questions *)

(** [INSERT INTO questions (id, title, description, tags, user_id)] *)
Definition insert_question (s : session) (id user_id : uuid) (d : db) : response :=
  if negb (policy_insert s user_id) then error insufficient_privilege
  else if question_exists d id then error unique_violation
  else if negb (profile_exists d user_id) then error foreign_key_violation
  else ok (with_questions (questions d ++ [Questions.mk id user_id 0 0 0 false]) d).

(** [DELETE FROM questions WHERE id = ..]: cascades to the answers
    ([answers.question_id]) and to the votes ([votes.question_id]). *)
Definition delete_question (s : session) (id : uuid) (d : db) : response :=
  let p := fun q => (Questions.id q == id) && policy_delete s d (Questions.user_id q) in
  let olds := filter p (questions d) in
  let d1 := with_questions (filter (fun q => negb (p q)) (questions d)) d in
  ok (fold_left (fun d' OLD =>
                   delete_votes s (fun v => is_id (Votes.question_id v) (Questions.id OLD))
                     (delete_answers s (fun a => Answers.question_id a == Questions.id OLD) d'))
                olds d1).

(** *** profiles: [handle_new_user()], run on sign-up *)
Definition handle_new_user (NEW_id : uuid) (d : db) : response :=
  if profile_exists d NEW_id then error unique_violation
  else ok (mkdb (profiles d ++ [Profiles.mk NEW_id user])
                (questions d) (answers d) (votes d)).

(** ** Runs *)

Inductive statement :=
| SignUp (uid : uuid)
| InsertQuestion (id user_id : uuid)
| DeleteQuestion (id : uuid)
| InsertAnswer (id question_id user_id : uuid)
| DeleteAnswer (id : uuid)
| SetAccepted (id : uuid) (v : bool)
| InsertVote (NEW : Votes.row)
| DeleteVote (user_id : uuid) (t : vote_target)
| UpdateVote (user_id : uuid) (t : vote_target) (k : vote_type).

Definition exec (s : session) (st : statement) (d : db) : response :=
  match st with
  | SignUp uid => handle_new_user uid d
  | InsertQuestion id user_id => insert_question s id user_id d
  | DeleteQuestion id => delete_question s id d
  | InsertAnswer id question_id user_id => insert_answer s id question_id user_id d
  | DeleteAnswer id => delete_answer s id d
  | SetAccepted id v => update_answer_is_accepted s id v d
  | InsertVote NEW => insert_vote s NEW d
  | DeleteVote user_id t => delete_vote s user_id t d
  | UpdateVote user_id t k => update_vote s user_id t k d
  end.

(** The database after a request: an error rolls the transaction back. *)
Definition commit (r : response) (d : db) : db :=
  match r with
  | ok d' => d'
  | error _ => d
  end.

Definition step (d : db) (req : session * statement) : db :=
  commit (exec (fst req) (snd req) d) d.

Definition run (reqs : list (session * statement)) (d : db) : db :=
  fold_left step reqs d.

(** A database is initial when only profiles have been created. *)
Definition initial (d : db) : bool :=
  match questions d, answers d, votes d with
  | [], [], [] => true
  | _, _, _ => false
  end.

(** ** JavaScript strings

    A string is the sequence of its bytes.  On the characters of the 7-bit
    range, [trim], [toUpperCase] and [toLowerCase] below are JavaScript's.
    A byte above 127 is left as it is, which is not what JavaScript does on
    every character outside that range ([trim] also removes U+00A0, U+FEFF
    and the Unicode space separators; [toUpperCase] maps U+00DF to two
    characters): a property that depends on it states the range as a
    hypothesis ([seven_bit]).  A text that [trim] below makes empty consists
    of TAB, LF, VT, FF, CR and SP only, and JavaScript makes it empty as
    well. *)

Module JS.

Definition code (c : Ascii.ascii) : N := Ascii.N_of_ascii c.

(** WhiteSpace and LineTerminator: TAB, LF, VT, FF, CR and SP. *)
Definition isWhiteSpace (c : Ascii.ascii) : bool :=
  ((9 <=? code c) && (code c <=? 13) || (code c =? 32))%N.

Definition upper (c : Ascii.ascii) : Ascii.ascii :=
  if ((97 <=? code c) && (code c <=? 122))%N
  then Ascii.ascii_of_N (code c - 32) else c.

Definition lower (c : Ascii.ascii) : Ascii.ascii :=
  if ((65 <=? code c) && (code c <=? 90))%N
  then Ascii.ascii_of_N (code c + 32) else c.

Fixpoint map_chars (f : Ascii.ascii -> Ascii.ascii) (s : String.string)
    : String.string :=
  match s with
  | String.EmptyString => String.EmptyString
  | String.String c s' => String.String (f c) (map_chars f s')
  end.

Definition toUpperCase : String.string -> String.string := map_chars upper.
Definition toLowerCase : String.string -> String.string := map_chars lower.

Fixpoint trimStart (s : String.string) : String.string :=
  match s with
  | String.EmptyString => String.EmptyString
  | String.String c s' => if isWhiteSpace c then trimStart s' else s
  end.

Fixpoint trimEnd (s : String.string) : String.string :=
  match s with
  | String.EmptyString => String.EmptyString
  | String.String c s' =>
      match trimEnd s' with
      | String.EmptyString =>
          if isWhiteSpace c then String.EmptyString
          else String.String c String.EmptyString
      | t => String.String c t
      end
  end.

Definition trim (s : String.string) : String.string := trimEnd (trimStart s).

(** [s.split(sep)] for a separator of one character. *)
Fixpoint split (sep : Ascii.ascii) (s : String.string) : list String.string :=
  match s with
  | String.EmptyString => [String.EmptyString]
  | String.String c s' =>
      if Ascii.eqb c sep then String.EmptyString :: split sep s'
      else match split sep s' with
           | w :: ws => String.String c w :: ws
           | [] => [String.String c String.EmptyString]
           end
  end.

(** [n[0]]: [undefined] on the empty string. *)
Definition first (n : String.string) : option Ascii.ascii :=
  match n with
  | String.String c _ => Some c
  | String.EmptyString => None
  end.

(** [.join('')] on an array of single characters: [undefined] is joined as
    the empty string. *)
Fixpoint join (l : list (option Ascii.ascii)) : String.string :=
  match l with
  | [] => String.EmptyString
  | Some c :: l' => String.String c (join l')
  | None :: l' => join l'
  end.

(** [s.slice(from, to)] for [0 <= from <= to]. *)
Definition slice (from to : nat) (s : String.string) : String.string :=
  String.substring from (to - from) s.

(** [l.includes(x)] *)
Definition includes (l : list String.string) (x : String.string) : bool :=
  existsb (fun y => y == x) l.

(** [Array.from(new Set(l))]: the first occurrence of every element, in
    order of insertion. *)
Fixpoint unique (seen l : list String.string) : list String.string :=
  match l with
  | [] => []
  | x :: l' => if includes seen x then unique seen l'
               else x :: unique (x :: seen) l'
  end.

(** [l.sort()]: ascending in the order of the code units.  The order is
    total and antisymmetric, so the sorted list does not depend on the
    algorithm; insertion is used here. *)
Fixpoint insert (x : String.string) (l : list String.string)
    : list String.string :=
  match l with
  | [] => [x]
  | y :: l' => if String.leb x y then x :: l else y :: insert x l'
  end.

Definition sort (l : list String.string) : list String.string :=
  fold_right insert [] l.

End JS.

(** ** The client page [src/pages/QuestionDetail.tsx] *)

(** supabase-js [.upsert(row, { onConflict })] is
    [INSERT ... ON CONFLICT (<target>) DO UPDATE SET ...].  Without the
    option the conflict target is the primary key; the page never supplies
    [votes.id], the generated key matches no row, and the statement is the
    plain INSERT, subject to the two UNIQUE constraints.  With a target on
    the voter and a target column, the voter's existing row has its
    [vote_type] replaced. *)
Inductive conflict_columns := user_id_question_id | user_id_answer_id.

Definition conflicting (c : conflict_columns) (NEW v : Votes.row) : bool :=
  (Votes.user_id v == Votes.user_id NEW)
  && match c with
     | user_id_question_id =>
         match Votes.question_id NEW with
         | Some q => is_id (Votes.question_id v) q
         | None => false
         end
     | user_id_answer_id =>
         match Votes.answer_id NEW with
         | Some a => is_id (Votes.answer_id v) a
         | None => false
         end
     end.

Definition upsert_vote (s : session) (onConflict : option conflict_columns)
    (NEW : Votes.row) (d : db) : response :=
  match onConflict with
  | None => insert_vote s NEW d
  | Some c =>
      if negb (policy_insert s (Votes.user_id NEW)) then error insufficient_privilege
      else if existsb (conflicting c NEW) (votes d) then
        ok (update_votes s (fun v => conflicting c NEW v
                                     && policy_update s (Votes.user_id v))
                         (Votes.vote_type NEW) d)
      else insert_vote s NEW d
  end.

Module QuestionDetail.

(** [select vote_type from votes where user_id = .. and <target column> = ..],
    read with [maybeSingle]. *)
Definition vote_of (d : db) (uid : uuid) (t : vote_target) : option vote_type :=
  option_map Votes.vote_type (find (vote_matches uid t) (votes d)).

(** The ids of the rows [fetchAnswers] selects: the answers of the page's
    question. *)
Definition answerIds (d : db) (qid : uuid) : list uuid :=
  map Answers.id (filter (fun a => Answers.question_id a == qid) (answers d)).

(** The rows [fetchAnswers] selects.  Their order on the page (accepted
    first, then by [created_at]) is not kept; nothing below depends on it. *)
Definition select_answers (d : db) (qid : uuid) : list Answers.row :=
  filter (fun a => Answers.question_id a == qid) (answers d).

(** The component state the handlers read.  [id] is the parameter of the
    route, which always supplies it. *)
Record state := mk {
  id : uuid;                                  (* useParams *)
  user : option uuid;                         (* useAuth: user.id *)
  question : option Questions.row;
  answers : list Answers.row;
  questionVote : option vote_type;
  answerVotes : uuid -> option vote_type
}.

(** The state of the first render: [useState(null)], [useState([])],
    [useState(null)], [useState({})]. *)
Definition useState (id : uuid) (user : option uuid) : state :=
  mk id user None [] None (fun _ => None).

(** How a handler ends: an early [return], the end of the [try] block, or
    the [catch] block with the error of the rejected statement. *)
Inductive outcome := returned | completed | caught (e : sqlstate).

Definition settle (r : response) (d : db) : outcome * db :=
  match r with
  | ok d' => (completed, d')
  | error e => (caught e, d)
  end.

(** JavaScript truthiness of an optional string argument. *)
Definition truthy (x : option uuid) : bool :=
  match x with
  | Some s => negb (s == String.EmptyString)
  | None => false
  end.

(** [x || y] *)
Definition or_else (x : option uuid) (y : uuid) : uuid :=
  match x with
  | Some s => if truthy x then s else y
  | None => y
  end.

(** [x || null] *)
Definition or_null (x : option uuid) : option uuid :=
  if truthy x then x else None.

Definition handleVote (st : state) (type : vote_type)
    (answerId : option uuid) (d : db) : outcome * db :=
  match user st with
  | None => (returned, d)
  | Some uid =>
      let currentVote :=
        if truthy answerId
        then answerVotes st (or_else answerId String.EmptyString)
        else questionVote st in
      let isRemoving :=
        match currentVote with
        | Some k => vote_type_eqb k type
        | None => false
        end in
      if isRemoving then
        (* Remove vote *)
        settle (delete_vote (authenticated uid) uid
                  (if truthy answerId
                   then on_answer (or_else answerId (id st))
                   else on_question (or_else answerId (id st))) d) d
      else
        (* Add or update vote *)
        settle (upsert_vote (authenticated uid) None
                  (Votes.mk uid
                     (if truthy answerId then None else Some (id st))
                     (or_null answerId)
                     type) d) d
  end.

Definition handleAcceptAnswer (st : state) (answerId : uuid) (d : db)
    : outcome * db :=
  match user st, question st with
  | Some uid, Some q =>
      if negb (Questions.user_id q == uid) then (returned, d)
      else settle (update_answer_is_accepted (authenticated uid) answerId true d) d
  | _, _ => (returned, d)
  end.

(** [fetchQuestion]: the row is read with [single]; when there is none the
    error is caught and [question] keeps its value. *)
Definition fetchQuestion (st : state) (d : db) : state :=
  match select_question d (id st) with
  | Some data =>
      mk (id st) (user st) (Some data) (answers st) (questionVote st)
         (answerVotes st)
  | None => st
  end.

(** [fetchAnswers]: [setAnswers(data || [])]. *)
Definition fetchAnswers (st : state) (d : db) : state :=
  mk (id st) (user st) (question st) (select_answers d (id st))
     (questionVote st) (answerVotes st).

(** [votesMap]: the reduction of the selected rows, a later row replacing an
    earlier one under the same key. *)
Definition votesMap (answerVotesData : list Votes.row) : uuid -> option vote_type :=
  fold_left (fun acc vote =>
               match Votes.answer_id vote with
               | Some answer_id =>
                   if truthy (Votes.answer_id vote)
                   then fun key => if key == answer_id
                                   then Some (Votes.vote_type vote) else acc key
                   else acc
               | None => acc
               end)
            answerVotesData (fun _ => None).

(** [fetchVotes], as the render whose [answers] are [known] has created it:
    the function reads [answers] from its closure.  [questionVote] is set
    when a row comes back and kept otherwise; [answerVotes] is replaced when
    [known] is not empty and kept otherwise. *)
Definition fetchVotes (known : list Answers.row) (st : state) (d : db) : state :=
  match user st with
  | None => st
  | Some uid =>
      let questionVoteData := vote_of d uid (on_question (id st)) in
      let questionVote' :=
        match questionVoteData with
        | Some k => Some k
        | None => questionVote st
        end in
      let answerIds := map Answers.id known in
      let answerVotes' :=
        if (0 <? length answerIds)%nat then
          votesMap (filter (fun v => (Votes.user_id v == uid)
                                     && existsb (is_id (Votes.answer_id v)) answerIds)
                           (votes d))
        else answerVotes st in
      mk (id st) (user st) (question st) (answers st) questionVote' answerVotes'
  end.

(** The effect of the first render, for a signed-in user: [fetchQuestion],
    [fetchAnswers] and [fetchVotes] are the closures of that render, in which
    [answers] is still the empty array. *)
Definition useEffect (render : state) (d : db) : state :=
  fetchVotes (answers render) (fetchAnswers (fetchQuestion render d) d) d.

(** The component state of a freshly loaded page, once the requests of its
    first effect have completed against [d] for the signed-in user [uid]. *)
Definition fetch (d : db) (uid : uuid) (qid : uuid) : state :=
  useEffect (useState qid (Some uid)) d.


(** [handleSubmitAnswer]: the answer typed in the form is inserted for the
    page's question; [answers.id] takes its default, [gen_random_uuid()]. *)
Definition handleSubmitAnswer (st : state) (newAnswer : String.string)
    (gen_random_uuid : uuid) (d : db) : outcome * db :=
  match user st with
  | None => (returned, d)
  | Some uid =>
      if JS.trim newAnswer == String.EmptyString then (returned, d)
      else settle (insert_answer (authenticated uid) gen_random_uuid (id st) uid d) d
  end.

(** [isQuestionAuthor = user?.id === question.user_id] *)
Definition isQuestionAuthor (st : state) (q : Questions.row) : bool :=
  match user st with
  | Some uid => uid == Questions.user_id q
  | None => false
  end.

(** Whether the Accept button is rendered under an answer:
    [isQuestionAuthor && !answer.is_accepted && !question.has_accepted_answer],
    on a page that has its question. *)
Definition acceptButton (st : state) (answer : Answers.row) : bool :=
  match question st with
  | Some q =>
      isQuestionAuthor st q
      && negb (Answers.is_accepted answer)
      && negb (Questions.has_accepted_answer q)
  | None => false
  end.

(** [getInitials]: the first character of every word of a name, upper-cased
    and cut to two characters. *)
Definition getInitials (name : String.string) : String.string :=
  JS.slice 0 2
    (JS.toUpperCase
       (JS.join (map JS.first (JS.split (Ascii.ascii_of_N 32) name)))).

End QuestionDetail.

(** ** The hook [src/hooks/useProfile.ts] *)

(** [UPDATE profiles SET role = r WHERE user_id = ..], guarded by
    "Users can update their own profile": [USING (auth.uid() = user_id)]. *)
Definition update_profile_role (s : session) (user_id : uuid) (r : user_role)
    (d : db) : response :=
  ok (mkdb (map (fun p => if (Profiles.user_id p == user_id)
                             && policy_update s (Profiles.user_id p)
                          then Profiles.mk (Profiles.user_id p) r else p)
                (profiles d))
           (questions d) (answers d) (votes d)).

Module useProfile.

(** [fetchProfile]: [select * from profiles where user_id = user.id], read
    with [single]; anything but exactly one row is an error, which leaves
    [profile] null. *)
Definition fetchProfile (user : option uuid) (d : db) : option Profiles.row :=
  match user with
  | None => None
  | Some uid =>
      match filter (fun p => Profiles.user_id p == uid) (profiles d) with
      | [p] => Some p
      | _ => None
      end
  end.

(** What [updateProfile] returns in [error]. *)
Inductive result := no_user | rejected (e : sqlstate) | updated.

(** [updateProfile({ role })]: the call whose [updates] hold the [role]
    column alone. *)
Definition updateProfile (user : option uuid) (role : user_role) (d : db)
    : result * db :=
  match user with
  | None => (no_user, d)
  | Some uid =>
      match update_profile_role (authenticated uid) uid role d with
      | ok d' => (updated, d')
      | error e => (rejected e, d)
      end
  end.

End useProfile.

(** ** The component [src/components/questions/QuestionCard.tsx] *)

Module QuestionCard.

Definition isAuthor (user : option uuid) (question : Questions.row) : bool :=
  match user with
  | Some uid => uid == Questions.user_id question
  | None => false
  end.

Definition isAdmin (profile : option Profiles.row) : bool :=
  match profile with
  | Some p => is_admin (Profiles.role p)
  | None => false
  end.

Definition canDelete (user : option uuid) (profile : option Profiles.row)
    (question : Questions.row) : bool :=
  isAuthor user question || isAdmin profile.

(** [handleVote]: the upserted row has no [answer_id] key, so the column is
    NULL. *)
Definition handleVote (user : option uuid) (voting : bool)
    (question : Questions.row) (userVote : option vote_type)
    (voteType : vote_type) (d : db) : QuestionDetail.outcome * db :=
  match user with
  | None => (QuestionDetail.returned, d)
  | Some uid =>
      if voting then (QuestionDetail.returned, d)
      else if match userVote with
              | Some k => vote_type_eqb k voteType
              | None => false
              end
      then
        (* Remove vote *)
        QuestionDetail.settle
          (delete_vote (authenticated uid) uid
             (on_question (Questions.id question)) d) d
      else
        (* Add or update vote *)
        QuestionDetail.settle
          (upsert_vote (authenticated uid) None
             (Votes.mk uid (Some (Questions.id question)) None voteType) d) d
  end.

(** [handleDelete].  Without a signed-in user the statement runs in the
    anonymous session, for which [auth.uid()] is NULL: no row passes the
    delete policy. *)
Definition handleDelete (user : option uuid) (profile : option Profiles.row)
    (deleting : bool) (question : Questions.row) (d : db)
    : QuestionDetail.outcome * db :=
  if negb (canDelete user profile question) || deleting
  then (QuestionDetail.returned, d)
  else
    match user with
    | Some uid =>
        QuestionDetail.settle
          (delete_question (authenticated uid) (Questions.id question) d) d
    | None => (QuestionDetail.completed, d)
    end.

End QuestionCard.

(** ** The page [src/pages/AskQuestion.tsx] *)

Module AskQuestion.

(** [formData] and [currentTag]. *)
Record state := mk {
  title : String.string;
  description : String.string;
  tags : list String.string;
  currentTag : String.string
}.

Definition initial_state : state :=
  mk String.EmptyString String.EmptyString [] String.EmptyString.

Definition addTag (st : state) : state :=
  if negb (JS.trim (currentTag st) == String.EmptyString)
     && negb (JS.includes (tags st) (JS.trim (currentTag st)))
     && (length (tags st) <? 5)%nat
  then mk (title st) (description st)
          (tags st ++ [JS.toLowerCase (JS.trim (currentTag st))])
          String.EmptyString
  else st.

Definition removeTag (tagToRemove : String.string) (st : state) : state :=
  mk (title st) (description st)
     (filter (fun tag => negb (tag == tagToRemove)) (tags st))
     (currentTag st).

(** [onChange] of the tag input. *)
Definition setCurrentTag (value : String.string) (st : state) : state :=
  mk (title st) (description st) (tags st) value.

(** What the user does in the tag editor: typing in the input, clicking +
    or pressing Enter ([handleKeyPress]), clicking the x of a tag. *)
Inductive event :=
| Change (value : String.string)
| Add
| Remove (tag : String.string).

Definition handle (st : state) (e : event) : state :=
  match e with
  | Change value => setCurrentTag value st
  | Add => addTag st
  | Remove tag => removeTag tag st
  end.

End AskQuestion.

(** ** The page [src/pages/Questions.tsx] *)

Module QuestionsPage.

(** The rows [fetchAvailableTags] selects: the [tags] column. *)
Definition tags_row := option (list String.string).

(** [data.flatMap(q => q.tags || [])], then
    [Array.from(new Set(allTags)).sort()]. *)
Definition fetchAvailableTags (data : list tags_row) : list String.string :=
  let allTags := flat_map (fun q => match q with
                                    | Some tags => tags
                                    | None => []
                                    end) data in
  let uniqueTags := JS.sort (JS.unique [] allTags) in
  uniqueTags.

End QuestionsPage.

(** * Vocabulary of the properties *)

(** ** Live votes *)

(** Number of live votes of kind [k] on target [i]. *)
Definition live_votes (col : Votes.row -> option uuid) (k : vote_type)
    (i : uuid) (vs : list Votes.row) : Z :=
  Z.of_nat (length (filter (fun v => is_id (col v) i
                                     && vote_type_eqb (Votes.vote_type v) k) vs)).

(** ** Projections of a database *)

(** The columns of a row that a property reads: keys and references ([AK]),
    acceptance ([AA], [QF]), vote counters ([AV], [QV]), and the key of a
    vote under the two UNIQUE constraints ([VK]). *)

Definition AK (a : Answers.row) := (Answers.id a, Answers.question_id a).
Definition AA (a : Answers.row) :=
  (Answers.id a, Answers.question_id a, Answers.is_accepted a).
Definition AV (a : Answers.row) :=
  (Answers.id a, Answers.upvote_count a, Answers.downvote_count a).
Definition QF (q : Questions.row) :=
  (Questions.id q, Questions.has_accepted_answer q).
Definition QV (q : Questions.row) :=
  (Questions.id q, Questions.upvote_count q, Questions.downvote_count q).

Definition VK (v : Votes.row) :=
  (Votes.user_id v, Votes.question_id v, Votes.answer_id v).

Definition keys (d : db) :=
  (profiles d, map Questions.id (questions d), map AK (answers d), votes d).
Definition acceptance (d : db) := (map QF (questions d), map AA (answers d)).
Definition tallies (d : db) := (map QV (questions d), map AV (answers d)).

(** ** Constraints *)

Definition ck_votes (vs : list Votes.row) : Prop :=
  forall v, In v vs -> Votes.vote_target_check v = true.

(** The declared constraints: primary keys, foreign keys from [answers] and
    [votes], and [vote_target_check]. *)
Definition schema_on
    (k : list Profiles.row * list uuid * list (uuid * uuid) * list Votes.row)
    : Prop :=
  match k with
  | (_, qids, aks, vs) =>
      NoDup qids
      /\ NoDup (map fst aks)
      /\ incl (map snd aks) qids
      /\ ck_votes vs
      /\ (forall v, In v vs ->
            (forall q, Votes.question_id v = Some q -> In q qids)
            /\ (forall a, Votes.answer_id v = Some a -> In a (map fst aks)))
  end.

Definition schema_ok (d : db) : Prop := schema_on (keys d).

Definition schema_rows (qs : list Questions.row) (ans : list Answers.row)
    (vs : list Votes.row) : Prop :=
  schema_on ([], map Questions.id qs, map AK ans, vs).

Definition votes_wf_on (ps : list Profiles.row) (vs : list Votes.row) : Prop :=
  NoDup (map VK vs)
  /\ (forall v, In v vs ->
        existsb (fun p => Profiles.user_id p == Votes.user_id v) ps = true).

Definition votes_wf (d : db) : Prop := votes_wf_on (profiles d) (votes d).

(** ** Statements in closed form *)

(** [UPDATE questions SET has_accepted_answer = b WHERE id = Q] as the
    session [s] runs it, on rows. *)
Definition flag_rows (s : session) (Q : uuid) (b : bool)
    (qs : list Questions.row) :=
  map (fun q => if (Questions.id q == Q) && policy_update s (Questions.user_id q)
                then Questions.set_has_accepted_answer b q else q) qs.

(** The rows the sibling-clearing UPDATE writes when the session [s] runs
    it. *)
Definition sibling (s : session) (NEW a : Answers.row) : bool :=
  (Answers.question_id a == Answers.question_id NEW)
  && negb (Answers.id a == Answers.id NEW)
  && policy_update s (Answers.user_id a).

(** A vote row is removed by the cascade from the deleted answers [olds]. *)
Definition cascaded (olds : list Answers.row) (v : Votes.row) : bool :=
  existsb (fun o => is_id (Votes.answer_id v) (Answers.id o)) olds.

Definition delete_answers_step (s : session) (d' : db) (OLD : Answers.row) : db :=
  update_question_answer_count s (TgDelete OLD)
    (delete_votes s (fun v => is_id (Votes.answer_id v) (Answers.id OLD)) d').

(** ** Rows of other users *)

(** Every question row of [d] that the user [c] does not own is a row of
    [d'], with every column as it was. *)
Definition questions_of_others_kept (c : uuid) (d d' : db) : Prop :=
  forall q, In q (questions d) -> Questions.user_id q <> c -> In q (questions d').

Definition answers_of_others_kept (c : uuid) (d d' : db) : Prop :=
  forall a, In a (answers d) -> Answers.user_id a <> c -> In a (answers d').

Definition others_kept (c : uuid) (d d' : db) : Prop :=
  questions_of_others_kept c d d' /\ answers_of_others_kept c d d'.

(** The statements that delete rows of [questions] or [answers]. *)
Definition deletes_rows (st : statement) : bool :=
  match st with
  | DeleteQuestion _ | DeleteAnswer _ => true
  | _ => false
  end.

(** ** Reading single rows *)

Definition is_accepted_of (d : db) (aid : uuid) : option bool :=
  option_map Answers.is_accepted (select_answer d aid).

Definition has_accepted_answer_of (d : db) (qid : uuid) : option bool :=
  option_map Questions.has_accepted_answer (select_question d qid).

Definition answer_count_of (d : db) (qid : uuid) : option Z :=
  option_map Questions.answer_count (select_question d qid).

(** The existence check of the unaccept branch, on the answers of [d]. *)
Definition other_accepted (d : db) (qid aid : uuid) : bool :=
  existsb (fun a => (Answers.question_id a == qid) && Answers.is_accepted a
                    && negb (Answers.id a == aid))
          (answers d).

(** Number of accepted answers of a question. *)
Definition accepted_count (d : db) (qid : uuid) : nat :=
  length (filter (fun a => (Answers.question_id a == qid) && Answers.is_accepted a)
                 (answers d)).

Definition target_col (t : vote_target) : Votes.row -> option uuid :=
  match t with
  | on_question _ => Votes.question_id
  | on_answer _ => Votes.answer_id
  end.

Definition target_id (t : vote_target) : uuid :=
  match t with on_question i | on_answer i => i end.

Definition target_exists (d : db) (t : vote_target) : bool :=
  match t with
  | on_question qid => question_exists d qid
  | on_answer aid => answer_exists d aid
  end.

(** [upvote_count] / [downvote_count] of the target row, if there is one. *)
Definition counter (d : db) (t : vote_target) (k : vote_type) : option Z :=
  match t with
  | on_question qid => option_map (Questions.count_of k) (select_question d qid)
  | on_answer aid => option_map (Answers.count_of k) (select_answer d aid)
  end.

(** Number of live votes of kind [k] on the target. *)
Definition live (d : db) (t : vote_target) (k : vote_type) : Z :=
  live_votes (target_col t) k (target_id t) (votes d).

(** ** A small forum *)

Import String.StringSyntax.
Local Open Scope string_scope.

Definition alice : uuid := "alice".
Definition bob : uuid := "bob".
Definition q1 : uuid := "q1".
Definition a1 : uuid := "a1".
Definition a2 : uuid := "a2".
Definition a3 : uuid := "a3".
Local Close Scope string_scope.

(** alice asks [q1]; bob answers with [a1], alice with [a2]. *)
Definition setup : list (session * statement) :=
  [ (service_role, SignUp alice);
    (service_role, SignUp bob);
    (authenticated alice, InsertQuestion q1 alice);
    (authenticated bob, InsertAnswer a1 q1 bob);
    (authenticated alice, InsertAnswer a2 q1 alice) ].

Definition forum : db := run setup empty_db.

(** bob has upvoted [q1]. *)
Definition forum_voted : db :=
  step forum (authenticated bob, InsertVote (Votes.mk bob (Some q1) None upvote)).

(** [a1] is the accepted answer of [q1]. *)
Definition forum_accepted : db := step forum (service_role, SetAccepted a1 true).

(** ** The handlers and the error taxonomy *)



(** The target a vote request of the page addresses. *)
Definition requested_target (qid : uuid) (answerId : option uuid) : vote_target :=
  if QuestionDetail.truthy answerId
  then on_answer (QuestionDetail.or_else answerId qid)
  else on_question qid.

(** The vote the page holds for the target of a request: [currentVote] of
    [handleVote]. *)
Definition page_vote (st : QuestionDetail.state) (answerId : option uuid)
    : option vote_type :=
  if QuestionDetail.truthy answerId
  then QuestionDetail.answerVotes st
         (QuestionDetail.or_else answerId String.EmptyString)
  else QuestionDetail.questionVote st.

(** The row a vote request of the page upserts. *)
Definition requested_row (p qid : uuid) (answerId : option uuid)
    (K : vote_type) : Votes.row :=
  Votes.mk p (if QuestionDetail.truthy answerId then None else Some qid)
           (QuestionDetail.or_null answerId) K.

(** The target of a vote request is shown on the page: the question itself or
    one of its answers. *)
Definition on_page (d : db) (qid : uuid) (answerId : option uuid) : bool :=
  if QuestionDetail.truthy answerId
  then existsb (fun i => i == QuestionDetail.or_else answerId qid)
               (QuestionDetail.answerIds d qid)
  else true.



(** ** Vocabulary of the further properties *)

(** The statements that write [answers.is_accepted]. *)
Definition writes_is_accepted (st : statement) : bool :=
  match st with
  | SetAccepted _ _ => true
  | _ => false
  end.

(** The statements on [votes]. *)
Definition writes_votes (st : statement) : bool :=
  match st with
  | InsertVote _ | DeleteVote _ _ | UpdateVote _ _ _ => true
  | _ => false
  end.

(** The votes cast by other users than [uid]. *)
Definition votes_of_others (uid : uuid) (d : db) : list Votes.row :=
  filter (fun v => negb (Votes.user_id v == uid)) (votes d).

(** A vote is on the question [qid] or on one of its answers. *)
Definition under_question (d : db) (qid : uuid) (v : Votes.row) : bool :=
  is_id (Votes.question_id v) qid
  || existsb (fun a => (Answers.question_id a == qid)
                       && is_id (Votes.answer_id v) (Answers.id a))
             (answers d).

(** The database once the question [qid], its answers and the votes on
    either have been removed, every other row being left as it is. *)
Definition without_question (qid : uuid) (d : db) : db :=
  mkdb (profiles d)
       (filter (fun q => negb (Questions.id q == qid)) (questions d))
       (filter (fun a => negb (Answers.question_id a == qid)) (answers d))
       (filter (fun v => negb (under_question d qid v)) (votes d)).

(** The database once the answer [A] and the votes on it have been removed
    by a statement of the session [s]: the question of [A] has lost one
    answer in [answer_count] when [s] may update that question, and every
    other row is left as it is. *)
Definition without_answer (s : session) (A : Answers.row) (d : db) : db :=
  mkdb (profiles d)
       (map (fun q => if (Questions.id q == Answers.question_id A)
                         && policy_update s (Questions.user_id q)
                      then Questions.set_answer_count (fun n => n - 1) q else q)
            (questions d))
       (filter (fun a => negb (Answers.id a == Answers.id A)) (answers d))
       (filter (fun v => negb (is_id (Votes.answer_id v) (Answers.id A))) (votes d)).

(** The characters of a string. *)
Definition chars (s : String.string) : list Ascii.ascii :=
  String.list_ascii_of_string s.

(** A character of the 7-bit range, on which the functions of [JS] are
    those of JavaScript. *)
Definition seven_bit (c : Ascii.ascii) : Prop := (JS.code c < 128)%N.

Definition space : Ascii.ascii := Ascii.ascii_of_N 32.

(** A name of two words and more: [first], a space, then a word that starts
    with [c2]. *)
Definition two_words (first : String.string) (c2 : Ascii.ascii)
    (rest : String.string) : String.string :=
  String.append first (String.String space (String.String c2 rest)).

(** A tag as the editor stores it: not empty, trimmed, in lower case. *)
Definition normalised (t : String.string) : Prop :=
  t <> String.EmptyString /\ JS.trim t = t /\ JS.toLowerCase t = t.

(** The state of the tag editor after a sequence of events on a new form. *)
Definition tag_editor (events : list AskQuestion.event) : AskQuestion.state :=
  fold_left AskQuestion.handle events AskQuestion.initial_state.

(** The tag [addTag] stores for what is typed in the input. *)
Definition typed_tag (st : AskQuestion.state) : String.string :=
  JS.toLowerCase (JS.trim (AskQuestion.currentTag st)).

(** Strictly before, in the order of the code units. *)
Definition before (a b : String.string) : Prop := String.ltb a b = true.

(** ** Texts of the examples *)

Import Ascii.AsciiSyntax.
Local Open Scope string_scope.

Definition blank_text : String.string := "   ".
Definition answer_text : String.string := " use fold_left ".
Definition first_name : String.string := "ada".
Definition tail_of_first_name : String.string := "da".
Definition tail_of_last_name : String.string := "ovelace".
Definition initials_AL : String.string := "AL".
Definition initial_A : String.string := "A".
Definition react : String.string := "react".

(** The tag editor holding [react], with [React] typed in the input, and the
    same on a new form. *)
Definition react_form : AskQuestion.state :=
  AskQuestion.mk String.EmptyString String.EmptyString [react] " React".
Definition new_form : AskQuestion.state :=
  AskQuestion.mk String.EmptyString String.EmptyString [] " React".

Local Close Scope string_scope.
Local Open Scope char_scope.

Definition letter_a : Ascii.ascii := "a".
Definition letter_l : Ascii.ascii := "l".

Local Close Scope char_scope.

(** The two answers of the small forum, as inserted. *)
Definition answer1 : Answers.row := Answers.mk a1 q1 bob 0 0 false.
Definition answer2 : Answers.row := Answers.mk a2 q1 alice 0 0 false.

(** The question of the small forum, as it is in [forum]. *)
Definition question1 : Questions.row := Questions.mk q1 alice 0 0 1 false.

(** bob's vote on [q1] in [forum_voted], and a vote of alice on [q1]. *)
Definition vote_of_bob : Votes.row := Votes.mk bob (Some q1) None upvote.
Definition vote_of_alice : Votes.row := Votes.mk alice (Some q1) None downvote.

(** * Properties *)

(** ** Lists of rows *)

Lemma eqb_true (a b : uuid) : (a == b) = true <-> a = b.
Proof. apply String.eqb_eq. Qed.

Lemma eqb_false (a b : uuid) : (a == b) = false <-> a <> b.
Proof. apply String.eqb_neq. Qed.


Lemma is_id_true (c : option uuid) (x : uuid) : is_id c x = true <-> c = Some x.
Proof.
  destruct c as [y|]; simpl.
  - rewrite eqb_true. split; congruence.
  - split; discriminate.
Qed.

Section Lists.
Context {A B : Type}.

(** An UPDATE that leaves a projection of the written rows alone leaves
    that projection of the table alone. *)
Lemma map_view_update (view : A -> B) (p : A -> bool) (f : A -> A) (l : list A) :
  (forall x, view (f x) = view x) ->
  map view (map (fun x => if p x then f x else x) l) = map view l.
Proof.
  intros Hf. rewrite map_map. apply map_ext.
  intros x. destruct (p x); auto.
Qed.

Lemma update_none (p : A -> bool) (f : A -> A) (l : list A) :
  (forall x, In x l -> p x = false) ->
  map (fun x => if p x then f x else x) l = l.
Proof.
  intros Hp. rewrite <- (map_id l) at 2. apply map_ext_in.
  intros x Hx. now rewrite (Hp x Hx).
Qed.

Lemma filter_none (p : A -> bool) (l : list A) :
  (forall x, In x l -> p x = false) -> filter p l = [].
Proof.
  induction l as [|x l IH]; simpl; intros Hp; auto.
  rewrite (Hp x (or_introl eq_refl)). apply IH. intros y Hy. apply Hp. now right.
Qed.

Lemma filter_all (p : A -> bool) (l : list A) :
  (forall x, In x l -> p x = true) -> filter p l = l.
Proof.
  induction l as [|x l IH]; simpl; intros Hp; auto.
  rewrite (Hp x (or_introl eq_refl)). f_equal. apply IH. intros y Hy. apply Hp. now right.
Qed.

(** Under a key without duplicates, a selection on the key returns at most
    one row. *)
Lemma filter_key (key : A -> uuid) (k : uuid) (g : A -> bool) (l : list A) :
  NoDup (map key l) ->
  filter (fun x => (key x == k) && g x) l = []
  \/ exists x, In x l /\ key x = k /\ g x = true
               /\ filter (fun x => (key x == k) && g x) l = [x].
Proof.
  induction l as [|x l IH]; simpl; intros Hnd; [now left|].
  inversion Hnd as [|? ? Hx Hl]; subst.
  destruct (key x == k) eqn:Hk; simpl.
  - apply eqb_true in Hk.
    assert (Hrest : filter (fun y => (key y == k) && g y) l = []).
    { apply filter_none. intros y Hy.
      destruct (key y == k) eqn:Hyk; auto.
      apply eqb_true in Hyk. exfalso. apply Hx.
      rewrite Hk, <- Hyk. now apply in_map. }
    destruct (g x) eqn:Hg.
    + right. exists x. rewrite Hrest. auto.
    + left. exact Hrest.
  - destruct (IH Hl) as [H|[y [Hy [Hky [Hgy H]]]]]; [now left|].
    right. exists y. auto.
Qed.

Lemma key_inj (key : A -> B) (l : list A) (x y : A) :
  NoDup (map key l) -> In x l -> In y l -> key x = key y -> x = y.
Proof.
  induction l as [|z l IH]; simpl; intros Hnd Hx Hy Hk; [contradiction|].
  inversion Hnd as [|? ? Hz Hl]; subst.
  destruct Hx as [->|Hx], Hy as [->|Hy]; auto.
  - exfalso. apply Hz. rewrite Hk. now apply in_map.
  - exfalso. apply Hz. rewrite <- Hk. now apply in_map.
Qed.
End Lists.

(** ** What the trigger functions leave alone

    Three projections of a database: the keys and references, the
    acceptance flags and the vote counters.  No trigger function writes the
    first, and each writes at most one of the other two. *)

Ltac split_ifs :=
  repeat match goal with
         | |- context [if ?b then _ else _] => destruct b
         end.

Ltac frame :=
  simpl; unfold update_questions, update_answers; simpl;
  repeat (rewrite map_view_update by reflexivity);
  reflexivity.

Lemma vote_counts_keys {s : session} ev d : keys (update_vote_counts s ev d) = keys d.
Proof. unfold keys, update_vote_counts. destruct ev; split_ifs; frame. Qed.

Lemma vote_counts_acceptance {s : session} ev d :
  acceptance (update_vote_counts s ev d) = acceptance d.
Proof. unfold acceptance, update_vote_counts. destruct ev; split_ifs; frame. Qed.

Lemma answer_count_keys {s : session} ev d : keys (update_question_answer_count s ev d) = keys d.
Proof. unfold keys, update_question_answer_count. destruct ev; frame. Qed.

Lemma answer_count_acceptance {s : session} ev d :
  acceptance (update_question_answer_count s ev d) = acceptance d.
Proof. unfold acceptance, update_question_answer_count. destruct ev; frame. Qed.

Lemma answer_count_tallies {s : session} ev d :
  tallies (update_question_answer_count s ev d) = tallies d.
Proof. unfold tallies, update_question_answer_count. destruct ev; frame. Qed.

(** Folding a transformer that preserves a projection preserves it. *)
Lemma fold_left_view {A V : Type} (view : db -> V) (f : db -> A -> db) (l : list A) :
  (forall d x, view (f d x) = view d) ->
  forall d, view (fold_left f l d) = view d.
Proof.
  intros Hf. induction l as [|x l IH]; simpl; intros d; auto.
  now rewrite IH, Hf.
Qed.

Lemma fold_left_inv {A : Type} (P : db -> Prop) (f : db -> A -> db) (l : list A) :
  (forall d x, In x l -> P d -> P (f d x)) ->
  forall d, P d -> P (fold_left f l d).
Proof.
  induction l as [|x l IH]; simpl; intros Hf d Hd; [exact Hd|].
  apply IH.
  - intros d' y Hy. apply Hf. now right.
  - apply Hf; auto.
Qed.

(** The ELSE branch and the nested firings write [has_accepted_answer] only. *)
Lemma recheck_keys {s : session} NEW d : keys (recheck_accepted s NEW d) = keys d.
Proof. unfold keys, recheck_accepted. split_ifs; frame. Qed.

Lemma recheck_tallies {s : session} NEW d : tallies (recheck_accepted s NEW d) = tallies d.
Proof. unfold tallies, recheck_accepted. split_ifs; frame. Qed.

Lemma recheck_answers {s : session} NEW d : answers (recheck_accepted s NEW d) = answers d.
Proof. unfold recheck_accepted. split_ifs; reflexivity. Qed.

Lemma nested_keys {s : session} OLD NEW d : keys (accepted_status_nested s OLD NEW d) = keys d.
Proof. unfold accepted_status_nested. split_ifs; auto using recheck_keys. Qed.

Lemma nested_tallies {s : session} OLD NEW d :
  tallies (accepted_status_nested s OLD NEW d) = tallies d.
Proof. unfold accepted_status_nested. split_ifs; auto using recheck_tallies. Qed.

Lemma nested_answers {s : session} OLD NEW d :
  answers (accepted_status_nested s OLD NEW d) = answers d.
Proof. unfold accepted_status_nested. split_ifs; auto using recheck_answers. Qed.

Lemma clear_keys {s : session} NEW d : keys (clear_other_answers s NEW d) = keys d.
Proof.
  unfold clear_other_answers.
  rewrite (fold_left_view keys) by (intros; apply nested_keys).
  unfold keys. frame.
Qed.

Lemma clear_tallies {s : session} NEW d : tallies (clear_other_answers s NEW d) = tallies d.
Proof.
  unfold clear_other_answers.
  rewrite (fold_left_view tallies) by (intros; apply nested_tallies).
  unfold tallies. frame.
Qed.

Lemma accepted_status_keys {s : session} ev d :
  keys (update_question_accepted_status s ev d) = keys d.
Proof.
  unfold update_question_accepted_status. destruct ev; auto.
  split_ifs; auto using recheck_keys.
  transitivity (keys (clear_other_answers s NEW d)); [|apply clear_keys].
  unfold keys. frame.
Qed.

Lemma accepted_status_tallies {s : session} ev d :
  tallies (update_question_accepted_status s ev d) = tallies d.
Proof.
  unfold update_question_accepted_status. destruct ev; auto.
  split_ifs; auto using recheck_tallies.
  transitivity (tallies (clear_other_answers s NEW d)); [|apply clear_tallies].
  unfold tallies. frame.
Qed.

(** ** Statements on [votes] *)

Lemma delete_votes_keys {s : session} p d :
  keys (delete_votes s p d)
  = (profiles d, map Questions.id (questions d), map AK (answers d),
     filter (fun v => negb (p v)) (votes d)).
Proof.
  unfold delete_votes.
  now rewrite (fold_left_view keys) by (intros; apply vote_counts_keys).
Qed.

Lemma delete_votes_acceptance {s : session} p d : acceptance (delete_votes s p d) = acceptance d.
Proof.
  unfold delete_votes.
  now rewrite (fold_left_view acceptance) by (intros; apply vote_counts_acceptance).
Qed.

Lemma delete_votes_votes {s : session} p d :
  votes (delete_votes s p d) = filter (fun v => negb (p v)) (votes d).
Proof.
  pose proof (delete_votes_keys (s:=s) p d) as H. unfold keys in H. congruence.
Qed.

Lemma update_votes_keys {s : session} p k d :
  keys (update_votes s p k d)
  = (profiles d, map Questions.id (questions d), map AK (answers d),
     map (fun v => if p v then Votes.set_vote_type k v else v) (votes d)).
Proof.
  unfold update_votes.
  now rewrite (fold_left_view keys) by (intros; apply vote_counts_keys).
Qed.

Lemma update_votes_acceptance {s : session} p k d :
  acceptance (update_votes s p k d) = acceptance d.
Proof.
  unfold update_votes.
  now rewrite (fold_left_view acceptance) by (intros; apply vote_counts_acceptance).
Qed.

Lemma update_votes_votes {s : session} p k d :
  votes (update_votes s p k d)
  = map (fun v => if p v then Votes.set_vote_type k v else v) (votes d).
Proof.
  pose proof (update_votes_keys (s:=s) p k d) as H. unfold keys in H. congruence.
Qed.

(** ** The declared constraints *)

Lemma map_fst_AK l : map fst (map AK l) = map Answers.id l.
Proof. rewrite map_map. reflexivity. Qed.

Lemma map_snd_AK l : map snd (map AK l) = map Answers.question_id l.
Proof. rewrite map_map. reflexivity. Qed.

Lemma schema_pk_answers d : schema_ok d -> NoDup (map Answers.id (answers d)).
Proof.
  unfold schema_ok, keys, schema_on. rewrite map_fst_AK. tauto.
Qed.

Lemma schema_pk_questions d : schema_ok d -> NoDup (map Questions.id (questions d)).
Proof. unfold schema_ok, keys, schema_on. tauto. Qed.

Lemma schema_ck_votes d : schema_ok d -> ck_votes (votes d).
Proof. unfold schema_ok, keys, schema_on. tauto. Qed.

Lemma schema_initial d : initial d = true -> schema_ok d.
Proof.
  unfold initial. destruct d as [ps qs ans vs]; simpl.
  destruct qs, ans, vs; try discriminate. intros _.
  unfold schema_ok, keys, schema_on; simpl.
  repeat split; try constructor; try (intros ? []); try (intros ? ? []);
    contradiction.
Qed.

(** ** The accept statement *)

Lemma flag_rows_twice s Q b b' qs :
  flag_rows s Q b (flag_rows s Q b' qs) = flag_rows s Q b qs.
Proof.
  unfold flag_rows. rewrite map_map. apply map_ext. intros q.
  destruct ((Questions.id q == Q) && policy_update s (Questions.user_id q)) eqn:E;
    simpl; now rewrite E.
Qed.

Lemma recheck_questions {s : session} NEW d :
  questions (recheck_accepted s NEW d)
  = if other_accepted_exists NEW d then questions d
    else flag_rows s (Answers.question_id NEW) false (questions d).
Proof. unfold recheck_accepted. destruct (other_accepted_exists NEW d); reflexivity. Qed.

Lemma nested_questions {s : session} OLD NEW d :
  questions (accepted_status_nested s OLD NEW d) = questions d
  \/ questions (accepted_status_nested s OLD NEW d)
     = flag_rows s (Answers.question_id NEW) false (questions d).
Proof.
  unfold accepted_status_nested. split_ifs; auto.
  rewrite recheck_questions. destruct (other_accepted_exists NEW d); auto.
Qed.

Lemma nested_fold_questions {s : session} Q olds :
  (forall o, In o olds -> Answers.question_id o = Q) ->
  forall d,
    let d' := fold_left (fun d' OLD =>
                accepted_status_nested s OLD (Answers.set_is_accepted false OLD) d')
              olds d in
    questions d' = questions d \/ questions d' = flag_rows s Q false (questions d).
Proof.
  induction olds as [|o olds IH]; simpl; intros HQ d; auto.
  assert (Ho : Answers.question_id (Answers.set_is_accepted false o) = Q)
    by (simpl; apply HQ; now left).
  destruct (IH (fun x Hx => HQ x (or_intror Hx))
               (accepted_status_nested s o (Answers.set_is_accepted false o) d))
    as [E|E];
    destruct (nested_questions (s:=s) o (Answers.set_is_accepted false o) d) as [F|F];
    try rewrite Ho in F; rewrite E, F; auto.
  right. apply flag_rows_twice.
Qed.

Lemma clear_answers {s : session} NEW d :
  answers (clear_other_answers s NEW d)
  = map (fun a => if sibling s NEW a then Answers.set_is_accepted false a else a)
        (answers d).
Proof.
  unfold clear_other_answers.
  now rewrite (fold_left_view answers) by (intros; apply nested_answers).
Qed.

Lemma clear_questions {s : session} NEW d :
  questions (clear_other_answers s NEW d) = questions d
  \/ questions (clear_other_answers s NEW d)
     = flag_rows s (Answers.question_id NEW) false (questions d).
Proof.
  unfold clear_other_answers.
  match goal with
  | |- context [fold_left _ ?l ?d0] =>
      assert (HQ : forall o, In o l ->
                     Answers.question_id o = Answers.question_id NEW);
      [|exact (nested_fold_questions (s:=s) _ l HQ d0)]
  end.
  intros o Ho. apply filter_In in Ho. destruct Ho as [_ Ho].
  apply andb_prop in Ho. destruct Ho as [Ho _].
  apply andb_prop in Ho. destruct Ho as [Ho _]. now apply eqb_true in Ho.
Qed.

(** The accept branch, in closed form. *)
Lemma accept_branch {s : session} OLD NEW d :
  Answers.is_accepted OLD = false -> Answers.is_accepted NEW = true ->
  let d' := update_question_accepted_status s (TgUpdate OLD NEW) d in
  answers d' = map (fun a => if sibling s NEW a
                             then Answers.set_is_accepted false a else a) (answers d)
  /\ questions d' = flag_rows s (Answers.question_id NEW) true (questions d).
Proof.
  intros Ho Hn. simpl. rewrite Ho, Hn. simpl. split.
  - apply clear_answers.
  - fold (flag_rows s (Answers.question_id NEW) true
            (questions (clear_other_answers s NEW d))).
    destruct (clear_questions (s:=s) NEW d) as [E|E]; rewrite E; auto.
    apply flag_rows_twice.
Qed.

(** The unaccept branch, in closed form. *)
Lemma unaccept_branch {s : session} OLD NEW d :
  Answers.is_accepted OLD = true -> Answers.is_accepted NEW = false ->
  let d' := update_question_accepted_status s (TgUpdate OLD NEW) d in
  answers d' = answers d
  /\ questions d' = if other_accepted_exists NEW d then questions d
                    else flag_rows s (Answers.question_id NEW) false (questions d).
Proof.
  intros Ho Hn. simpl. rewrite Ho, Hn. simpl. split.
  - apply recheck_answers.
  - apply recheck_questions.
Qed.


Lemma filter_nil_all {A : Type} (p : A -> bool) (l : list A) :
  filter p l = [] -> forall x, In x l -> p x = false.
Proof.
  intros E x Hx. destruct (p x) eqn:Hp; auto.
  assert (H : In x (filter p l)) by (apply filter_In; auto).
  rewrite E in H. contradiction.
Qed.

Lemma with_answers_same d : with_answers (answers d) d = d.
Proof. now destruct d. Qed.

Lemma with_questions_same d : with_questions (questions d) d = d.
Proof. now destruct d. Qed.

Lemma with_votes_same d : with_votes (votes d) d = d.
Proof. now destruct d. Qed.

(** Under the primary key, the statement writes at most one row. *)
Lemma update_is_accepted_cases s id v d :
  NoDup (map Answers.id (answers d)) ->
  (update_answer_is_accepted s id v d = ok d
   /\ forall a, In a (answers d) -> Answers.id a = id ->
                policy_update s (Answers.user_id a) = false)
  \/ exists A,
       In A (answers d) /\ Answers.id A = id
       /\ policy_update s (Answers.user_id A) = true
       /\ update_answer_is_accepted s id v d
          = ok (update_question_accepted_status s
                  (TgUpdate A (Answers.set_is_accepted v A))
                  (with_answers
                     (map (fun a => if Answers.id a == id
                                    then Answers.set_is_accepted v a else a)
                          (answers d)) d)).
Proof.
  intros Hnd. unfold update_answer_is_accepted.
  destruct (filter_key Answers.id id (fun a => policy_update s (Answers.user_id a))
              (answers d) Hnd) as [E|[A [HA [Hid [Hpol E]]]]];
    rewrite E; cbn [fold_left].
  - left. pose proof (filter_nil_all _ _ E) as Hall. split.
    + rewrite update_none by exact Hall. now rewrite with_answers_same.
    + intros a Ha Hi. specialize (Hall a Ha). simpl in Hall.
      apply eqb_true in Hi. now rewrite Hi in Hall.
  - right. exists A. repeat split; auto.
    assert (Hmap :
      map (fun a => if (Answers.id a == id) && policy_update s (Answers.user_id a)
                    then Answers.set_is_accepted v a else a) (answers d)
      = map (fun a => if Answers.id a == id
                      then Answers.set_is_accepted v a else a) (answers d)).
    { apply map_ext_in. intros a Ha.
      destruct (Answers.id a == id) eqn:Ei; simpl; auto.
      apply eqb_true in Ei.
      assert (a = A) by (apply (key_inj Answers.id (answers d)); auto; congruence).
      subst a. now rewrite Hpol. }
    now rewrite Hmap.
Qed.

Lemma ok_inj d d' : ok d = ok d' -> d = d'.
Proof. now intros [= ->]. Qed.

Lemma update_is_accepted_keys s id v d d' :
  update_answer_is_accepted s id v d = ok d' -> keys d' = keys d.
Proof.
  unfold update_answer_is_accepted. intros H. injection H as <-.
  rewrite (fold_left_view keys) by (intros d0 x;
        exact (accepted_status_keys (s:=s) (TgUpdate x (Answers.set_is_accepted v x)) d0)).
  unfold keys. frame.
Qed.

Lemma update_is_accepted_tallies s id v d d' :
  update_answer_is_accepted s id v d = ok d' -> tallies d' = tallies d.
Proof.
  unfold update_answer_is_accepted. intros H. injection H as <-.
  rewrite (fold_left_view tallies) by (intros d0 x;
        exact (accepted_status_tallies (s:=s) (TgUpdate x (Answers.set_is_accepted v x)) d0)).
  unfold tallies. frame.
Qed.

Lemma keys_votes d d' : keys d' = keys d -> votes d' = votes d.
Proof. unfold keys. intros H. now injection H. Qed.

Lemma schema_transfer d d' : keys d' = keys d -> schema_ok d -> schema_ok d'.
Proof. unfold schema_ok. now intros ->. Qed.

(** ** Inserting and deleting rows *)

Lemma key_unique_after_delete {A B : Type} (key : A -> B) (keep : A -> bool)
    (rows : list A) :
  NoDup (map key rows) -> NoDup (map key (filter keep rows)).
Proof.
  induction rows as [|r rows IH]; simpl; intros H; auto.
  inversion H as [|? ? Hr Hrows]; subst.
  destruct (keep r); simpl; auto.
  constructor; auto.
  intros Hin. apply Hr. apply in_map_iff in Hin. destruct Hin as [y [E Hy]].
  apply filter_In in Hy. rewrite <- E. apply in_map. tauto.
Qed.

Lemma filter_filter {A : Type} (f g : A -> bool) (l : list A) :
  filter f (filter g l) = filter (fun x => g x && f x) l.
Proof.
  induction l as [|x l IH]; simpl; auto.
  destruct (g x); simpl; [destruct (f x)|]; now rewrite IH.
Qed.

Lemma in_ids_q qs i :
  In i (map Questions.id qs) <-> exists q, In q qs /\ Questions.id q = i.
Proof.
  rewrite in_map_iff. split; intros [q [H1 H2]]; exists q; auto.
Qed.

Lemma in_ids_a ans i :
  In i (map fst (map AK ans)) <-> exists a, In a ans /\ Answers.id a = i.
Proof.
  rewrite map_fst_AK, in_map_iff. split; intros [a [H1 H2]]; exists a; auto.
Qed.

Lemma exists_question d i :
  question_exists d i = true <-> In i (map Questions.id (questions d)).
Proof.
  unfold question_exists. rewrite existsb_exists, in_ids_q.
  split; intros [q [H1 H2]]; exists q; split; auto; now apply eqb_true.
Qed.

Lemma exists_answer d i :
  answer_exists d i = true <-> In i (map fst (map AK (answers d))).
Proof.
  unfold answer_exists. rewrite existsb_exists, in_ids_a.
  split; intros [a [H1 H2]]; exists a; split; auto; now apply eqb_true.
Qed.

(** Deleting rows keeps the constraints, provided the deletion is closed
    under the foreign keys. *)
Lemma schema_filter fq fa fv qs ans vs :
  schema_rows qs ans vs ->
  (forall a q, In a ans -> In q qs -> fa a = true ->
               Questions.id q = Answers.question_id a -> fq q = true) ->
  (forall v q, In v vs -> In q qs -> fv v = true ->
               Votes.question_id v = Some (Questions.id q) -> fq q = true) ->
  (forall v a, In v vs -> In a ans -> fv v = true ->
               Votes.answer_id v = Some (Answers.id a) -> fa a = true) ->
  schema_rows (filter fq qs) (filter fa ans) (filter fv vs).
Proof.
  unfold schema_rows, schema_on.
  intros [P1 [P2 [P3 [P4 P5]]]] C1 C2 C3.
  refine (conj _ (conj _ (conj _ (conj _ _)))); [| | | |intros v H; split].
  - now apply key_unique_after_delete.
  - rewrite map_fst_AK in *. now apply key_unique_after_delete.
  - intros i Hi. rewrite map_snd_AK in Hi.
    apply in_map_iff in Hi. destruct Hi as [a [<- Ha]].
    apply filter_In in Ha. destruct Ha as [Ha Fa].
    assert (Hq : In (Answers.question_id a) (map Questions.id qs)).
    { apply P3. rewrite map_snd_AK. now apply in_map. }
    apply in_ids_q in Hq. destruct Hq as [q [Hq Eq]].
    apply in_ids_q. exists q. split; auto.
    apply filter_In. split; auto. apply (C1 a q); auto.
  - intros v Hv. apply filter_In in Hv. apply P4, Hv.
  - intros q Eq. apply filter_In in H. destruct H as [Hv Fv].
    destruct (P5 v Hv) as [Q _]. specialize (Q q Eq).
    apply in_ids_q in Q. destruct Q as [x [Hx Ex]].
    apply in_ids_q. exists x. split; auto.
    apply filter_In. split; auto. apply (C2 v x); auto. congruence.
  - intros a Ea. apply filter_In in H. destruct H as [Hv Fv].
    destruct (P5 v Hv) as [_ Q]. specialize (Q a Ea).
    apply in_ids_a in Q. destruct Q as [x [Hx Ex]].
    apply in_ids_a. exists x. split; auto.
    apply filter_In. split; auto. apply (C3 v x); auto. congruence.
Qed.

(** Rewriting the vote kind of some rows keeps the constraints. *)
Lemma schema_update_votes (p : Votes.row -> bool) k qs ans vs :
  schema_rows qs ans vs ->
  schema_rows qs ans (map (fun v => if p v then Votes.set_vote_type k v else v) vs).
Proof.
  unfold schema_rows, schema_on.
  intros [P1 [P2 [P3 [P4 P5]]]].
  refine (conj P1 (conj P2 (conj P3 (conj _ _)))); [|intros v H; split].
  - intros v Hv. apply in_map_iff in Hv. destruct Hv as [w [<- Hw]].
    specialize (P4 w Hw). destruct (p w); auto.
  - intros q Eq. apply in_map_iff in H. destruct H as [w [<- Hw]].
    destruct (P5 w Hw) as [Q _]. apply Q. destruct (p w); auto.
  - intros a Ea. apply in_map_iff in H. destruct H as [w [<- Hw]].
    destruct (P5 w Hw) as [_ Q]. apply Q. destruct (p w); auto.
Qed.

Lemma NoDup_snoc {A : Type} (l : list A) (x : A) :
  NoDup l -> ~ In x l -> NoDup (l ++ [x]).
Proof.
  induction l as [|y l IH]; simpl; intros Hl Hx.
  - constructor; auto.
  - inversion Hl; subst. constructor.
    + rewrite in_app_iff. simpl. intuition congruence.
    + apply IH; auto.
Qed.

(** ** Every statement keeps the declared constraints *)

Arguments update_vote_counts : simpl never.
Arguments update_question_answer_count : simpl never.
Arguments update_question_accepted_status : simpl never.
Arguments delete_votes : simpl never.
Arguments update_votes : simpl never.
Arguments delete_answers : simpl never.

Lemma handle_new_user_schema uid d d' :
  schema_ok d -> handle_new_user uid d = ok d' -> schema_ok d'.
Proof.
  intros S. unfold handle_new_user.
  destruct (profile_exists d uid); [discriminate|].
  intros H. apply ok_inj in H. subst d'. exact S.
Qed.

Lemma not_exists_question d i :
  question_exists d i = false -> ~ In i (map Questions.id (questions d)).
Proof. intros E H. apply exists_question in H. congruence. Qed.

Lemma not_exists_answer d i :
  answer_exists d i = false -> ~ In i (map fst (map AK (answers d))).
Proof. intros E H. apply exists_answer in H. congruence. Qed.

Lemma insert_question_schema s id uid d d' :
  schema_ok d -> insert_question s id uid d = ok d' -> schema_ok d'.
Proof.
  intros S. unfold insert_question.
  destruct (negb (policy_insert s uid)); [discriminate|].
  destruct (question_exists d id) eqn:Ex; [discriminate|].
  destruct (negb (profile_exists d uid)); [discriminate|].
  intros H. apply ok_inj in H. subst d'.
  apply not_exists_question in Ex.
  unfold schema_ok, keys, schema_on in S. destruct S as [P1 [P2 [P3 [P4 P5]]]].
  unfold schema_ok, keys, schema_on. simpl. rewrite map_app. simpl.
  refine (conj _ (conj P2 (conj _ (conj P4 _)))).
  - now apply NoDup_snoc.
  - intros i Hi. apply in_app_iff. left. now apply P3.
  - intros v Hv. destruct (P5 v Hv) as [Q1 Q2]. split; auto.
    intros q Eq. apply in_app_iff. left. now apply Q1.
Qed.

Lemma insert_answer_schema s id qid uid d d' :
  schema_ok d -> insert_answer s id qid uid d = ok d' -> schema_ok d'.
Proof.
  intros S. unfold insert_answer.
  destruct (negb (policy_insert s uid)); [discriminate|].
  destruct (answer_exists d id) eqn:Ex; [discriminate|].
  destruct (question_exists d qid && profile_exists d uid) eqn:Eq; [|discriminate].
  simpl. intros H. apply ok_inj in H. subst d'.
  apply not_exists_answer in Ex.
  apply andb_prop in Eq. destruct Eq as [Eq _]. apply exists_question in Eq.
  set (NEW := Answers.mk id qid uid 0 0 false).
  set (d1 := with_answers (answers d ++ [NEW]) d).
  unfold schema_ok, keys, schema_on in S. destruct S as [P1 [P2 [P3 [P4 P5]]]].
  apply (schema_transfer d1); [apply answer_count_keys|].
  unfold schema_ok, keys, schema_on, d1. simpl. rewrite !map_app. simpl.
  refine (conj P1 (conj _ (conj _ (conj P4 _)))).
  - now apply NoDup_snoc.
  - intros i Hi. apply in_app_iff in Hi. destruct Hi as [Hi|[<-|[]]]; auto.
  - intros v Hv. destruct (P5 v Hv) as [Q1 Q2]. split; auto.
    intros a Ea. apply in_app_iff. left. now apply Q2.
Qed.

Lemma insert_vote_schema s NEW d d' :
  schema_ok d -> insert_vote s NEW d = ok d' -> schema_ok d'.
Proof.
  intros S. unfold insert_vote.
  destruct (negb (policy_insert s (Votes.user_id NEW))); [discriminate|].
  destruct (Votes.vote_target_check NEW) eqn:Ck; [|discriminate]. simpl.
  destruct (existsb (vote_collides NEW) (votes d)); [discriminate|].
  destruct (vote_references_ok d NEW) eqn:Fk; [|discriminate]. simpl.
  intros H. apply ok_inj in H. subst d'.
  set (d1 := with_votes (votes d ++ [NEW]) d).
  apply (schema_transfer d1); [apply vote_counts_keys|].
  unfold schema_ok, keys, schema_on in *. destruct S as [P1 [P2 [P3 [P4 P5]]]].
  unfold d1; simpl.
  refine (conj P1 (conj P2 (conj P3 (conj _ _)))).
  - intros v Hv. apply in_app_iff in Hv. destruct Hv as [Hv|[<-|[]]]; auto.
  - intros v Hv. apply in_app_iff in Hv. destruct Hv as [Hv|[<-|[]]]; auto.
    unfold vote_references_ok in Fk.
    apply andb_prop in Fk. destruct Fk as [Fk Fa].
    apply andb_prop in Fk. destruct Fk as [_ Fq].
    split.
    + intros q Eq. rewrite Eq in Fq. now apply exists_question.
    + intros a Ea. rewrite Ea in Fa. now apply exists_answer.
Qed.

Lemma delete_vote_schema s uid t d d' :
  schema_ok d -> delete_vote s uid t d = ok d' -> schema_ok d'.
Proof.
  intros S. unfold delete_vote.
  intros H. apply ok_inj in H. subst d'.
  unfold schema_ok. rewrite delete_votes_keys.
  pose proof (schema_filter (fun _ => true) (fun _ => true)
                (fun v => negb (vote_matches uid t v
                                && policy_delete_vote s (Votes.user_id v)))
                (questions d) (answers d) (votes d) S) as R.
  rewrite !filter_all in R by auto. apply R; auto.
Qed.

Lemma update_vote_schema s uid t k d d' :
  schema_ok d -> update_vote s uid t k d = ok d' -> schema_ok d'.
Proof.
  intros S. unfold update_vote.
  intros H. apply ok_inj in H. subst d'.
  unfold schema_ok. rewrite update_votes_keys.
  now apply (schema_update_votes _ k (questions d) (answers d) (votes d)).
Qed.

Lemma update_is_accepted_schema s id v d d' :
  schema_ok d -> update_answer_is_accepted s id v d = ok d' -> schema_ok d'.
Proof.
  intros S H.
  apply (schema_transfer d); auto. now apply (update_is_accepted_keys s id v).
Qed.

(** *** Cascading deletes *)

Lemma keys_components d ps qids aks vs :
  keys d = (ps, qids, aks, vs) ->
  profiles d = ps /\ map Questions.id (questions d) = qids
  /\ map AK (answers d) = aks /\ votes d = vs.
Proof. unfold keys. intros H. now inversion H. Qed.

Lemma delete_answers_unfold {s : session} p d :
  delete_answers s p d
  = fold_left (delete_answers_step s) (filter p (answers d))
      (with_answers (filter (fun a => negb (p a)) (answers d)) d).
Proof. reflexivity. Qed.

Lemma delete_answers_step_keys {s : session} d o :
  keys (delete_answers_step s d o)
  = (profiles d, map Questions.id (questions d), map AK (answers d),
     filter (fun v => negb (is_id (Votes.answer_id v) (Answers.id o))) (votes d)).
Proof.
  unfold delete_answers_step. now rewrite answer_count_keys, delete_votes_keys.
Qed.

Lemma delete_answers_fold_keys {s : session} olds : forall d,
  keys (fold_left (delete_answers_step s) olds d)
  = (profiles d, map Questions.id (questions d), map AK (answers d),
     filter (fun v => negb (cascaded olds v)) (votes d)).
Proof.
  induction olds as [|o olds IH]; intros d; cbn [fold_left].
  - unfold cascaded. simpl. now rewrite filter_all by auto.
  - rewrite IH.
    destruct (keys_components _ _ _ _ _ (delete_answers_step_keys (s:=s) d o))
      as [-> [-> [-> ->]]].
    rewrite filter_filter. f_equal. apply filter_ext.
    intros v. unfold cascaded. simpl. now rewrite negb_orb.
Qed.

Lemma delete_answers_keys {s : session} p d :
  keys (delete_answers s p d)
  = (profiles d, map Questions.id (questions d),
     map AK (filter (fun a => negb (p a)) (answers d)),
     filter (fun v => negb (cascaded (filter p (answers d)) v)) (votes d)).
Proof. rewrite delete_answers_unfold. now rewrite delete_answers_fold_keys. Qed.

Lemma delete_answers_acceptance {s : session} p d :
  acceptance (delete_answers s p d)
  = (map QF (questions d), map AA (filter (fun a => negb (p a)) (answers d))).
Proof.
  rewrite delete_answers_unfold.
  rewrite (fold_left_view acceptance); [reflexivity|].
  intros d0 o. unfold delete_answers_step.
  now rewrite answer_count_acceptance, delete_votes_acceptance.
Qed.

Lemma delete_answers_schema {s : session} p d :
  schema_ok d -> schema_ok (delete_answers s p d).
Proof.
  intros S. unfold schema_ok. rewrite delete_answers_keys.
  pose proof (schema_filter (fun _ => true) (fun a => negb (p a))
                (fun v => negb (cascaded (filter p (answers d)) v))
                (questions d) (answers d) (votes d) S) as R.
  rewrite (filter_all (fun _ => true)) in R by auto. apply R; auto.
  intros v a Hv Ha Fv Ev.
  destruct (p a) eqn:Pa; auto. exfalso.
  apply negb_true_iff in Fv.
  assert (cascaded (filter p (answers d)) v = true); [|congruence].
  unfold cascaded. apply existsb_exists. exists a. split.
  - apply filter_In. auto.
  - now apply is_id_true.
Qed.

Lemma delete_answer_schema s id d d' :
  schema_ok d -> delete_answer s id d = ok d' -> schema_ok d'.
Proof.
  intros S. unfold delete_answer.
  intros H. apply ok_inj in H. subst d'.
  now apply delete_answers_schema.
Qed.

Lemma delete_question_cases s id d :
  NoDup (map Questions.id (questions d)) ->
  delete_question s id d = ok d
  \/ exists Q,
       In Q (questions d) /\ Questions.id Q = id
       /\ policy_delete s d (Questions.user_id Q) = true
       /\ delete_question s id d
          = ok (delete_votes s (fun v => is_id (Votes.question_id v) id)
                  (delete_answers s (fun a => Answers.question_id a == id)
                     (with_questions
                        (filter (fun q => negb (Questions.id q == id)) (questions d))
                        d))).
Proof.
  intros Hnd. unfold delete_question.
  destruct (filter_key Questions.id id
              (fun q => policy_delete s d (Questions.user_id q))
              (questions d) Hnd) as [E|[Q [HQ [Hid [Hpol E]]]]];
    rewrite E; cbn [fold_left].
  - left. pose proof (filter_nil_all _ _ E) as Hall.
    rewrite filter_all.
    + now rewrite with_questions_same.
    + intros q Hq. now rewrite (Hall q Hq).
  - right. exists Q. repeat split; auto.
    assert (Hf :
      filter (fun q => negb ((Questions.id q == id)
                             && policy_delete s d (Questions.user_id q)))
             (questions d)
      = filter (fun q => negb (Questions.id q == id)) (questions d)).
    { apply filter_ext_in. intros q Hq.
      destruct (Questions.id q == id) eqn:Ei; simpl; auto.
      apply eqb_true in Ei.
      assert (q = Q) by (apply (key_inj Questions.id (questions d)); auto; congruence).
      subst q. now rewrite Hpol. }
    rewrite Hf, Hid. reflexivity.
Qed.

Lemma delete_question_schema s id d d' :
  schema_ok d -> delete_question s id d = ok d' -> schema_ok d'.
Proof.
  intros S H.
  destruct (delete_question_cases s id d (schema_pk_questions d S))
    as [E|[Q [HQ [Hid [_ E]]]]];
    rewrite E in H; apply ok_inj in H; subst d'; [exact S|].
  set (d1 := with_questions
               (filter (fun q => negb (Questions.id q == id)) (questions d)) d).
  set (under := fun a => Answers.question_id a == id).
  set (hit := fun v => is_id (Votes.question_id v) id).
  unfold schema_ok. rewrite delete_votes_keys.
  destruct (keys_components _ _ _ _ _ (delete_answers_keys (s:=s) under d1))
    as [-> [-> [-> ->]]].
  unfold d1. simpl. rewrite filter_filter.
  apply (schema_filter _ _ _ (questions d) (answers d) (votes d) S).
  - intros a q Ha Hq Fa Eq. unfold under in Fa. now rewrite Eq.
  - intros v q Hv Hq Fv Ev.
    apply andb_prop in Fv. destruct Fv as [_ Fv]. unfold hit in Fv.
    rewrite Ev in Fv. simpl in Fv. exact Fv.
  - intros v a Hv Ha Fv Ev.
    apply andb_prop in Fv. destruct Fv as [Fv _].
    destruct (under a) eqn:Ua; auto. exfalso.
    apply negb_true_iff in Fv.
    assert (cascaded (filter under (answers d)) v = true); [|congruence].
    unfold cascaded. apply existsb_exists. exists a. split.
    + apply filter_In. auto.
    + now apply is_id_true.
Qed.

(** Every statement keeps the declared constraints. *)
Lemma exec_schema s st d d' :
  schema_ok d -> exec s st d = ok d' -> schema_ok d'.
Proof.
  destruct st; simpl; intros Hc H.
  - eapply handle_new_user_schema; eauto.
  - eapply insert_question_schema; eauto.
  - eapply delete_question_schema; eauto.
  - eapply insert_answer_schema; eauto.
  - eapply delete_answer_schema; eauto.
  - eapply update_is_accepted_schema; eauto.
  - eapply insert_vote_schema; eauto.
  - eapply delete_vote_schema; eauto.
  - eapply update_vote_schema; eauto.
Qed.

Lemma step_schema d req : schema_ok d -> schema_ok (step d req).
Proof.
  intros Hc. unfold step, commit.
  destruct (exec (fst req) (snd req) d) eqn:E; auto.
  eapply exec_schema; eauto.
Qed.

(** ** Reading single rows *)

Section Lookup.
Context {A : Type} (key : A -> uuid).

Lemma find_map_key (h : A -> A) (x : uuid) (l : list A) :
  (forall a, key (h a) = key a) ->
  find (fun a => key a == x) (map h l)
  = option_map h (find (fun a => key a == x) l).
Proof.
  intros Hk. induction l as [|a l IH]; simpl; auto.
  rewrite Hk. destruct (key a == x); auto.
Qed.

Lemma find_key_in (x : uuid) (l : list A) (a : A) :
  find (fun a => key a == x) l = Some a -> In a l /\ key a = x.
Proof.
  intros H. apply find_some in H. destruct H as [H1 H2].
  split; auto. now apply eqb_true.
Qed.

Lemma find_key_some (x : uuid) (l : list A) :
  In x (map key l) -> exists a, find (fun a => key a == x) l = Some a.
Proof.
  intros H. destruct (find (fun a => key a == x) l) eqn:E; eauto.
  exfalso. apply in_map_iff in H. destruct H as [a [Ha Hl]].
  pose proof (find_none _ _ E a Hl) as N. simpl in N.
  apply eqb_false in N. contradiction.
Qed.

Lemma update_same (c : A -> bool) (f : A -> A) (l : list A) :
  (forall a, In a l -> c a = true -> f a = a) ->
  map (fun a => if c a then f a else a) l = l.
Proof.
  intros H. rewrite <- (map_id l) at 2. apply map_ext_in.
  intros a Ha. destruct (c a) eqn:E; auto.
Qed.
End Lookup.


Lemma existsb_pointwise {A : Type} (f g : A -> bool) (l : list A) :
  (forall x, f x = g x) -> existsb f l = existsb g l.
Proof. intros H. induction l as [|x l IH]; simpl; auto. now rewrite H, IH. Qed.

Lemma existsb_map {A B : Type} (h : A -> B) (f : B -> bool) (l : list A) :
  existsb f (map h l) = existsb (fun x => f (h x)) l.
Proof. induction l as [|x l IH]; simpl; auto. now rewrite IH. Qed.

(** ** The accept and unaccept transitions, in closed form *)

Lemma accept_effect s aid A d :
  schema_ok d ->
  select_answer d aid = Some A ->
  Answers.is_accepted A = false ->
  policy_update s (Answers.user_id A) = true ->
  exists d',
    update_answer_is_accepted s aid true d = ok d'
    /\ answers d'
       = map (fun a => if Answers.id a == aid then Answers.set_is_accepted true a
                       else if sibling s A a
                            then Answers.set_is_accepted false a else a)
             (answers d)
    /\ questions d' = flag_rows s (Answers.question_id A) true (questions d).
Proof.
  intros S Hsel Ea Hpol.
  apply find_key_in in Hsel. destruct Hsel as [HA Hid].
  pose proof (schema_pk_answers d S) as Hnd.
  destruct (update_is_accepted_cases s aid true d Hnd)
    as [[_ N]|[A' [HA' [Hid' [_ E]]]]].
  { rewrite (N A HA Hid) in Hpol. discriminate. }
  assert (A' = A) by (apply (key_inj Answers.id (answers d)); auto; congruence).
  subst A'. rewrite E. eexists. split; [reflexivity|].
  destruct (accept_branch (s:=s) A (Answers.set_is_accepted true A)
              (with_answers
                 (map (fun a => if Answers.id a == aid
                                then Answers.set_is_accepted true a else a)
                      (answers d)) d) Ea eq_refl) as [Ans Qs].
  rewrite Ans, Qs. cbn [answers questions with_answers]. split; auto.
  rewrite map_map. apply map_ext. intros a.
  unfold sibling. simpl. rewrite Hid.
  destruct (Answers.id a == aid) eqn:Ei; simpl.
  - rewrite Ei. now rewrite andb_false_r.
  - now rewrite Ei.
Qed.

Lemma unaccept_effect s aid A d :
  schema_ok d ->
  select_answer d aid = Some A ->
  Answers.is_accepted A = true ->
  policy_update s (Answers.user_id A) = true ->
  exists d',
    update_answer_is_accepted s aid false d = ok d'
    /\ answers d'
       = map (fun a => if Answers.id a == aid
                       then Answers.set_is_accepted false a else a) (answers d)
    /\ questions d'
       = if other_accepted d (Answers.question_id A) aid then questions d
         else flag_rows s (Answers.question_id A) false (questions d).
Proof.
  intros S Hsel Ea Hpol.
  apply find_key_in in Hsel. destruct Hsel as [HA Hid].
  pose proof (schema_pk_answers d S) as Hnd.
  destruct (update_is_accepted_cases s aid false d Hnd)
    as [[_ N]|[A' [HA' [Hid' [_ E]]]]].
  { rewrite (N A HA Hid) in Hpol. discriminate. }
  assert (A' = A) by (apply (key_inj Answers.id (answers d)); auto; congruence).
  subst A'. rewrite E. eexists. split; [reflexivity|].
  set (g := fun a => if Answers.id a == aid
                     then Answers.set_is_accepted false a else a).
  destruct (unaccept_branch (s:=s) A (Answers.set_is_accepted false A)
              (with_answers (map g (answers d)) d) Ea eq_refl) as [Ans Qs].
  rewrite Ans, Qs. cbn [answers questions with_answers]. split; auto.
  assert (Hex : other_accepted_exists (Answers.set_is_accepted false A)
                  (with_answers (map g (answers d)) d)
                = other_accepted d (Answers.question_id A) aid).
  { unfold other_accepted_exists, other_accepted. cbn [answers with_answers].
    rewrite existsb_map. apply existsb_pointwise. intros a.
    unfold g. simpl. rewrite Hid.
    destruct (Answers.id a == aid) eqn:Ei; simpl.
    - now rewrite Ei, !andb_false_r.
    - now rewrite Ei. }
  now rewrite Hex.
Qed.


Lemma flag_rows_lookup s Q b d qs x :
  questions d = flag_rows s Q b qs ->
  select_question d x
  = option_map (fun q => if (Questions.id q == Q)
                            && policy_update s (Questions.user_id q)
                         then Questions.set_has_accepted_answer b q else q)
               (find (fun q => Questions.id q == x) qs).
Proof.
  intros E. unfold select_question. rewrite E. unfold flag_rows.
  apply find_map_key. intros q.
  now destruct ((Questions.id q == Q) && policy_update s (Questions.user_id q)).
Qed.

(** ** Votes are unique per voter and target, and their voters exist *)

Lemma delete_votes_profiles {s : session} p d : profiles (delete_votes s p d) = profiles d.
Proof. apply (keys_components _ _ _ _ _ (delete_votes_keys (s:=s) p d)). Qed.

Lemma update_votes_profiles {s : session} p k d : profiles (update_votes s p k d) = profiles d.
Proof. apply (keys_components _ _ _ _ _ (update_votes_keys (s:=s) p k d)). Qed.

Lemma delete_answers_profiles {s : session} p d : profiles (delete_answers s p d) = profiles d.
Proof. apply (keys_components _ _ _ _ _ (delete_answers_keys (s:=s) p d)). Qed.

Lemma delete_answers_votes {s : session} p d :
  votes (delete_answers s p d)
  = filter (fun v => negb (cascaded (filter p (answers d)) v)) (votes d).
Proof. apply (keys_components _ _ _ _ _ (delete_answers_keys (s:=s) p d)). Qed.

Lemma votes_wf_keys d d' : keys d' = keys d -> votes_wf d -> votes_wf d'.
Proof.
  intros K. unfold votes_wf.
  destruct (keys_components _ _ _ _ _ K) as [-> [_ [_ ->]]]. auto.
Qed.

Lemma votes_wf_filter p ps vs :
  votes_wf_on ps vs -> votes_wf_on ps (filter p vs).
Proof.
  intros [H1 H2]. split.
  - now apply key_unique_after_delete.
  - intros v Hv. apply filter_In in Hv. apply H2, Hv.
Qed.

Lemma votes_wf_update (p : Votes.row -> bool) k ps vs :
  votes_wf_on ps vs ->
  votes_wf_on ps (map (fun v => if p v then Votes.set_vote_type k v else v) vs).
Proof.
  intros [H1 H2]. split.
  - now rewrite map_view_update by reflexivity.
  - intros v Hv. apply in_map_iff in Hv. destruct Hv as [w [<- Hw]].
    rewrite <- (H2 w Hw). now destruct (p w).
Qed.

Lemma collides_same_key NEW v :
  Votes.vote_target_check NEW = true -> VK v = VK NEW ->
  vote_collides NEW v = true.
Proof.
  unfold VK, vote_collides, Votes.vote_target_check.
  intros Ck E. injection E as -> -> ->. rewrite String.eqb_refl. simpl.
  destruct (Votes.question_id NEW) as [q|], (Votes.answer_id NEW) as [a|];
    simpl in *; rewrite ?String.eqb_refl; auto using orb_true_r.
Qed.

Lemma exec_votes_wf s st d d' :
  schema_ok d -> votes_wf d -> exec s st d = ok d' -> votes_wf d'.
Proof.
  intros Hc W. destruct st; simpl.
  - unfold handle_new_user. destruct (profile_exists d uid); [discriminate|].
    intros H. apply ok_inj in H. subst d'.
    destruct W as [W1 W2]. split; auto.
    intros v Hv. cbn [profiles]. rewrite existsb_app, (W2 v Hv). reflexivity.
  - unfold insert_question.
    destruct (negb _); [discriminate|]. destruct (question_exists d id); [discriminate|].
    destruct (negb _); [discriminate|].
    intros H. apply ok_inj in H. now subst d'.
  - intros H.
    destruct (delete_question_cases s id d (schema_pk_questions d Hc))
      as [E|[Q [_ [_ [_ E]]]]]; rewrite E in H; apply ok_inj in H; subst d'; auto.
    unfold votes_wf.
    rewrite delete_votes_profiles, delete_votes_votes,
      delete_answers_profiles, delete_answers_votes.
    cbn [profiles votes with_questions].
    now apply votes_wf_filter, votes_wf_filter.
  - unfold insert_answer.
    destruct (negb _); [discriminate|]. destruct (answer_exists d id); [discriminate|].
    destruct (negb _); [discriminate|].
    intros H. apply ok_inj in H. subst d'.
    apply (votes_wf_keys (with_answers
             (answers d ++ [Answers.mk id question_id user_id 0 0 false]) d));
      auto using answer_count_keys.
  - unfold delete_answer. intros H. apply ok_inj in H. subst d'.
    unfold votes_wf. rewrite delete_answers_profiles, delete_answers_votes.
    now apply votes_wf_filter.
  - intros H. apply (votes_wf_keys d); auto.
    now apply (update_is_accepted_keys s id v).
  - unfold insert_vote.
    destruct (negb _); [discriminate|].
    destruct (Votes.vote_target_check NEW) eqn:Ck; [|discriminate]. simpl.
    destruct (existsb (vote_collides NEW) (votes d)) eqn:Ex; [discriminate|].
    destruct (vote_references_ok d NEW) eqn:Fk; [|discriminate]. simpl.
    intros H. apply ok_inj in H. subst d'.
    apply (votes_wf_keys (with_votes (votes d ++ [NEW]) d));
      auto using vote_counts_keys.
    destruct W as [W1 W2]. split; cbn [profiles votes with_votes].
    + rewrite map_app. simpl. apply NoDup_snoc; auto.
      intros Hin. apply in_map_iff in Hin. destruct Hin as [v [Ev Hv]].
      assert (existsb (vote_collides NEW) (votes d) = true); [|congruence].
      apply existsb_exists. exists v. split; auto.
      now apply collides_same_key.
    + intros v Hv. apply in_app_iff in Hv. destruct Hv as [Hv|[<-|[]]]; auto.
      unfold vote_references_ok in Fk.
      apply andb_prop in Fk. destruct Fk as [Fk _].
      apply andb_prop in Fk. destruct Fk as [Fk _]. exact Fk.
  - unfold delete_vote. intros H. apply ok_inj in H. subst d'.
    unfold votes_wf. rewrite delete_votes_profiles, delete_votes_votes.
    now apply votes_wf_filter.
  - unfold update_vote. intros H. apply ok_inj in H. subst d'.
    unfold votes_wf. rewrite update_votes_profiles, update_votes_votes.
    now apply votes_wf_update.
Qed.

Lemma votes_wf_initial d : initial d = true -> votes_wf d.
Proof.
  unfold initial, votes_wf. destruct d as [ps qs ans vs]; simpl.
  destruct qs, ans, vs; try discriminate. intros _.
  split; [constructor|intros ? []].
Qed.

Lemma run_invariants reqs : forall d,
  schema_ok d -> votes_wf d -> schema_ok (run reqs d) /\ votes_wf (run reqs d).
Proof.
  unfold run. induction reqs as [|r reqs IH]; simpl; intros d Hc W; auto.
  apply IH.
  - now apply step_schema.
  - unfold step, commit. destruct (exec (fst r) (snd r) d) eqn:E; auto.
    eapply exec_votes_wf; eauto.
Qed.

Lemma reachable_invariants reqs d0 :
  initial d0 = true -> schema_ok (run reqs d0) /\ votes_wf (run reqs d0).
Proof.
  intros Hi. apply run_invariants.
  - now apply schema_initial.
  - now apply votes_wf_initial.
Qed.

(** ** Counters of a vote target *)

Lemma find_key_none {A : Type} (key : A -> uuid) (x : uuid) (l : list A) :
  existsb (fun a => key a == x) l = false ->
  find (fun a => key a == x) l = None.
Proof.
  intros E. destruct (find _ l) eqn:F; auto.
  apply find_some in F.
  assert (existsb (fun a => key a == x) l = true); [|congruence].
  apply existsb_exists. eauto.
Qed.

Lemma existsb_map_key {A : Type} (key : A -> uuid) (x : uuid) (l : list A) :
  existsb (fun a => key a == x) l = existsb (fun i => i == x) (map key l).
Proof. induction l as [|a l IH]; simpl; auto. now rewrite IH. Qed.

Lemma target_exists_keys d d' t :
  map Questions.id (questions d') = map Questions.id (questions d) ->
  map AK (answers d') = map AK (answers d) ->
  target_exists d' t = target_exists d t.
Proof.
  intros Hq Ha. destruct t as [qid|aid]; simpl.
  - unfold question_exists.
    rewrite (existsb_map_key Questions.id qid (questions d')).
    rewrite (existsb_map_key Questions.id qid (questions d)).
    now rewrite Hq.
  - unfold answer_exists.
    rewrite (existsb_map_key Answers.id aid (answers d')).
    rewrite (existsb_map_key Answers.id aid (answers d)).
    now rewrite <- !map_fst_AK, Ha.
Qed.

Lemma matches_target u t v :
  vote_matches u t v = true ->
  Votes.user_id v = u /\ target_col t v = Some (target_id t).
Proof.
  unfold vote_matches. intros H. apply andb_prop in H. destruct H as [H1 H2].
  apply eqb_true in H1. split; auto.
  destruct t; simpl; now apply is_id_true.
Qed.

Lemma check_on_question v q :
  Votes.vote_target_check v = true -> Votes.question_id v = Some q ->
  Votes.answer_id v = None.
Proof.
  unfold Votes.vote_target_check. intros H E. rewrite E in H. simpl in H.
  destruct (Votes.answer_id v); [discriminate|reflexivity].
Qed.

Lemma check_on_answer v a :
  Votes.vote_target_check v = true -> Votes.answer_id v = Some a ->
  Votes.question_id v = None.
Proof.
  unfold Votes.vote_target_check. intros H E. rewrite E in H. simpl in H.
  destruct (Votes.question_id v); [|reflexivity].
  simpl in H. discriminate.
Qed.

Lemma matches_unique d u t v v' :
  schema_ok d -> votes_wf d ->
  In v (votes d) -> In v' (votes d) ->
  vote_matches u t v = true -> vote_matches u t v' = true -> v' = v.
Proof.
  intros Hc [W _] Hv Hv' M M'.
  apply (key_inj VK (votes d)); auto.
  pose proof (schema_ck_votes d Hc) as Ck.
  pose proof (Ck v Hv) as Cv. pose proof (Ck v' Hv') as Cv'.
  apply matches_target in M. apply matches_target in M'.
  destruct M as [U T], M' as [U' T'].
  unfold VK. rewrite U, U'.
  destruct t as [qid|aid]; simpl in T, T'.
  - rewrite T, T'.
    now rewrite (check_on_question v qid Cv T), (check_on_question v' qid Cv' T').
  - rewrite T, T'.
    now rewrite (check_on_answer v aid Cv T), (check_on_answer v' aid Cv' T').
Qed.

Lemma insert_vote_ok s NEW d :
  policy_insert s (Votes.user_id NEW) = true ->
  Votes.vote_target_check NEW = true ->
  existsb (vote_collides NEW) (votes d) = false ->
  vote_references_ok d NEW = true ->
  insert_vote s NEW d
  = ok (update_vote_counts s (TgInsert NEW) (with_votes (votes d ++ [NEW]) d)).
Proof.
  intros H1 H2 H3 H4. unfold insert_vote. now rewrite H1, H2, H3, H4.
Qed.

(** ** A vote update that keeps the kind *)

Lemma update_questions_cancel {s : session} p f g d :
  (forall q, f (g q) = q) -> (forall q, p (g q) = p q) ->
  (forall q, Questions.user_id (g q) = Questions.user_id q) ->
  update_questions s p f (update_questions s p g d) = d.
Proof.
  intros Hfg Hp Hu. unfold update_questions. cbn [questions with_questions].
  rewrite map_map.
  rewrite (map_ext _ (fun q => q)).
  - rewrite map_id. unfold with_questions. cbn [profiles answers votes].
    now destruct d.
  - intros q.
    destruct (p q && policy_update s (Questions.user_id q)) eqn:E; [|now rewrite E].
    now rewrite Hp, Hu, E.
Qed.

Lemma update_answers_cancel {s : session} p f g d :
  (forall a, f (g a) = a) -> (forall a, p (g a) = p a) ->
  (forall a, Answers.user_id (g a) = Answers.user_id a) ->
  update_answers s p f (update_answers s p g d) = d.
Proof.
  intros Hfg Hp Hu. unfold update_answers. cbn [answers with_answers].
  rewrite map_map.
  rewrite (map_ext _ (fun a => a)).
  - rewrite map_id. unfold with_answers. cbn [profiles questions votes].
    now destruct d.
  - intros a.
    destruct (p a && policy_update s (Answers.user_id a)) eqn:E; [|now rewrite E].
    now rewrite Hp, Hu, E.
Qed.

Lemma update_same_kind {s : session} OLD NEW d :
  Votes.vote_type NEW = Votes.vote_type OLD ->
  Votes.question_id NEW = Votes.question_id OLD ->
  Votes.answer_id NEW = Votes.answer_id OLD ->
  update_vote_counts s (TgUpdate OLD NEW) d = d.
Proof.
  intros H1 H2 H3. unfold update_vote_counts. rewrite H1, ?H2, ?H3.
  destruct (not_null (Votes.question_id OLD));
    [|destruct (not_null (Votes.answer_id OLD)); [|reflexivity]];
    destruct (vote_type_eqb (Votes.vote_type OLD) upvote);
    (apply update_questions_cancel || apply update_answers_cancel);
    intros [? ? ? ? ? ?]; try reflexivity;
    unfold Questions.set_upvote_count, Questions.set_downvote_count,
      Answers.set_upvote_count, Answers.set_downvote_count;
    simpl; f_equal; lia.
Qed.

(** ** The answer counter *)

Lemma insert_answer_effect s id qid uid d :
  policy_insert s uid = true ->
  answer_exists d id = false ->
  question_exists d qid = true ->
  profile_exists d uid = true ->
  let NEW := Answers.mk id qid uid 0 0 false in
  exists d',
    insert_answer s id qid uid d = ok d'
    /\ answers d' = answers d ++ [NEW]
    /\ profiles d' = profiles d
    /\ votes d' = votes d
    /\ questions d'
       = map (fun q => if (Questions.id q == qid)
                          && policy_update s (Questions.user_id q)
                       then Questions.set_answer_count (fun n => n + 1) q else q)
             (questions d).
Proof.
  intros H1 H2 H3 H4 NEW. unfold insert_answer. rewrite H1, H2, H3, H4.
  cbn [negb andb]. eexists. split; [reflexivity|]. fold NEW.
  repeat split.
Qed.

Lemma find_app {A : Type} (p : A -> bool) (l l' : list A) :
  find p (l ++ l') = match find p l with Some x => Some x | None => find p l' end.
Proof. induction l as [|x l IH]; simpl; auto. now destruct (p x). Qed.

Lemma find_filter_key {A : Type} (key : A -> uuid) (q i : uuid) (l : list A) :
  find (fun x => key x == q) (filter (fun x => negb (key x == i)) l)
  = if q == i then None else find (fun x => key x == q) l.
Proof.
  induction l as [|x l IH]; simpl.
  - now destruct (q == i).
  - destruct (String.eqb_spec (key x) i) as [Ei|Ei]; simpl.
    + rewrite IH. destruct (String.eqb_spec q i) as [Eq|Eq]; auto.
      destruct (String.eqb_spec (key x) q); auto. congruence.
    + rewrite IH. destruct (String.eqb_spec (key x) q) as [Eq|Eq]; auto.
      destruct (String.eqb_spec q i); auto. congruence.
Qed.

(** ** Deleting an answer *)

Lemma has_accepted_answer_of_view d q :
  has_accepted_answer_of d q
  = option_map snd (find (fun t => fst t == q) (map QF (questions d))).
Proof.
  unfold has_accepted_answer_of, select_question.
  induction (questions d) as [|x l IH]; simpl; auto.
  destruct (Questions.id x == q); auto.
Qed.

(** ** The two handlers *)

Lemma find_filter_none {A : Type} (f g : A -> bool) (l : list A) :
  (forall x, f x = true -> g x = false) -> find f (filter g l) = None.
Proof.
  intros H. induction l as [|x l IH]; simpl; auto.
  destruct (g x) eqn:G; auto. simpl.
  destruct (f x) eqn:F; auto. rewrite (H x F) in G. discriminate.
Qed.

Lemma find_none_existsb {A : Type} (f : A -> bool) (l : list A) :
  find f l = None -> existsb f l = false.
Proof.
  intros H. destruct (existsb f l) eqn:E; auto.
  apply existsb_exists in E. destruct E as [x [Hx Fx]].
  now rewrite (find_none _ _ H x Hx) in Fx.
Qed.

Lemma fetch_eq d p qid :
  QuestionDetail.fetch d p qid
  = QuestionDetail.mk qid (Some p) (select_question d qid)
      (QuestionDetail.select_answers d qid)
      (QuestionDetail.vote_of d p (on_question qid)) (fun _ => None).
Proof.
  unfold QuestionDetail.fetch, QuestionDetail.useEffect, QuestionDetail.fetchVotes,
    QuestionDetail.fetchAnswers, QuestionDetail.fetchQuestion,
    QuestionDetail.useState.
  cbn [QuestionDetail.id QuestionDetail.user QuestionDetail.question
       QuestionDetail.answers QuestionDetail.questionVote
       QuestionDetail.answerVotes].
  destruct (select_question d qid);
    cbn [QuestionDetail.id QuestionDetail.user QuestionDetail.question
         QuestionDetail.answers QuestionDetail.questionVote
         QuestionDetail.answerVotes map length Nat.ltb Nat.leb];
    destruct (QuestionDetail.vote_of d p (on_question qid)); reflexivity.
Qed.

(** A freshly loaded page holds the user's vote on its question and none on
    an answer. *)
Lemma current_vote d p qid answerId :
  page_vote (QuestionDetail.fetch d p qid) answerId
  = if QuestionDetail.truthy answerId then None
    else QuestionDetail.vote_of d p (on_question qid).
Proof. rewrite fetch_eq. unfold page_vote. now destruct (QuestionDetail.truthy _). Qed.

Lemma removal_target qid answerId :
  (if QuestionDetail.truthy answerId
   then on_answer (QuestionDetail.or_else answerId qid)
   else on_question (QuestionDetail.or_else answerId qid))
  = requested_target qid answerId.
Proof.
  unfold requested_target. destruct answerId as [x|]; simpl; auto.
  destruct (x == String.EmptyString); reflexivity.
Qed.

(** The two branches of [handleVote]. *)
Lemma handle_vote_cases st p K answerId d :
  QuestionDetail.user st = Some p ->
  QuestionDetail.handleVote st K answerId d
  = if match page_vote st answerId with
       | Some k => vote_type_eqb k K
       | None => false
       end
    then QuestionDetail.settle
           (delete_vote (authenticated p) p
              (requested_target (QuestionDetail.id st) answerId) d) d
    else QuestionDetail.settle
           (insert_vote (authenticated p)
              (requested_row p (QuestionDetail.id st) answerId K) d) d.
Proof.
  intros Hu. unfold QuestionDetail.handleVote. rewrite Hu.
  fold (page_vote st answerId). rewrite removal_target. reflexivity.
Qed.

Lemma requested_row_matches p qid answerId K w :
  vote_collides (requested_row p qid answerId K) w
  = vote_matches p (requested_target qid answerId) w.
Proof.
  unfold requested_row.
  unfold vote_collides, vote_matches, requested_target, QuestionDetail.or_null.
  simpl. f_equal.
  destruct answerId as [x|]; simpl;
    [destruct (x == String.EmptyString); simpl|];
    rewrite ?orb_false_r; reflexivity.
Qed.

(** A DELETE of the votes of [p] on [t], issued by [p], leaves none. *)
Lemma delete_vote_effect p t d :
  exists d',
    delete_vote (authenticated p) p t d = ok d'
    /\ QuestionDetail.vote_of d' p t = None.
Proof.
  eexists. split; [reflexivity|].
  unfold QuestionDetail.vote_of. rewrite delete_votes_votes.
  rewrite find_filter_none; auto.
  intros w M. rewrite M. destruct (matches_target _ _ _ M) as [U _].
  unfold policy_delete_vote, policy. rewrite U, String.eqb_refl. reflexivity.
Qed.

(** The INSERT of a vote request by a voter who holds no vote on the
    target. *)
Lemma request_inserts p qid answerId K d :
  let t := requested_target qid answerId in
  let NEW := requested_row p qid answerId K in
  QuestionDetail.vote_of d p t = None ->
  profile_exists d p = true -> target_exists d t = true ->
  insert_vote (authenticated p) NEW d
  = ok (update_vote_counts (authenticated p) (TgInsert NEW)
          (with_votes (votes d ++ [NEW]) d))
  /\ QuestionDetail.vote_of
       (update_vote_counts (authenticated p) (TgInsert NEW)
          (with_votes (votes d ++ [NEW]) d)) p t = Some K.
Proof.
  intros t NEW Hv Hp Ht.
  assert (Hnone : find (vote_matches p t) (votes d) = None).
  { unfold QuestionDetail.vote_of in Hv.
    destruct (find (vote_matches p t) (votes d)); [discriminate|reflexivity]. }
  split.
  - apply insert_vote_ok.
    + simpl. apply String.eqb_refl.
    + unfold NEW, requested_row, Votes.vote_target_check, QuestionDetail.or_null.
      simpl.
      destruct (QuestionDetail.truthy answerId) eqn:T; simpl; auto.
      destruct answerId; [reflexivity|discriminate].
    + rewrite (existsb_pointwise _ (vote_matches p t)).
      * now apply find_none_existsb.
      * intros w. apply requested_row_matches.
    + unfold vote_references_ok, NEW, requested_row, QuestionDetail.or_null. simpl.
      rewrite Hp. simpl. unfold t, requested_target in Ht.
      destruct (QuestionDetail.truthy answerId) eqn:T; simpl in *.
      * destruct answerId as [x|]; [|discriminate]. simpl in *.
        rewrite T in Ht. exact Ht.
      * now rewrite Ht.
  - unfold QuestionDetail.vote_of.
    rewrite (keys_votes _ _ (vote_counts_keys _ _)). cbn [votes with_votes].
    assert (M : vote_matches p t NEW = true).
    { unfold t. rewrite <- (requested_row_matches p qid answerId K NEW).
      unfold vote_collides, NEW, requested_row, QuestionDetail.or_null. simpl.
      rewrite String.eqb_refl. simpl.
      destruct answerId as [x|]; simpl;
        [destruct (x == String.EmptyString); simpl|];
        now rewrite String.eqb_refl. }
    rewrite find_app, Hnone. cbn [find]. now rewrite M.
Qed.

(** ** Rows of other users

    The statements a trigger function issues for a signed-in user are
    filtered by that user's update policies, as the statements of the user
    are: whatever a user does short of deleting leaves the questions and the
    answers of every other user as they are, counters and flags included. *)

Lemma others_kept_refl c d : others_kept c d d.
Proof. split; intros x Hx _; exact Hx. Qed.

Lemma others_kept_trans c d d1 d2 :
  others_kept c d d1 -> others_kept c d1 d2 -> others_kept c d d2.
Proof.
  intros [Q1 A1] [Q2 A2]. split; intros x Hx Hu.
  - apply Q2; auto.
  - apply A2; auto.
Qed.

Lemma others_kept_rows c d d' :
  (forall q, In q (questions d) -> Questions.user_id q <> c -> In q (questions d')) ->
  (forall a, In a (answers d) -> Answers.user_id a <> c -> In a (answers d')) ->
  others_kept c d d'.
Proof. intros Q A. split; assumption. Qed.

Lemma not_owner c u : u <> c -> policy_update (authenticated c) u = false.
Proof. intros H. simpl. apply eqb_false. congruence. Qed.

Lemma update_questions_others c p f d :
  others_kept c d (update_questions (authenticated c) p f d).
Proof.
  apply others_kept_rows; [|intros a Ha _; exact Ha].
  intros q Hq Hu. unfold update_questions. cbn [questions with_questions].
  apply in_map_iff. exists q. split; [|exact Hq].
  now rewrite (not_owner c _ Hu), andb_false_r.
Qed.

Lemma update_answers_others c p f d :
  others_kept c d (update_answers (authenticated c) p f d).
Proof.
  apply others_kept_rows; [intros q Hq _; exact Hq|].
  intros a Ha Hu. unfold update_answers. cbn [answers with_answers].
  apply in_map_iff. exists a. split; [|exact Ha].
  now rewrite (not_owner c _ Hu), andb_false_r.
Qed.

Lemma with_votes_others c vs d : others_kept c d (with_votes vs d).
Proof. apply others_kept_rows; intros x Hx _; exact Hx. Qed.

Ltac others :=
  repeat first
    [ apply others_kept_refl
    | apply update_questions_others
    | apply update_answers_others
    | apply with_votes_others
    | eapply others_kept_trans; [|apply update_questions_others]
    | eapply others_kept_trans; [|apply update_answers_others] ].

Lemma vote_counts_others c ev d :
  others_kept c d (update_vote_counts (authenticated c) ev d).
Proof. unfold update_vote_counts. destruct ev; split_ifs; others. Qed.

Lemma answer_count_others c ev d :
  others_kept c d (update_question_answer_count (authenticated c) ev d).
Proof. unfold update_question_answer_count. destruct ev; others. Qed.

Lemma recheck_others c NEW d :
  others_kept c d (recheck_accepted (authenticated c) NEW d).
Proof. unfold recheck_accepted. split_ifs; others. Qed.

Lemma nested_others c OLD NEW d :
  others_kept c d (accepted_status_nested (authenticated c) OLD NEW d).
Proof.
  unfold accepted_status_nested. split_ifs;
    [apply recheck_others|apply others_kept_refl].
Qed.

Lemma fold_others {A : Type} c (f : db -> A -> db) (l : list A) d :
  (forall d' x, others_kept c d' (f d' x)) ->
  forall d1, others_kept c d d1 -> others_kept c d (fold_left f l d1).
Proof.
  intros Hf d1 H1. apply (fold_left_inv (others_kept c d)); auto.
  intros d' x _ H. eapply others_kept_trans; [exact H|apply Hf].
Qed.

Lemma clear_others c NEW d :
  others_kept c d (clear_other_answers (authenticated c) NEW d).
Proof.
  unfold clear_other_answers. apply fold_others.
  - intros d' x. apply nested_others.
  - apply others_kept_rows; [intros q Hq _; exact Hq|].
    intros a Ha Hu. cbn [answers with_answers].
    apply in_map_iff. exists a. split; [|exact Ha].
    now rewrite (not_owner c _ Hu), andb_false_r.
Qed.

Lemma accepted_status_others c ev d :
  others_kept c d (update_question_accepted_status (authenticated c) ev d).
Proof.
  unfold update_question_accepted_status. destruct ev; split_ifs;
    try apply others_kept_refl.
  - eapply others_kept_trans; [apply clear_others|apply update_questions_others].
  - apply recheck_others.
Qed.

Lemma delete_votes_others c p d :
  others_kept c d (delete_votes (authenticated c) p d).
Proof.
  unfold delete_votes. apply fold_others.
  - intros d' x. apply vote_counts_others.
  - apply with_votes_others.
Qed.

Lemma update_votes_others c p k d :
  others_kept c d (update_votes (authenticated c) p k d).
Proof.
  unfold update_votes. apply fold_others.
  - intros d' x. apply vote_counts_others.
  - apply with_votes_others.
Qed.

(** A statement of a signed-in user that deletes no question and no answer
    keeps the questions and the answers of the other users. *)
Lemma exec_others c st d d' :
  deletes_rows st = false ->
  exec (authenticated c) st d = ok d' ->
  others_kept c d d'.
Proof.
  intros Hst E. destruct st; try discriminate Hst; cbn [exec] in E.
  - unfold handle_new_user in E. destruct (profile_exists d uid); [discriminate|].
    apply ok_inj in E. subst d'. apply others_kept_rows; intros x Hx _; exact Hx.
  - unfold insert_question in E.
    destruct (negb _); [discriminate|].
    destruct (question_exists d id); [discriminate|].
    destruct (negb _); [discriminate|].
    apply ok_inj in E. subst d'. apply others_kept_rows; intros x Hx _.
    + cbn [questions with_questions]. apply in_or_app. now left.
    + exact Hx.
  - unfold insert_answer in E.
    destruct (negb _); [discriminate|].
    destruct (answer_exists d id); [discriminate|].
    destruct (negb _); [discriminate|].
    apply ok_inj in E. subst d'.
    eapply others_kept_trans; [|apply answer_count_others].
    apply others_kept_rows; intros x Hx _.
    + exact Hx.
    + cbn [answers with_answers]. apply in_or_app. now left.
  - unfold update_answer_is_accepted in E. apply ok_inj in E. subst d'.
    apply fold_others.
    + intros d' x. apply accepted_status_others.
    + apply others_kept_rows; [intros q Hq _; exact Hq|].
      intros a Ha Hu. cbn [answers with_answers].
      apply in_map_iff. exists a. split; [|exact Ha].
      now rewrite (not_owner c _ Hu), andb_false_r.
  - unfold insert_vote in E.
    destruct (negb _); [discriminate|].
    destruct (negb _); [discriminate|].
    destruct (existsb _ _); [discriminate|].
    destruct (negb _); [discriminate|].
    apply ok_inj in E. subst d'.
    eapply others_kept_trans; [apply with_votes_others|apply vote_counts_others].
  - unfold delete_vote in E. apply ok_inj in E. subst d'.
    apply delete_votes_others.
  - unfold update_vote in E. apply ok_inj in E. subst d'.
    apply update_votes_others.
Qed.

(** Reading a row by its key. *)
Lemma find_unique_key {A : Type} (key : A -> uuid) (l : list A) (a : A) :
  NoDup (map key l) -> In a l -> find (fun b => key b == key a) l = Some a.
Proof.
  intros Hn Ha. destruct (find (fun b => key b == key a) l) as [b|] eqn:E.
  - apply (find_key_in key) in E. destruct E as [Hb Hk].
    f_equal. now apply (key_inj key l).
  - pose proof (find_none _ _ E a Ha) as N. simpl in N.
    now rewrite String.eqb_refl in N.
Qed.

Lemma kept_question c d d' qid Q :
  schema_ok d' -> questions_of_others_kept c d d' ->
  select_question d qid = Some Q -> Questions.user_id Q <> c ->
  select_question d' qid = Some Q.
Proof.
  intros Hs Hk HQ Hu. apply find_key_in in HQ. destruct HQ as [HQ Hid].
  specialize (Hk Q HQ Hu). subst qid. unfold select_question.
  apply find_unique_key; auto. now apply schema_pk_questions.
Qed.

Lemma kept_answer c d d' aid A :
  schema_ok d' -> answers_of_others_kept c d d' ->
  select_answer d aid = Some A -> Answers.user_id A <> c ->
  select_answer d' aid = Some A.
Proof.
  intros Hs Hk HA Hu. apply find_key_in in HA. destruct HA as [HA Hid].
  specialize (Hk A HA Hu). subst aid. unfold select_answer.
  apply find_unique_key; auto. now apply schema_pk_answers.
Qed.

(** ** Deletions in closed form *)

Lemma db_eta d : mkdb (profiles d) (questions d) (answers d) (votes d) = d.
Proof. now destruct d. Qed.

Lemma update_questions_none {s : session} p f d :
  (forall q, In q (questions d) -> p q = false) -> update_questions s p f d = d.
Proof.
  intros H. unfold update_questions. rewrite update_none.
  - apply with_questions_same.
  - intros q Hq. now rewrite (H q Hq).
Qed.

Lemma update_answers_none {s : session} p f d :
  (forall a, In a (answers d) -> p a = false) -> update_answers s p f d = d.
Proof.
  intros H. unfold update_answers. rewrite update_none.
  - apply with_answers_same.
  - intros a Ha. now rewrite (H a Ha).
Qed.

(** A vote trigger whose target row is gone writes nothing. *)
Lemma vote_counts_delete_miss {s : session} OLD d :
  (forall q, In q (questions d) -> is_id (Votes.question_id OLD) (Questions.id q) = false) ->
  (forall a, In a (answers d) -> is_id (Votes.answer_id OLD) (Answers.id a) = false) ->
  update_vote_counts s (TgDelete OLD) d = d.
Proof.
  intros Hq Ha. unfold update_vote_counts.
  destruct (not_null (Votes.question_id OLD));
    [|destruct (not_null (Votes.answer_id OLD))];
    try destruct (vote_type_eqb (Votes.vote_type OLD) upvote);
    auto using update_questions_none, update_answers_none.
Qed.

Lemma delete_votes_miss {s : session} p d :
  (forall v, In v (votes d) -> p v = true ->
     (forall q, In q (questions d) -> is_id (Votes.question_id v) (Questions.id q) = false)
     /\ (forall a, In a (answers d) -> is_id (Votes.answer_id v) (Answers.id a) = false)) ->
  delete_votes s p d = with_votes (filter (fun v => negb (p v)) (votes d)) d.
Proof.
  intros H. unfold delete_votes.
  apply (fold_left_inv
           (fun x => x = with_votes (filter (fun v => negb (p v)) (votes d)) d));
    [|reflexivity].
  intros x o Ho ->. apply filter_In in Ho. destruct Ho as [Ho Hp].
  destruct (H o Ho Hp) as [Hq Ha].
  now apply vote_counts_delete_miss.
Qed.

Lemma is_id_sym_key (c : option uuid) (x y : uuid) :
  is_id c x = true -> is_id c y = true -> x = y.
Proof.
  intros Hx Hy. apply is_id_true in Hx. apply is_id_true in Hy. congruence.
Qed.

Lemma existsb_filter {A : Type} (f g : A -> bool) (l : list A) :
  existsb f (filter g l) = existsb (fun x => g x && f x) l.
Proof.
  induction l as [|x l IH]; simpl; auto.
  destruct (g x); simpl; now rewrite IH.
Qed.

Lemma update_questions_none_count {s : session} OLD d :
  (forall q, In q (questions d) -> (Questions.id q == Answers.question_id OLD) = false) ->
  update_question_answer_count s (TgDelete OLD) d = d.
Proof. intros H. unfold update_question_answer_count. now apply update_questions_none. Qed.

(** Deleting one answer, in closed form. *)
Lemma delete_answers_one {s : session} p A d :
  schema_ok d ->
  filter p (answers d) = [A] ->
  (forall a, In a (answers d) -> p a = (Answers.id a == Answers.id A)) ->
  delete_answers s p d = without_answer s A d.
Proof.
  intros Hs Hf Hp.
  assert (HA : In A (answers d)).
  { assert (In A (filter p (answers d))) by (rewrite Hf; now left).
    apply filter_In in H. tauto. }
  rewrite delete_answers_unfold, Hf. cbn [fold_left]. unfold delete_answers_step.
  rewrite delete_votes_miss.
  - unfold update_question_answer_count, update_questions, without_answer.
    unfold with_questions, with_votes, with_answers.
    cbn [questions answers votes profiles].
    f_equal.
    apply filter_ext_in. intros a Ha. now rewrite Hp.
  - cbn [questions answers votes with_answers]. intros v Hv Hon. split.
    + intros q _. apply is_id_true in Hon.
      rewrite (check_on_answer v _ (schema_ck_votes d Hs v Hv) Hon). reflexivity.
    + intros a Ha. apply filter_In in Ha. destruct Ha as [Ha Hn].
      rewrite Hp in Hn by exact Ha. apply negb_true_iff in Hn.
      destruct (is_id (Votes.answer_id v) (Answers.id a)) eqn:E; auto.
      rewrite (is_id_sym_key _ _ _ E Hon), String.eqb_refl in Hn. discriminate.
Qed.

(** The cascade of a question's deletion on its answers, in closed form. *)
Lemma delete_answers_of_question {s : session} qid d :
  NoDup (map Answers.id (answers d)) ->
  ck_votes (votes d) ->
  (forall q, In q (questions d) -> (Questions.id q == qid) = false) ->
  delete_answers s (fun a => Answers.question_id a == qid) d
  = mkdb (profiles d) (questions d)
         (filter (fun a => negb (Answers.question_id a == qid)) (answers d))
         (filter (fun v => negb (cascaded (filter (fun a => Answers.question_id a == qid)
                                             (answers d)) v))
                 (votes d)).
Proof.
  intros Hnd Hck Hq.
  set (pa := fun a => Answers.question_id a == qid).
  rewrite <- (db_eta (delete_answers s pa d)).
  rewrite delete_answers_votes, delete_answers_profiles.
  enough (questions (delete_answers s pa d) = questions d
          /\ answers (delete_answers s pa d) = filter (fun a => negb (pa a)) (answers d))
    as [-> ->] by reflexivity.
  rewrite delete_answers_unfold.
  apply (fold_left_inv
           (fun x => (questions x = questions d
                      /\ answers x = filter (fun a => negb (pa a)) (answers d))
                     /\ incl (votes x) (votes d))).
  - intros x o Ho [[Hxq Hxa] Hxv]. apply filter_In in Ho. destruct Ho as [Ho Hpo].
    unfold delete_answers_step. rewrite delete_votes_miss.
    + rewrite update_questions_none_count.
      * cbn [questions answers votes with_votes]. repeat split; auto.
        intros v Hv. apply filter_In in Hv. apply Hxv. tauto.
      * cbn [questions with_votes]. rewrite Hxq. intros q Hin.
        unfold pa in Hpo. apply eqb_true in Hpo. rewrite Hpo. now apply Hq.
    + intros v Hv Hon. split.
      * intros q _. apply is_id_true in Hon.
        rewrite (check_on_answer v _ (Hck v (Hxv v Hv)) Hon). reflexivity.
      * intros a Ha. rewrite Hxa in Ha. apply filter_In in Ha. destruct Ha as [Ha Hn].
        destruct (is_id (Votes.answer_id v) (Answers.id a)) eqn:E; auto.
        assert (a = o).
        { apply (key_inj Answers.id (answers d)); auto.
          apply (is_id_sym_key _ _ _ E Hon). }
        subst a. rewrite Hpo in Hn. discriminate.
  - cbn [questions answers votes with_answers]. repeat split; auto. apply incl_refl.
Qed.

Lemma delete_question_hit s qid Q d :
  NoDup (map Questions.id (questions d)) ->
  In Q (questions d) -> Questions.id Q = qid ->
  policy_delete s d (Questions.user_id Q) = true ->
  delete_question s qid d
  = ok (delete_votes s (fun v => is_id (Votes.question_id v) qid)
          (delete_answers s (fun a => Answers.question_id a == qid)
             (with_questions
                (filter (fun q => negb (Questions.id q == qid)) (questions d)) d))).
Proof.
  intros Hnd HQ Hid Hpol.
  destruct (delete_question_cases s qid d Hnd) as [E|[Q' [_ [_ [_ E]]]]]; auto.
  exfalso. unfold delete_question in E.
  destruct (filter_key Questions.id qid
              (fun q => policy_delete s d (Questions.user_id q))
              (questions d) Hnd) as [F|[Q' [HQ' [Hid' [Hpol' F]]]]].
  - pose proof (filter_nil_all _ _ F Q HQ) as C. simpl in C.
    now rewrite Hid, String.eqb_refl, Hpol in C.
  - rewrite F in E. cbn [fold_left] in E. apply ok_inj in E.
    assert (Hin : In Q' (questions
                           (delete_votes s (fun v => is_id (Votes.question_id v) (Questions.id Q'))
        (delete_answers s (fun a => Answers.question_id a == Questions.id Q')
           (with_questions
              (filter (fun q => negb ((Questions.id q == qid)
                                      && policy_delete s d (Questions.user_id q)))
                      (questions d)) d))))) by (rewrite E; exact HQ').
    apply (in_map Questions.id) in Hin.
    match type of Hin with
    | In _ (map _ (questions ?x)) =>
        pose proof (delete_votes_keys (s:=s) (fun v => is_id (Votes.question_id v) (Questions.id Q'))
                      (delete_answers s (fun a => Answers.question_id a == Questions.id Q')
           (with_questions
              (filter (fun q => negb ((Questions.id q == qid)
                                      && policy_delete s d (Questions.user_id q)))
                      (questions d)) d))) as K
    end.
    apply keys_components in K. destruct K as [_ [K _]].
    rewrite K in Hin.
    match type of Hin with
    | In _ (map _ (questions (delete_answers s ?p ?x))) =>
        pose proof (delete_answers_keys (s:=s) p x) as K2
    end.
    apply keys_components in K2. destruct K2 as [_ [K2 _]].
    rewrite K2 in Hin. cbn [questions with_questions] in Hin.
    apply in_map_iff in Hin. destruct Hin as [q [Hq Hin]].
    apply filter_In in Hin. destruct Hin as [Hin Hn].
    assert (q = Q') by (apply (key_inj Questions.id (questions d)); auto).
    subst q. now rewrite Hid', String.eqb_refl, Hpol' in Hn.
Qed.

(** Deleting a question, in closed form. *)
Lemma delete_question_closed s qid Q d :
  schema_ok d ->
  select_question d qid = Some Q ->
  policy_delete s d (Questions.user_id Q) = true ->
  delete_question s qid d = ok (without_question qid d).
Proof.
  intros Hc Hsel Hpol.
  pose proof Hc as Hs.
  pose proof (schema_pk_questions d Hs) as Hnd.
  apply find_key_in in Hsel. destruct Hsel as [HQ HQid].
  rewrite (delete_question_hit s qid Q d Hnd HQ HQid Hpol). f_equal.
  set (d1 := with_questions
               (filter (fun q => negb (Questions.id q == qid)) (questions d)) d).
  rewrite (delete_answers_of_question qid d1).
  - rewrite delete_votes_miss.
    + unfold without_question, d1, with_votes, with_questions.
      cbn [questions answers votes profiles].
      f_equal. rewrite filter_filter. apply filter_ext. intros v.
      unfold under_question, cascaded. rewrite existsb_filter, negb_orb.
      apply andb_comm.
    + cbn [questions answers votes]. intros v Hv Hon. split.
      * intros q Hin. unfold d1 in Hin. cbn [questions with_questions] in Hin.
        apply filter_In in Hin. destruct Hin as [_ Hn]. apply negb_true_iff in Hn.
        destruct (is_id (Votes.question_id v) (Questions.id q)) eqn:E'; auto.
        rewrite (is_id_sym_key _ _ _ E' Hon), String.eqb_refl in Hn. discriminate.
      * intros a _. apply is_id_true in Hon. apply filter_In in Hv.
        destruct Hv as [Hv _]. unfold d1 in Hv. cbn [votes with_questions] in Hv.
        rewrite (check_on_question v _ (schema_ck_votes d Hs v Hv) Hon). reflexivity.
  - exact (schema_pk_answers d Hs).
  - exact (schema_ck_votes d Hs).
  - unfold d1. cbn [questions with_questions]. intros q Hin.
    apply filter_In in Hin. destruct Hin as [_ Hn]. now apply negb_true_iff in Hn.
Qed.

Lemma delete_answer_cases s aid d :
  schema_ok d ->
  delete_answer s aid d = ok d
  \/ exists A, In A (answers d) /\ Answers.id A = aid
               /\ policy_delete s d (Answers.user_id A) = true
               /\ delete_answer s aid d = ok (without_answer s A d).
Proof.
  intros Hs. pose proof (schema_pk_answers d Hs) as Hnd.
  unfold delete_answer.
  destruct (filter_key Answers.id aid
              (fun a => policy_delete s d (Answers.user_id a))
              (answers d) Hnd) as [E|[A [HA [Hid [Hpol E]]]]].
  - left. f_equal. rewrite delete_answers_unfold, E. cbn [fold_left].
    rewrite filter_all.
    + apply with_answers_same.
    + intros a Ha. now rewrite (filter_nil_all _ _ E a Ha).
  - right. exists A. repeat split; auto. f_equal.
    apply delete_answers_one; auto.
    intros a Ha. rewrite Hid.
    destruct (Answers.id a == aid) eqn:Ei; simpl; auto.
    apply eqb_true in Ei.
    assert (a = A) by (apply (key_inj Answers.id (answers d)); auto; congruence).
    now subst a.
Qed.

(** ** Closed forms read on single rows *)


Lemma answers_map_lookup (g : Answers.row -> Answers.row) d d' x :
  answers d' = map g (answers d) ->
  (forall a, Answers.id (g a) = Answers.id a) ->
  select_answer d' x = option_map g (select_answer d x).
Proof.
  intros E Hg. unfold select_answer. rewrite E. now apply find_map_key.
Qed.

Lemma questions_map_lookup (g : Questions.row -> Questions.row) d d' x :
  questions d' = map g (questions d) ->
  (forall q, Questions.id (g q) = Questions.id q) ->
  select_question d' x = option_map g (select_question d x).
Proof.
  intros E Hg. unfold select_question. rewrite E. now apply find_map_key.
Qed.

(** The accept transition, row by row. *)
Lemma accept_rows_effect s aid A d :
  schema_ok d ->
  select_answer d aid = Some A ->
  Answers.is_accepted A = false ->
  policy_update s (Answers.user_id A) = true ->
  exists d',
    update_answer_is_accepted s aid true d = ok d'
    /\ is_accepted_of d' aid = Some true
    /\ (forall b B, b <> aid -> select_answer d b = Some B ->
          is_accepted_of d' b
          = Some (if (Answers.question_id B == Answers.question_id A)
                     && policy_update s (Answers.user_id B)
                  then false else Answers.is_accepted B))
    /\ (forall Q, select_question d (Answers.question_id A) = Some Q ->
          has_accepted_answer_of d' (Answers.question_id A)
          = Some (if policy_update s (Questions.user_id Q)
                  then true else Questions.has_accepted_answer Q)).
Proof.
  intros Hs HA Ea Hpol.
  destruct (accept_effect s aid A d Hs HA Ea Hpol) as [d' [E [Ans Qs]]].
  exists d'. split; [exact E|].
  assert (Hg : forall a,
    Answers.id (if Answers.id a == aid then Answers.set_is_accepted true a
                else if sibling s A a then Answers.set_is_accepted false a else a)
    = Answers.id a).
  { intros a. destruct (Answers.id a == aid); auto. now destruct (sibling s A a). }
  pose proof (find_key_in Answers.id _ _ _ HA) as [_ HidA].
  split; [|split].
  - unfold is_accepted_of. rewrite (answers_map_lookup _ d d' aid Ans Hg), HA.
    cbn [option_map]. now rewrite HidA, String.eqb_refl.
  - intros b B Hb HB. unfold is_accepted_of.
    rewrite (answers_map_lookup _ d d' b Ans Hg), HB. cbn [option_map].
    pose proof (find_key_in Answers.id _ _ _ HB) as [_ HidB].
    apply eqb_false in Hb. rewrite HidB, Hb. unfold sibling.
    rewrite HidB, HidA, Hb. cbn [negb]. rewrite andb_true_r.
    now destruct ((Answers.question_id B == Answers.question_id A)
                  && policy_update s (Answers.user_id B)).
  - intros Q HQ. unfold has_accepted_answer_of.
    rewrite (flag_rows_lookup s _ true d' (questions d) _ Qs).
    fold (select_question d (Answers.question_id A)). rewrite HQ.
    cbn [option_map].
    pose proof (find_key_in Questions.id _ _ _ HQ) as [_ HidQ].
    rewrite HidQ, String.eqb_refl. cbn [andb].
    now destruct (policy_update s (Questions.user_id Q)).
Qed.

(** The unaccept transition, row by row. *)
Lemma unaccept_rows_effect s aid A Q d :
  schema_ok d ->
  select_answer d aid = Some A ->
  Answers.is_accepted A = true ->
  policy_update s (Answers.user_id A) = true ->
  select_question d (Answers.question_id A) = Some Q ->
  exists d',
    update_answer_is_accepted s aid false d = ok d'
    /\ is_accepted_of d' aid = Some false
    /\ has_accepted_answer_of d' (Answers.question_id A)
       = Some (if negb (other_accepted d (Answers.question_id A) aid)
                  && policy_update s (Questions.user_id Q)
               then false else Questions.has_accepted_answer Q).
Proof.
  intros Hs HA Ea Hpol HQ.
  destruct (unaccept_effect s aid A d Hs HA Ea Hpol) as [d' [E [Ans Qs]]].
  exists d'. split; [exact E|].
  pose proof (find_key_in Answers.id _ _ _ HA) as [_ HidA].
  pose proof (find_key_in Questions.id _ _ _ HQ) as [_ HidQ].
  split.
  - unfold is_accepted_of. rewrite (answers_map_lookup _ d d' aid Ans), HA.
    + cbn [option_map]. now rewrite HidA, String.eqb_refl.
    + intros a. now destruct (Answers.id a == aid).
  - unfold has_accepted_answer_of.
    destruct (other_accepted d (Answers.question_id A) aid); cbn [negb andb].
    + unfold select_question in *. now rewrite Qs, HQ.
    + rewrite (flag_rows_lookup s _ false d' (questions d) _ Qs).
      fold (select_question d (Answers.question_id A)). rewrite HQ.
      cbn [option_map]. rewrite HidQ, String.eqb_refl. cbn [andb].
      now destruct (policy_update s (Questions.user_id Q)).
Qed.

(** Inserting and deleting an answer, read on [answer_count]. *)
Lemma insert_answer_count s id qid uid Q d :
  policy_insert s uid = true ->
  answer_exists d id = false ->
  profile_exists d uid = true ->
  select_question d qid = Some Q ->
  exists d',
    insert_answer s id qid uid d = ok d'
    /\ select_answer d' id = Some (Answers.mk id qid uid 0 0 false)
    /\ answer_count_of d' qid
       = Some (if policy_update s (Questions.user_id Q)
               then Questions.answer_count Q + 1 else Questions.answer_count Q).
Proof.
  intros Hpol Hf Hp HQ.
  pose proof (find_key_in Questions.id _ _ _ HQ) as [HinQ HidQ].
  assert (Hq : question_exists d qid = true).
  { apply existsb_exists. exists Q. split; auto. now apply eqb_true. }
  destruct (insert_answer_effect s id qid uid d Hpol Hf Hq Hp)
    as [d' [E [Ans [_ [_ Qs]]]]].
  exists d'. split; [exact E|]. split.
  - unfold select_answer. rewrite Ans, find_app.
    rewrite (find_key_none Answers.id) by exact Hf.
    cbn [find Answers.id]. now rewrite String.eqb_refl.
  - unfold answer_count_of.
    rewrite (questions_map_lookup _ d d' qid Qs), HQ.
    + cbn [option_map]. rewrite HidQ, String.eqb_refl. cbn [andb].
      now destruct (policy_update s (Questions.user_id Q)).
    + intros q. now destruct (_ && _).
Qed.

Lemma delete_answer_count s aid A Q d :
  schema_ok d ->
  select_answer d aid = Some A ->
  policy_delete s d (Answers.user_id A) = true ->
  select_question d (Answers.question_id A) = Some Q ->
  exists d',
    delete_answer s aid d = ok d'
    /\ select_answer d' aid = None
    /\ answer_count_of d' (Answers.question_id A)
       = Some (if policy_update s (Questions.user_id Q)
               then Questions.answer_count Q - 1 else Questions.answer_count Q).
Proof.
  intros Hs HA Hpol HQ.
  pose proof (find_key_in Answers.id _ _ _ HA) as [HinA HidA].
  pose proof (find_key_in Questions.id _ _ _ HQ) as [_ HidQ].
  pose proof (schema_pk_answers d Hs) as Hnd.
  destruct (delete_answer_cases s aid d Hs) as [E|[A' [HA' [Hid' [_ E]]]]].
  - exfalso. unfold delete_answer in E. apply ok_inj in E.
    assert (Hin : In A (answers (delete_answers s
                    (fun a => (Answers.id a == aid)
                              && policy_delete s d (Answers.user_id a)) d)))
      by (rewrite E; exact HinA).
    apply (in_map AK) in Hin.
    pose proof (delete_answers_keys (s:=s)
                  (fun a => (Answers.id a == aid)
                            && policy_delete s d (Answers.user_id a)) d) as K.
    apply keys_components in K. destruct K as [_ [_ [K _]]].
    rewrite K in Hin. apply in_map_iff in Hin. destruct Hin as [a [Hk Hin]].
    apply filter_In in Hin. destruct Hin as [Hin Hn].
    assert (a = A).
    { apply (key_inj Answers.id (answers d)); auto. unfold AK in Hk. congruence. }
    subst a. now rewrite HidA, String.eqb_refl, Hpol in Hn.
  - assert (A' = A) by (apply (key_inj Answers.id (answers d)); auto; congruence).
    subst A'. rewrite E. eexists. split; [reflexivity|]. split.
    + unfold select_answer, without_answer. cbn [answers]. rewrite HidA.
      apply find_filter_none. intros a. now destruct (Answers.id a == aid).
    + unfold answer_count_of, select_question, without_answer. cbn [questions].
      rewrite (find_map_key Questions.id) by (intros q; now destruct (_ && _)).
      fold (select_question d (Answers.question_id A)). rewrite HQ.
      cbn [option_map]. rewrite HidQ, String.eqb_refl. cbn [andb].
      now destruct (policy_update s (Questions.user_id Q)).
Qed.

(** * The claims *)

(** C1 (as the code has it). No trigger function runs the accepted-answer
    re-check on DELETE: deleting an answer leaves [has_accepted_answer] of
    every question as it was.  In [forum_accepted], deleting the only
    accepted answer of [q1] leaves [q1] flagged although none of its answers
    is accepted. *)
Theorem delete_keeps_has_accepted_answer :
  (forall s id d q,
     has_accepted_answer_of (commit (delete_answer s id d) d) q
     = has_accepted_answer_of d q)
  /\ (let d := forum_accepted in
      let d' := step d (authenticated bob, DeleteAnswer a1) in
      is_accepted_of d a1 = Some true
      /\ accepted_count d q1 = 1%nat
      /\ select_answer d' a1 = None
      /\ accepted_count d' q1 = 0%nat
      /\ has_accepted_answer_of d' q1 = Some true).
Proof.
  split.
  - intros s id d q. unfold delete_answer, commit.
    rewrite !has_accepted_answer_of_view.
    pose proof (delete_answers_acceptance (s:=s)
                  (fun a => (Answers.id a == id)
                            && policy_delete s d (Answers.user_id a)) d) as H.
    unfold acceptance in H. injection H as H _. now rewrite H.
  - vm_compute. repeat split; reflexivity.
Qed.



(** C3 (as the code has it). The sibling-clearing UPDATE of the accept
    branch runs under the policies of the user who accepts: an accept leaves
    every answer of the other users as it was, accepted ones included.
    After bob has accepted his answer [a1] and alice her answer [a2], both
    answers of [q1] are accepted. *)
Theorem accepted_answers_of_others_stay :
  (forall c aid v d d',
     update_answer_is_accepted (authenticated c) aid v d = ok d' ->
     forall a, In a (answers d) -> Answers.user_id a <> c -> In a (answers d'))
  /\ (let d := run (setup ++ [(authenticated bob, SetAccepted a1 true);
                              (authenticated alice, SetAccepted a2 true)])
                   empty_db in
      is_accepted_of d a1 = Some true
      /\ is_accepted_of d a2 = Some true
      /\ accepted_count d q1 = 2%nat).
Proof.
  split.
  - intros c aid v d d' E.
    exact (proj2 (exec_others c (SetAccepted aid v) d d' eq_refl E)).
  - vm_compute. repeat split; reflexivity.
Qed.

(** C4 (as the code has it). The accept transition on an unaccepted answer
    A of question Q, run by the session that may update A, accepts A; it
    unaccepts another answer of Q only when that session may update it, and
    flags Q only when that session may update Q.  In [forum], bob accepting
    his answer [a1] of alice's [q1] leaves [q1] unflagged; alice accepting
    her answer [a2] afterwards leaves [a1] accepted. *)
Theorem accept_writes_the_rows_of_its_session :
  (forall (reqs : list (session * statement)) (d0 : db),
   initial d0 = true ->
   let d := run reqs d0 in
   forall s aid A,
     select_answer d aid = Some A ->
     Answers.is_accepted A = false ->
     policy_update s (Answers.user_id A) = true ->
     exists d',
       update_answer_is_accepted s aid true d = ok d'
       /\ is_accepted_of d' aid = Some true
       /\ (forall b B, b <> aid -> select_answer d b = Some B ->
             is_accepted_of d' b
             = Some (if (Answers.question_id B == Answers.question_id A)
                        && policy_update s (Answers.user_id B)
                     then false else Answers.is_accepted B))
       /\ (forall Q, select_question d (Answers.question_id A) = Some Q ->
             has_accepted_answer_of d' (Answers.question_id A)
             = Some (if policy_update s (Questions.user_id Q)
                     then true else Questions.has_accepted_answer Q)))
  /\ (let d1 := step forum (authenticated bob, SetAccepted a1 true) in
      let d2 := step d1 (authenticated alice, SetAccepted a2 true) in
      is_accepted_of forum a1 = Some false
      /\ is_accepted_of d1 a1 = Some true
      /\ has_accepted_answer_of d1 q1 = Some false
      /\ is_accepted_of d2 a2 = Some true
      /\ is_accepted_of d2 a1 = Some true).
Proof.
  split.
  - intros reqs d0 Hi d s aid A HA Acc Hpol.
    destruct (reachable_invariants reqs d0 Hi) as [Hc _]. fold d in Hc.
    now apply accept_rows_effect.
  - vm_compute. repeat split; reflexivity.
Qed.

(** C5 (as the code has it). The counter UPDATEs of the vote trigger run
    under the policies of the voter: a vote statement of a user leaves every
    question and every answer of the other users as it was, counters
    included.  In [forum_voted] bob's upvote on alice's [q1] is live and
    [upvote_count] of [q1] is 0; when bob changes it to a downvote, both
    counters of [q1] stay 0. *)
Theorem votes_on_rows_of_others_are_not_counted :
  (forall (reqs : list (session * statement)) (d0 : db),
   initial d0 = true ->
   let d := run reqs d0 in
   forall c st d',
     writes_votes st = true ->
     exec (authenticated c) st d = ok d' ->
     (forall qid Q, select_question d qid = Some Q -> Questions.user_id Q <> c ->
                    select_question d' qid = Some Q)
     /\ (forall aid A, select_answer d aid = Some A -> Answers.user_id A <> c ->
                       select_answer d' aid = Some A))
  /\ (let d := forum_voted in
      let d' := step d (authenticated bob, UpdateVote bob (on_question q1) downvote) in
      QuestionDetail.vote_of d bob (on_question q1) = Some upvote
      /\ live d (on_question q1) upvote = 1
      /\ counter d (on_question q1) upvote = Some 0
      /\ QuestionDetail.vote_of d' bob (on_question q1) = Some downvote
      /\ live d' (on_question q1) downvote = 1
      /\ counter d' (on_question q1) upvote = Some 0
      /\ counter d' (on_question q1) downvote = Some 0).
Proof.
  split.
  - intros reqs d0 Hi d c st d' Hst E.
    destruct (reachable_invariants reqs d0 Hi) as [Hc _]. fold d in Hc.
    assert (Hc' : schema_ok d') by (eapply exec_schema; eauto).
    assert (Hd : deletes_rows st = false) by (destruct st; auto; discriminate).
    destruct (exec_others c st d d' Hd E) as [KQ KA]. split.
    + intros qid Q. now apply kept_question.
    + intros aid A. now apply kept_answer.
  - vm_compute. repeat split; reflexivity.
Qed.



(** C7 (as the code has it). The unaccept transition on an accepted answer
    A of question Q unaccepts A; it sets [Q.has_accepted_answer] to false
    only when no other answer of Q is accepted and the session may update Q,
    and leaves the flag as it was otherwise.  In [forum_accepted], bob
    unaccepting his answer [a1], the only accepted answer of alice's [q1],
    leaves [q1] flagged. *)
Theorem unaccept_rechecks_the_questions_of_its_session :
  (forall (reqs : list (session * statement)) (d0 : db),
   initial d0 = true ->
   let d := run reqs d0 in
   forall s aid A Q,
     select_answer d aid = Some A ->
     Answers.is_accepted A = true ->
     policy_update s (Answers.user_id A) = true ->
     select_question d (Answers.question_id A) = Some Q ->
     exists d',
       update_answer_is_accepted s aid false d = ok d'
       /\ is_accepted_of d' aid = Some false
       /\ has_accepted_answer_of d' (Answers.question_id A)
          = Some (if negb (other_accepted d (Answers.question_id A) aid)
                     && policy_update s (Questions.user_id Q)
                  then false else Questions.has_accepted_answer Q))
  /\ (let d := forum_accepted in
      let d' := step d (authenticated bob, SetAccepted a1 false) in
      is_accepted_of d a1 = Some true
      /\ other_accepted d q1 a1 = false
      /\ is_accepted_of d' a1 = Some false
      /\ accepted_count d' q1 = 0%nat
      /\ has_accepted_answer_of d' q1 = Some true).
Proof.
  split.
  - intros reqs d0 Hi d s aid A Q HA Acc Hpol HQ.
    destruct (reachable_invariants reqs d0 Hi) as [Hc _]. fold d in Hc.
    now apply unaccept_rows_effect.
  - vm_compute. repeat split; reflexivity.
Qed.

(** C8 (as the code has it). The UPDATE of the answer-count trigger runs
    under the policies of the session that inserts or deletes the answer:
    [answer_count] of the question moves by one when that session may update
    the question, and stays as it was otherwise.  When bob posts three
    answers to alice's new question [q1] and deletes one of them, two answers
    are left and [answer_count] of [q1] is 0. *)
Theorem answer_count_follows_the_answers_of_the_owner :
  (forall (reqs : list (session * statement)) (d0 : db),
   initial d0 = true ->
   let d := run reqs d0 in
   (forall s id qid uid Q,
      policy_insert s uid = true -> answer_exists d id = false ->
      profile_exists d uid = true -> select_question d qid = Some Q ->
      exists d',
        insert_answer s id qid uid d = ok d'
        /\ select_answer d' id = Some (Answers.mk id qid uid 0 0 false)
        /\ answer_count_of d' qid
           = Some (if policy_update s (Questions.user_id Q)
                   then Questions.answer_count Q + 1 else Questions.answer_count Q))
   /\ (forall s aid A Q,
         select_answer d aid = Some A ->
         policy_delete s d (Answers.user_id A) = true ->
         select_question d (Answers.question_id A) = Some Q ->
         exists d',
           delete_answer s aid d = ok d'
           /\ select_answer d' aid = None
           /\ answer_count_of d' (Answers.question_id A)
              = Some (if policy_update s (Questions.user_id Q)
                      then Questions.answer_count Q - 1
                      else Questions.answer_count Q)))
  /\ (let d := run [(service_role, SignUp alice);
                    (service_role, SignUp bob);
                    (authenticated alice, InsertQuestion q1 alice);
                    (authenticated bob, InsertAnswer a1 q1 bob);
                    (authenticated bob, InsertAnswer a2 q1 bob);
                    (authenticated bob, InsertAnswer a3 q1 bob);
                    (authenticated bob, DeleteAnswer a1)] empty_db in
      QuestionDetail.answerIds d q1 = [a2; a3]
      /\ answer_count_of d q1 = Some 0).
Proof.
  split.
  - intros reqs d0 Hi d.
    destruct (reachable_invariants reqs d0 Hi) as [Hc _]. fold d in Hc. split.
    + intros s id qid uid Q. now apply insert_answer_count.
    + intros s aid A Q. now apply delete_answer_count.
  - vm_compute. split; reflexivity.
Qed.


(** C10. An update of a vote row that keeps [vote_type] and the target leaves
    every counter as it was: the trigger fires, and its decrement and its
    increment hit the same counter of the same row. *)
Theorem update_keeping_kind_is_neutral :
  (forall s OLD user_id d,
     update_vote_counts s
       (TgUpdate OLD (Votes.mk user_id (Votes.question_id OLD)
                               (Votes.answer_id OLD) (Votes.vote_type OLD))) d
     = d)
  /\ (forall s u t k d,
        (forall v, In v (votes d) -> vote_matches u t v = true ->
                   Votes.vote_type v = k) ->
        update_vote s u t k d = ok d).
Proof.
  split.
  - intros s OLD user_id d. now apply update_same_kind.
  - intros s u t k d Hk. unfold update_vote, update_votes. f_equal.
    set (p := fun v => vote_matches u t v && policy_update s (Votes.user_id v)).
    assert (Hsel : forall v, In v (votes d) -> p v = true ->
                             Votes.set_vote_type k v = v).
    { intros v Hv Pv. apply andb_prop in Pv. destruct Pv as [M _].
      specialize (Hk v Hv M). destruct v. simpl in *. now subst. }
    rewrite update_same by exact Hsel. rewrite with_votes_same.
    apply (fold_left_inv (fun x => x = d)); auto.
    intros d' OLD HO ->. apply filter_In in HO. destruct HO as [HO PO].
    now rewrite (Hsel OLD HO PO), update_same_kind.
Qed.

(** * The theorems at work on the small forum *)


Lemma accepted_answers_of_others_stay_witness :
  exists d',
    update_answer_is_accepted (authenticated alice) a2 true forum_accepted = ok d'
    /\ In (Answers.set_is_accepted true answer1) (answers d').
Proof.
  eexists. split; [reflexivity|].
  apply (proj1 accepted_answers_of_others_stay alice a2 true forum_accepted _ eq_refl).
  - left. reflexivity.
  - intros E. discriminate E.
Defined.

Lemma accept_writes_the_rows_of_its_session_witness :
  initial empty_db = true
  /\ exists d',
       update_answer_is_accepted (authenticated bob) a1 true forum = ok d'
       /\ is_accepted_of d' a1 = Some true
       /\ has_accepted_answer_of d' q1 = Some false.
Proof.
  split; [reflexivity|].
  destruct (proj1 accept_writes_the_rows_of_its_session setup empty_db eq_refl
              (authenticated bob) a1 answer1 eq_refl eq_refl eq_refl)
    as [d' [E [H1 [_ H2]]]].
  exists d'. split; [exact E|]. split; [exact H1|].
  exact (H2 question1 eq_refl).
Defined.

Lemma votes_on_rows_of_others_are_not_counted_witness :
  initial empty_db = true
  /\ exec (authenticated bob) (InsertVote vote_of_bob) forum = ok forum_voted
  /\ select_question forum_voted q1 = Some question1.
Proof.
  split; [reflexivity|]. split; [reflexivity|].
  apply (proj1 (proj1 votes_on_rows_of_others_are_not_counted setup empty_db
                  eq_refl bob (InsertVote vote_of_bob) forum_voted
                  eq_refl eq_refl) q1 question1 eq_refl).
  intros E. discriminate E.
Defined.


Lemma unaccept_rechecks_the_questions_of_its_session_witness :
  initial empty_db = true
  /\ exists d',
       update_answer_is_accepted (authenticated bob) a1 false forum_accepted = ok d'
       /\ is_accepted_of d' a1 = Some false
       /\ has_accepted_answer_of d' q1 = Some true.
Proof.
  split; [reflexivity|].
  destruct (proj1 unaccept_rechecks_the_questions_of_its_session
              (setup ++ [(service_role, SetAccepted a1 true)]) empty_db eq_refl
              (authenticated bob) a1 (Answers.set_is_accepted true answer1)
              (Questions.set_has_accepted_answer true question1)
              eq_refl eq_refl eq_refl eq_refl)
    as [d' [E [H1 H2]]].
  exists d'. split; [exact E|]. split; [exact H1|exact H2].
Defined.

Lemma answer_count_follows_the_answers_of_the_owner_witness :
  initial empty_db = true
  /\ (exists d',
        insert_answer (authenticated bob) a3 q1 bob forum = ok d'
        /\ answer_count_of d' q1 = Some 1)
  /\ (exists d',
        delete_answer (authenticated alice) a2 forum = ok d'
        /\ answer_count_of d' q1 = Some 0).
Proof.
  split; [reflexivity|].
  destruct (proj1 answer_count_follows_the_answers_of_the_owner setup empty_db eq_refl)
    as [Hins Hdel].
  split.
  - destruct (Hins (authenticated bob) a3 q1 bob question1
                eq_refl eq_refl eq_refl eq_refl) as [d' [E [_ H]]].
    exists d'. split; [exact E|exact H].
  - destruct (Hdel (authenticated alice) a2 answer2 question1
                eq_refl eq_refl eq_refl) as [d' [E [_ H]]].
    exists d'. split; [exact E|exact H].
Defined.


Lemma update_keeping_kind_is_neutral_witness :
  update_vote (authenticated bob) bob (on_question q1) upvote forum_voted
  = ok forum_voted.
Proof.
  destruct update_keeping_kind_is_neutral as [_ H].
  apply H. intros v Hv _.
  vm_compute in Hv. destruct Hv as [<-|[]]. reflexivity.
Defined.

(** * Further properties *)

(** ** Acceptance flags *)


Lemma view_survives {A V : Type} (view : A -> V) (key : V -> uuid)
    (l l' : list A) :
  NoDup (map key (map view l)) ->
  (forall t, In t (map view l') ->
     In t (map view l) \/ ~ In (key t) (map key (map view l))) ->
  forall x x', In x l -> In x' l' -> key (view x') = key (view x) ->
    view x' = view x.
Proof.
  intros Hnd Hshape x x' Hx Hx' Hk.
  destruct (Hshape (view x') (in_map view _ _ Hx')) as [Hin|Hout].
  - apply (key_inj key (map view l)); auto. now apply in_map.
  - exfalso. apply Hout. rewrite Hk. now apply in_map, in_map.
Qed.

Lemma in_map_filter {A V : Type} (view : A -> V) (g : A -> bool) (l : list A) t :
  In t (map view (filter g l)) -> In t (map view l).
Proof.
  intros H. apply in_map_iff in H. destruct H as [x [<- Hx]].
  apply filter_In in Hx. apply in_map. tauto.
Qed.

Lemma map_key_AA l : map (fun t : uuid * uuid * bool => fst (fst t)) (map AA l)
                     = map Answers.id l.
Proof. rewrite map_map. reflexivity. Qed.

Lemma map_key_QF l : map fst (map QF l) = map Questions.id l.
Proof. rewrite map_map. reflexivity. Qed.

Lemma acceptance_components d qf aa :
  acceptance d = (qf, aa) ->
  map QF (questions d) = qf /\ map AA (answers d) = aa.
Proof. unfold acceptance. intros H. split; congruence. Qed.

Lemma exec_acceptance_shape s st d d' :
  schema_ok d -> writes_is_accepted st = false -> exec s st d = ok d' ->
  (forall t, In t (map AA (answers d')) ->
     In t (map AA (answers d)) \/ ~ In (fst (fst t)) (map Answers.id (answers d)))
  /\ (forall t, In t (map QF (questions d')) ->
        In t (map QF (questions d)) \/ ~ In (fst t) (map Questions.id (questions d))).
Proof.
  intros Hc Hw H.
  assert (Same : acceptance d' = acceptance d ->
    (forall t, In t (map AA (answers d')) ->
       In t (map AA (answers d)) \/ ~ In (fst (fst t)) (map Answers.id (answers d)))
    /\ (forall t, In t (map QF (questions d')) ->
          In t (map QF (questions d)) \/ ~ In (fst t) (map Questions.id (questions d)))).
  { intros E. apply acceptance_components in E. destruct E as [-> ->]. split; auto. }
  destruct st; simpl in Hw, H; try discriminate Hw.
  - unfold handle_new_user in H. destruct (profile_exists d uid); [discriminate|].
    apply ok_inj in H. subst d'. apply Same. reflexivity.
  - unfold insert_question in H.
    destruct (negb _); [discriminate|].
    destruct (question_exists d id) eqn:Eq; [discriminate|].
    destruct (negb _); [discriminate|].
    apply ok_inj in H. subst d'. cbn [questions answers with_questions]. split; auto.
    intros t Ht. rewrite map_app in Ht. apply in_app_iff in Ht.
    destruct Ht as [Ht|[<-|[]]]; auto.
    right. simpl. now apply not_exists_question.
  - destruct (delete_question_cases s id d (schema_pk_questions d Hc))
      as [E|[Q [_ [_ [_ E]]]]];
      rewrite E in H; apply ok_inj in H; subst d'; [apply Same; reflexivity|].
    match goal with
    | |- context [answers ?x] =>
        assert (Hacc : acceptance x
                       = (map QF (filter (fun q => negb (Questions.id q == id)) (questions d)),
                          map AA (filter (fun a => negb (Answers.question_id a == id))
                                         (answers d))))
          by (rewrite delete_votes_acceptance, delete_answers_acceptance; reflexivity)
    end.
    apply acceptance_components in Hacc. destruct Hacc as [-> ->].
    split; intros t Ht; left; eapply in_map_filter; eauto.
  - unfold insert_answer in H.
    destruct (negb _); [discriminate|].
    destruct (answer_exists d id) eqn:Ea; [discriminate|].
    destruct (negb _); [discriminate|].
    apply ok_inj in H. subst d'.
    match goal with
    | |- context [answers ?x] =>
        pose proof (answer_count_acceptance (s:=s)
                      (TgInsert (Answers.mk id question_id user_id 0 0 false))
                      (with_answers
                         (answers d ++ [Answers.mk id question_id user_id 0 0 false]) d))
          as Hacc
    end.
    apply acceptance_components in Hacc. destruct Hacc as [-> ->].
    cbn [questions answers with_answers]. split; auto.
    intros t Ht. rewrite map_app in Ht. apply in_app_iff in Ht.
    destruct Ht as [Ht|[<-|[]]]; auto.
    right. simpl. apply not_exists_answer in Ea. now rewrite map_fst_AK in Ea.
  - unfold delete_answer in H. apply ok_inj in H. subst d'.
    match goal with
    | |- context [delete_answers s ?p d] =>
        pose proof (delete_answers_acceptance (s:=s) p d) as Hacc
    end.
    apply acceptance_components in Hacc. destruct Hacc as [-> ->].
    split; intros t Ht; left; auto. eapply in_map_filter; eauto.
  - unfold insert_vote in H.
    destruct (negb _); [discriminate|]. destruct (negb _); [discriminate|].
    destruct (existsb _ _); [discriminate|]. destruct (negb _); [discriminate|].
    apply ok_inj in H. subst d'. apply Same.
    now rewrite vote_counts_acceptance.
  - unfold delete_vote in H. apply ok_inj in H. subst d'. apply Same.
    apply delete_votes_acceptance.
  - unfold update_vote in H. apply ok_inj in H. subst d'. apply Same.
    apply update_votes_acceptance.
Qed.

(** X4. Only the UPDATE of [answers.is_accepted] writes the acceptance
    flags: any other statement leaves [is_accepted] of every answer and
    [has_accepted_answer] of every question that it does not delete as they
    were. *)
Theorem acceptance_written_by_accept_only
    (reqs : list (session * statement)) (d0 : db) :
  initial d0 = true ->
  let d := run reqs d0 in
  forall s st d',
    writes_is_accepted st = false -> exec s st d = ok d' ->
    (forall a a', In a (answers d) -> In a' (answers d') ->
       Answers.id a' = Answers.id a ->
       Answers.is_accepted a' = Answers.is_accepted a)
    /\ (forall q q', In q (questions d) -> In q' (questions d') ->
          Questions.id q' = Questions.id q ->
          Questions.has_accepted_answer q' = Questions.has_accepted_answer q).
Proof.
  intros Hi d s st d' Hw H.
  destruct (reachable_invariants reqs d0 Hi) as [Hc _]. fold d in Hc.
  destruct (exec_acceptance_shape s st d d' Hc Hw H) as [Ha Hq].
  split.
  - intros a a' Hin Hin' Hid.
    assert (E : AA a' = AA a).
    { apply (view_survives AA (fun t => fst (fst t)) (answers d) (answers d')); auto.
      - rewrite map_key_AA. now apply schema_pk_answers.
      - intros t Ht. rewrite map_key_AA. auto. }
    unfold AA in E. congruence.
  - intros q q' Hin Hin' Hid.
    assert (E : QF q' = QF q).
    { apply (view_survives QF fst (questions d) (questions d')); auto.
      - rewrite map_key_QF. now apply schema_pk_questions.
      - intros t Ht. rewrite map_key_QF. auto. }
    unfold QF in E. congruence.
Qed.

(** X8. Deleting a question, for a session the delete policy admits,
    removes the question, its answers and the votes on either, and leaves
    every other row as it was; for any other session nothing changes and no
    error is raised. *)
Theorem delete_question_removes_its_subtree
    (reqs : list (session * statement)) (d0 : db) :
  initial d0 = true ->
  let d := run reqs d0 in
  forall s qid Q,
    select_question d qid = Some Q ->
    delete_question s qid d
    = ok (if policy_delete s d (Questions.user_id Q)
          then without_question qid d else d).
Proof.
  intros Hi d s qid Q Hsel.
  destruct (reachable_invariants reqs d0 Hi) as [Hc _]. fold d in Hc.
  destruct (policy_delete s d (Questions.user_id Q)) eqn:Hpol.
  - now apply (delete_question_closed s qid Q).
  - pose proof (schema_pk_questions d Hc) as Hnd.
    destruct (delete_question_cases s qid d Hnd) as [E|[Q' [HQ' [Hid' [Hpol' _]]]]]; auto.
    apply find_key_in in Hsel. destruct Hsel as [HQ Hid].
    assert (Q' = Q) by (apply (key_inj Questions.id (questions d)); auto; congruence).
    subst Q'. congruence.
Qed.

(** X9. Deleting an answer, for a session the delete policy admits,
    removes the answer and the votes on it, takes one off [answer_count] of
    its question when the session may update that question, and leaves every
    other row as it was; for any other session nothing changes and no error
    is raised. *)
Theorem delete_answer_removes_its_votes
    (reqs : list (session * statement)) (d0 : db) :
  initial d0 = true ->
  let d := run reqs d0 in
  forall s aid A,
    select_answer d aid = Some A ->
    delete_answer s aid d
    = ok (if policy_delete s d (Answers.user_id A)
          then without_answer s A d else d).
Proof.
  intros Hi d s aid A Hsel.
  destruct (reachable_invariants reqs d0 Hi) as [Hc _]. fold d in Hc.
  pose proof Hc as Hs.
  apply find_key_in in Hsel. destruct Hsel as [HA Hid].
  destruct (delete_answer_cases s aid d Hs) as [E|[A' [HA' [Hid' [Hpol' E]]]]].
  - destruct (policy_delete s d (Answers.user_id A)) eqn:Hpol; auto.
    exfalso. unfold delete_answer in E. apply ok_inj in E.
    assert (Hin : In A (answers (delete_answers s
                    (fun a => (Answers.id a == aid)
                              && policy_delete s d (Answers.user_id a)) d)))
      by (rewrite E; exact HA).
    apply (in_map AK) in Hin.
    pose proof (delete_answers_keys (s:=s)
                  (fun a => (Answers.id a == aid)
                            && policy_delete s d (Answers.user_id a)) d) as K.
    apply keys_components in K. destruct K as [_ [_ [K _]]].
    rewrite K in Hin. apply in_map_iff in Hin. destruct Hin as [a [Hk Hin]].
    apply filter_In in Hin. destruct Hin as [Hin Hn].
    assert (a = A).
    { apply (key_inj Answers.id (answers d)); auto.
      - now apply schema_pk_answers.
      - unfold AK in Hk. congruence. }
    subst a. now rewrite Hid, String.eqb_refl, Hpol in Hn.
  - assert (A' = A).
    { apply (key_inj Answers.id (answers d)); auto; [|congruence].
      now apply schema_pk_answers. }
    subst A'. now rewrite Hpol'.
Qed.

(** ** Votes: counters, policies, repetition *)

Lemma counter_tallies d d' :
  tallies d' = tallies d -> forall t k, counter d' t k = counter d t k.
Proof.
  unfold tallies. intros H t k.
  assert (Hq : map QV (questions d') = map QV (questions d)) by congruence.
  assert (Ha : map AV (answers d') = map AV (answers d)) by congruence.
  clear H. destruct t as [q|a]; unfold counter, select_question, select_answer.
  - revert Hq. generalize (questions d'). induction (questions d) as [|x l IH];
      intros [|x' l'] H; try discriminate; auto.
    simpl in H. injection H as Hx Hl.
    assert (Hid : Questions.id x' = Questions.id x) by (unfold QV in Hx; congruence).
    assert (Hcnt : Questions.count_of k x' = Questions.count_of k x)
      by (unfold QV in Hx; destruct k; simpl; congruence).
    cbn [find]. rewrite Hid.
    destruct (Questions.id x == q); cbn [option_map]; [congruence|auto].
  - revert Ha. generalize (answers d'). induction (answers d) as [|x l IH];
      intros [|x' l'] H; try discriminate; auto.
    simpl in H. injection H as Hx Hl.
    assert (Hid : Answers.id x' = Answers.id x) by (unfold AV in Hx; congruence).
    assert (Hcnt : Answers.count_of k x' = Answers.count_of k x)
      by (unfold AV in Hx; destruct k; simpl; congruence).
    cbn [find]. rewrite Hid.
    destruct (Answers.id x == a); cbn [option_map]; [congruence|auto].
Qed.

Lemma find_filter_same {A : Type} (key : A -> uuid) (g : A -> bool)
    (l : list A) (i : uuid) (x : A) :
  NoDup (map key l) ->
  find (fun a => key a == i) (filter g l) = Some x ->
  find (fun a => key a == i) l = Some x.
Proof.
  intros Hnd Hx.
  pose proof (find_key_in key i _ x Hx) as [Hin Hk].
  apply filter_In in Hin. destruct Hin as [Hin _].
  destruct (find_key_some key i l) as [y Hy].
  { rewrite <- Hk. now apply in_map. }
  rewrite Hy. f_equal.
  apply find_key_in in Hy. destruct Hy as [Hy Hky].
  apply (key_inj key l); auto. congruence.
Qed.

Lemma counters_survive s st d d' :
  schema_ok d -> writes_votes st = false -> exec s st d = ok d' ->
  forall t k n n',
    counter d t k = Some n -> counter d' t k = Some n' -> n' = n.
Proof.
  intros Hc Hw H t k n n' Hn Hn'.
  pose proof Hc as Hs.
  destruct st; simpl in Hw, H; try discriminate Hw.
  - unfold handle_new_user in H. destruct (profile_exists d uid); [discriminate|].
    apply ok_inj in H. subst d'.
    destruct t; unfold counter, select_question, select_answer in *;
      cbn [questions answers] in Hn'; congruence.
  - unfold insert_question in H.
    destruct (negb _); [discriminate|]. destruct (question_exists d id); [discriminate|].
    destruct (negb _); [discriminate|].
    apply ok_inj in H. subst d'.
    destruct t as [q|a]; unfold counter, select_question, select_answer in *;
      cbn [questions answers with_questions] in Hn'; [|congruence].
    rewrite find_app in Hn'.
    destruct (find _ (questions d)); simpl in *; [congruence|discriminate].
  - destruct (delete_question_cases s id d (schema_pk_questions d Hs))
      as [E|[Q [HQ [Hid [Hpol _]]]]].
    + rewrite E in H. apply ok_inj in H. subst d'. congruence.
    + assert (Hsel : select_question d id = Some Q).
      { destruct (find_key_some Questions.id id (questions d)) as [Q' HQ'].
        - rewrite <- Hid. now apply in_map.
        - unfold select_question. rewrite HQ'. f_equal.
          apply find_key_in in HQ'. destruct HQ' as [HQ' Hid'].
          apply (key_inj Questions.id (questions d)); auto; [|congruence].
          now apply schema_pk_questions. }
      rewrite (delete_question_closed s id Q d Hc Hsel Hpol) in H.
      apply ok_inj in H. subst d'.
      destruct t as [q|a]; unfold counter, select_question, select_answer in *;
        unfold without_question in Hn'; cbn [questions answers] in Hn'.
      * rewrite find_filter_key in Hn'. destruct (q == id); [discriminate|congruence].
      * destruct (find _ (filter _ _)) as [x|] eqn:F; [|discriminate].
        apply find_filter_same in F; [|now apply schema_pk_answers].
        rewrite F in Hn. simpl in *. congruence.
  - unfold insert_answer in H.
    destruct (negb _); [discriminate|]. destruct (answer_exists d id); [discriminate|].
    destruct (negb _); [discriminate|].
    apply ok_inj in H. subst d'.
    rewrite (counter_tallies _ _ (answer_count_tallies _ _)) in Hn'.
    destruct t as [q|a]; unfold counter, select_question, select_answer in *;
      cbn [questions answers with_answers] in Hn'; [congruence|].
    rewrite find_app in Hn'.
    destruct (find _ (answers d)); simpl in *; [congruence|discriminate].
  - destruct (delete_answer_cases s id d Hs) as [E|[A [HA [Hid [Hpol E]]]]];
      rewrite E in H; apply ok_inj in H; subst d'; [congruence|].
    destruct t as [q|a]; unfold counter, select_question, select_answer in *;
      unfold without_answer in Hn'; cbn [questions answers] in Hn'.
    + rewrite (find_map_key Questions.id) in Hn'
        by (intros x; now destruct (_ && _)).
      destruct (find _ (questions d)) as [x|]; simpl in *; [|discriminate].
      destruct ((Questions.id x == Answers.question_id A)
                && policy_update s (Questions.user_id x));
        destruct k; simpl in *; congruence.
    + rewrite find_filter_key in Hn'. destruct (a == Answers.id A); [discriminate|congruence].
  - rewrite (counter_tallies d d') in Hn'; [congruence|].
    eapply update_is_accepted_tallies; eauto.
Qed.

(** X5. Only the statements on [votes] move the vote counters: any other
    statement leaves both counters of every question and answer that it does
    not delete as they were. *)
Theorem vote_counters_written_by_votes_only
    (reqs : list (session * statement)) (d0 : db) :
  initial d0 = true ->
  let d := run reqs d0 in
  forall s st d' t k n n',
    writes_votes st = false -> exec s st d = ok d' ->
    counter d t k = Some n -> counter d' t k = Some n' -> n' = n.
Proof.
  intros Hi d s st d' t k n n' Hw H.
  destruct (reachable_invariants reqs d0 Hi) as [Hc _]. fold d in Hc.
  now apply (counters_survive s st d d').
Qed.

Lemma delete_votes_nothing {s : session} p d :
  (forall v, In v (votes d) -> p v = false) -> delete_votes s p d = d.
Proof.
  intros H. unfold delete_votes. rewrite (filter_none p), filter_all; auto.
  - cbn [fold_left]. apply with_votes_same.
  - intros v Hv. now rewrite H.
Qed.

Lemma update_votes_nothing {s : session} p k d :
  (forall v, In v (votes d) -> p v = false) -> update_votes s p k d = d.
Proof.
  intros H. unfold update_votes. rewrite (filter_none p), update_none; auto.
  cbn [fold_left]. apply with_votes_same.
Qed.

Lemma foreign_vote_unmatched uid u t v :
  u <> uid ->
  vote_matches u t v && policy (authenticated uid) (fun x => x == Votes.user_id v)
  = false.
Proof.
  intros Hne. unfold vote_matches, policy.
  destruct (Votes.user_id v == u) eqn:E1; simpl; auto.
  destruct (uid == Votes.user_id v) eqn:E2; simpl; [|apply andb_false_r].
  apply eqb_true in E1. apply eqb_true in E2. congruence.
Qed.

Lemma filter_map_untouched {A : Type} (keep p : A -> bool) (f : A -> A) (l : list A) :
  (forall x, p x = true -> keep x = false /\ keep (f x) = false) ->
  filter keep (map (fun x => if p x then f x else x) l) = filter keep l.
Proof.
  intros H. induction l as [|x l IH]; cbn [map filter]; auto.
  destruct (p x) eqn:Px.
  - destruct (H x Px) as [-> ->]. exact IH.
  - now rewrite IH.
Qed.

(** X6. A signed-in user reaches the votes of no other user: a vote
    statement leaves the votes of the others as they are, an INSERT in
    another user's name is refused, a DELETE or UPDATE in another user's name
    selects no row. *)
Theorem votes_of_others_are_out_of_reach (uid : uuid) :
  (forall st d d',
     writes_votes st = true -> exec (authenticated uid) st d = ok d' ->
     votes_of_others uid d' = votes_of_others uid d)
  /\ (forall NEW d,
        Votes.user_id NEW <> uid ->
        insert_vote (authenticated uid) NEW d = error insufficient_privilege)
  /\ (forall u t k d,
        u <> uid ->
        delete_vote (authenticated uid) u t d = ok d
        /\ update_vote (authenticated uid) u t k d = ok d).
Proof.
  split; [|split].
  - intros st d d' Hw H. unfold votes_of_others.
    destruct st; cbn [exec writes_votes] in Hw, H; try discriminate Hw.
    + unfold insert_vote in H.
      destruct (negb (policy_insert _ _)) eqn:Hp; [discriminate|].
      destruct (negb (Votes.vote_target_check NEW)); [discriminate|].
      destruct (existsb (vote_collides NEW) (votes d)); [discriminate|].
      destruct (negb (vote_references_ok d NEW)); [discriminate|].
      apply ok_inj in H. subst d'.
      rewrite (keys_votes _ _ (vote_counts_keys _ _)). cbn [votes with_votes].
      rewrite filter_app. cbn [filter].
      apply negb_false_iff in Hp. simpl in Hp.
      rewrite String.eqb_sym, Hp. simpl. apply app_nil_r.
    + unfold delete_vote in H. apply ok_inj in H. subst d'.
      rewrite delete_votes_votes, filter_filter. apply filter_ext. intros v.
      unfold policy_delete_vote, policy. rewrite (String.eqb_sym uid).
      destruct (Votes.user_id v == uid); simpl;
        rewrite ?andb_false_r, ?andb_true_r; reflexivity.
    + unfold update_vote in H. apply ok_inj in H. subst d'.
      rewrite update_votes_votes.
      apply filter_map_untouched. intros v Hp.
      apply andb_true_iff in Hp. destruct Hp as [_ Hp].
      unfold policy_update in Hp. cbn [policy] in Hp.
      cbn [Votes.set_vote_type Votes.user_id].
      rewrite String.eqb_sym, Hp. auto.
  - intros NEW d Hne. unfold insert_vote, policy_insert, policy.
    apply eqb_false in Hne. now rewrite String.eqb_sym, Hne.
  - intros u t k d Hne. split.
    + unfold delete_vote. f_equal. apply delete_votes_nothing.
      intros v _. now apply foreign_vote_unmatched.
    + unfold update_vote. f_equal. apply update_votes_nothing.
      intros v _. now apply foreign_vote_unmatched.
Qed.

(** X7. Removing a vote twice is removing it once, and removing a vote
    that does not exist changes nothing. *)
Theorem delete_vote_twice_is_delete_vote_once (s : session) (u : uuid)
    (t : vote_target) (d : db) :
  (exists d1, delete_vote s u t d = ok d1 /\ delete_vote s u t d1 = ok d1)
  /\ (QuestionDetail.vote_of d u t = None -> delete_vote s u t d = ok d).
Proof.
  split.
  - eexists. split; [reflexivity|].
    unfold delete_vote at 1. f_equal. apply delete_votes_nothing.
    intros v Hv. rewrite delete_votes_votes in Hv. apply filter_In in Hv.
    destruct Hv as [_ Hv]. now apply negb_true_iff in Hv.
  - intros Hnone. unfold delete_vote. f_equal. apply delete_votes_nothing.
    intros v Hv. unfold QuestionDetail.vote_of in Hnone.
    destruct (find (vote_matches u t) (votes d)) eqn:F; [discriminate|].
    now rewrite (find_none _ _ F v Hv).
Qed.

Lemma filter_le_one {A : Type} (P : A -> bool) (l : list A) :
  NoDup l ->
  (forall x y, In x l -> In y l -> P x = true -> P y = true -> x = y) ->
  (length (filter P l) <= 1)%nat.
Proof.
  induction l as [|a l IH]; intros Hnd H; simpl; [lia|].
  inversion Hnd as [|? ? Hnotin Hnd']; subst.
  destruct (P a) eqn:Pa.
  - rewrite (filter_none P l); [simpl; lia|].
    intros x Hx. destruct (P x) eqn:Px; auto.
    exfalso. apply Hnotin. rewrite (H a x); simpl; auto.
  - apply IH; auto. intros x y Hx Hy. apply H; simpl; auto.
Qed.

(** X11. In every reachable state a user holds at most one vote on a
    target. *)
Theorem one_vote_per_user_and_target
    (reqs : list (session * statement)) (d0 : db) (u : uuid) (t : vote_target) :
  initial d0 = true ->
  (length (filter (vote_matches u t) (votes (run reqs d0))) <= 1)%nat.
Proof.
  intros Hi. destruct (reachable_invariants reqs d0 Hi) as [Hc Hwf].
  apply filter_le_one.
  - destruct Hwf as [Hnd _]. now apply NoDup_map_inv in Hnd.
  - intros x y Hx Hy Px Py. symmetry. now apply (matches_unique _ u t x y Hc Hwf).
Qed.

(** ** Votes of two users *)

Lemma map_if_commute {A : Type} (p p' : A -> bool) (f f' : A -> A) (l : list A) :
  (forall x, p (f' x) = p x) -> (forall x, p' (f x) = p' x) ->
  (forall x, f (f' x) = f' (f x)) ->
  map (fun x => if p x then f x else x) (map (fun x => if p' x then f' x else x) l)
  = map (fun x => if p' x then f' x else x) (map (fun x => if p x then f x else x) l).
Proof.
  intros Hp Hp' Hf. rewrite !map_map. apply map_ext. intros x.
  destruct (p x) eqn:Px, (p' x) eqn:Px';
    rewrite ?Hp, ?Hp', ?Px, ?Px'; auto.
Qed.

Lemma insert_triggers_commute s1 s2 v1 v2 d :
  update_vote_counts s1 (TgInsert v1) (update_vote_counts s2 (TgInsert v2) d)
  = update_vote_counts s2 (TgInsert v2) (update_vote_counts s1 (TgInsert v1) d).
Proof.
  unfold update_vote_counts.
  destruct (not_null (Votes.question_id v1)), (not_null (Votes.question_id v2)),
           (not_null (Votes.answer_id v1)), (not_null (Votes.answer_id v2)),
           (vote_type_eqb (Votes.vote_type v1) upvote),
           (vote_type_eqb (Votes.vote_type v2) upvote);
    try reflexivity;
    unfold update_questions, update_answers, with_questions, with_answers;
    cbn [profiles questions answers votes]; f_equal;
    apply map_if_commute; intros []; reflexivity.
Qed.

Lemma vote_counts_votes {s : session} ev d : votes (update_vote_counts s ev d) = votes d.
Proof. apply keys_votes, vote_counts_keys. Qed.

Lemma vote_counts_with_votes {s : session} ev vs d :
  update_vote_counts s ev (with_votes vs d) = with_votes vs (update_vote_counts s ev d).
Proof.
  destruct ev as [NEW|OLD NEW|OLD]; unfold update_vote_counts;
    repeat match goal with
           | |- context [if ?b then _ else _] => destruct b
           end; reflexivity.
Qed.

Lemma references_ok_keys d d' NEW :
  profiles d' = profiles d ->
  map Questions.id (questions d') = map Questions.id (questions d) ->
  map AK (answers d') = map AK (answers d) ->
  vote_references_ok d' NEW = vote_references_ok d NEW.
Proof.
  intros Hp Hq Ha. unfold vote_references_ok, profile_exists.
  rewrite Hp. f_equal; [f_equal|].
  - destruct (Votes.question_id NEW) as [q|]; auto.
    apply (target_exists_keys d d' (on_question q)); auto.
  - destruct (Votes.answer_id NEW) as [a|]; auto.
    apply (target_exists_keys d d' (on_answer a)); auto.
Qed.

Lemma insert_vote_inv s NEW d d' :
  insert_vote s NEW d = ok d' ->
  policy_insert s (Votes.user_id NEW) = true
  /\ Votes.vote_target_check NEW = true
  /\ existsb (vote_collides NEW) (votes d) = false
  /\ vote_references_ok d NEW = true
  /\ d' = update_vote_counts s (TgInsert NEW) (with_votes (votes d ++ [NEW]) d).
Proof.
  unfold insert_vote.
  destruct (policy_insert s (Votes.user_id NEW)); [|discriminate].
  destruct (Votes.vote_target_check NEW); [|discriminate].
  destruct (existsb (vote_collides NEW) (votes d)); [discriminate|].
  destruct (vote_references_ok d NEW); [|discriminate].
  cbn [negb]. intros H. apply ok_inj in H. auto.
Qed.

(** X10. The votes of two users commute: when two INSERTs succeed in one
    order they succeed in the other, and both orders leave the same rows in
    [questions] and [answers]. *)
Theorem votes_of_two_users_commute (s1 s2 : session) (v1 v2 : Votes.row)
    (d d1 d12 : db) :
  Votes.user_id v1 <> Votes.user_id v2 ->
  insert_vote s1 v1 d = ok d1 ->
  insert_vote s2 v2 d1 = ok d12 ->
  exists d2 d21,
    insert_vote s2 v2 d = ok d2
    /\ insert_vote s1 v1 d2 = ok d21
    /\ questions d21 = questions d12
    /\ answers d21 = answers d12
    /\ votes d12 = votes d ++ [v1; v2]
    /\ votes d21 = votes d ++ [v2; v1].
Proof.
  intros Hne H1 H2.
  apply insert_vote_inv in H1. destruct H1 as [P1 [C1 [U1 [R1 E1]]]].
  apply insert_vote_inv in H2. destruct H2 as [P2 [C2 [U2 [R2 E2]]]].
  assert (K1 : keys d1 = keys (with_votes (votes d ++ [v1]) d))
    by (rewrite E1; apply vote_counts_keys).
  apply keys_components in K1. cbn [profiles questions answers votes with_votes] in K1.
  destruct K1 as [Kp [Kq [Ka Kv]]].
  rewrite Kv, existsb_app in U2. apply orb_false_iff in U2. destruct U2 as [U2 U21].
  assert (R2' : vote_references_ok d v2 = true)
    by (rewrite <- R2; symmetry; now apply references_ok_keys).
  set (d2 := update_vote_counts s2 (TgInsert v2) (with_votes (votes d ++ [v2]) d)).
  assert (E2' : insert_vote s2 v2 d = ok d2) by (now apply insert_vote_ok).
  assert (K2 : keys d2 = keys (with_votes (votes d ++ [v2]) d))
    by (apply vote_counts_keys).
  apply keys_components in K2. cbn [profiles questions answers votes with_votes] in K2.
  destruct K2 as [Kp2 [Kq2 [Ka2 Kv2]]].
  set (d21 := update_vote_counts s1 (TgInsert v1) (with_votes (votes d2 ++ [v1]) d2)).
  exists d2, d21.
  assert (E21 : insert_vote s1 v1 d2 = ok d21).
  { apply insert_vote_ok; auto.
    - rewrite Kv2, existsb_app, U1. cbn [existsb orb].
      unfold vote_collides. apply eqb_false in Hne.
      now rewrite String.eqb_sym, Hne.
    - rewrite <- R1. now apply references_ok_keys. }
  repeat split; auto.
  - unfold d21, d2. rewrite E2, E1.
    rewrite !vote_counts_with_votes. cbn [questions with_votes].
    now rewrite insert_triggers_commute.
  - unfold d21, d2. rewrite E2, E1.
    rewrite !vote_counts_with_votes. cbn [answers with_votes].
    now rewrite insert_triggers_commute.
  - rewrite E2, vote_counts_votes. cbn [votes with_votes].
    rewrite Kv, <- app_assoc. reflexivity.
  - unfold d21. rewrite vote_counts_votes. cbn [votes with_votes].
    rewrite Kv2, <- app_assoc. reflexivity.
Qed.

(** ** The handlers of the pages *)

(** X12. When the owner of a question accepts an answer that another user
    wrote, the handler runs to its end and the database is unchanged: the
    update policy on [answers] admits the author of the answer alone. *)
Theorem accepting_an_answer_of_another_user_writes_nothing
    (reqs : list (session * statement)) (d0 : db) :
  initial d0 = true ->
  let d := run reqs d0 in
  forall c qid aid q A,
    select_question d qid = Some q ->
    Questions.user_id q = c ->
    select_answer d aid = Some A ->
    Answers.user_id A <> c ->
    QuestionDetail.handleAcceptAnswer (QuestionDetail.fetch d c qid) aid d
    = (QuestionDetail.completed, d).
Proof.
  intros Hi d c qid aid q A Hq Hown HA Hne.
  destruct (reachable_invariants reqs d0 Hi) as [Hc _]. fold d in Hc.
  pose proof (schema_pk_answers d Hc) as Hnd.
  unfold QuestionDetail.handleAcceptAnswer. rewrite fetch_eq.
  cbn [QuestionDetail.user QuestionDetail.question]. rewrite Hq.
  rewrite Hown, String.eqb_refl. cbn [negb].
  destruct (update_is_accepted_cases (authenticated c) aid true d Hnd)
    as [[E _]|[A' [HA' [Hid' [Hpol _]]]]].
  - now rewrite E.
  - exfalso. apply find_key_in in HA. destruct HA as [HA Hid].
    assert (A' = A) by (apply (key_inj Answers.id (answers d)); auto; congruence).
    subst A'. unfold policy_update, policy in Hpol. apply eqb_true in Hpol.
    now apply Hne.
Qed.

(** An upsert without conflict target is the INSERT: it collides with the
    vote the user already holds on the target. *)
Lemma upsert_collides s NEW d :
  policy_insert s (Votes.user_id NEW) = true ->
  Votes.vote_target_check NEW = true ->
  existsb (vote_collides NEW) (votes d) = true ->
  upsert_vote s None NEW d = error unique_violation.
Proof.
  intros Hp Hc Hu. unfold upsert_vote, insert_vote. now rewrite Hp, Hc, Hu.
Qed.

Lemma held_vote_matches d p t K :
  QuestionDetail.vote_of d p t = Some K ->
  existsb (vote_matches p t) (votes d) = true.
Proof.
  unfold QuestionDetail.vote_of. intros Hv.
  destruct (find (vote_matches p t) (votes d)) as [w|] eqn:F; [|discriminate].
  apply find_some in F. apply existsb_exists. eauto.
Qed.

(** X13. A vote request of the other kind than the vote the user holds is
    rejected with [unique_violation] and changes nothing: the upsert names no
    conflict target. *)
Theorem switching_a_vote_is_rejected (d : db) (p qid : uuid)
    (answerId : option uuid) (K K' : vote_type) :
  on_page d qid answerId = true ->
  QuestionDetail.vote_of d p (requested_target qid answerId) = Some K' ->
  K' <> K ->
  QuestionDetail.handleVote (QuestionDetail.fetch d p qid) K answerId d
  = (QuestionDetail.caught unique_violation, d).
Proof.
  intros Hpage Hv Hne.
  rewrite (handle_vote_cases _ p) by (now rewrite fetch_eq).
  rewrite current_vote.
  assert (Hid : QuestionDetail.id (QuestionDetail.fetch d p qid) = qid)
    by (now rewrite fetch_eq).
  rewrite Hid.
  assert (Hkeep : match (if QuestionDetail.truthy answerId then None
                         else QuestionDetail.vote_of d p (on_question qid)) with
                  | Some k => vote_type_eqb k K
                  | None => false
                  end = false).
  { unfold requested_target in Hv.
    destruct (QuestionDetail.truthy answerId); auto.
    rewrite Hv. destruct K', K; simpl; congruence. }
  rewrite Hkeep.
  change (insert_vote (authenticated p) (requested_row p qid answerId K) d)
    with (upsert_vote (authenticated p) None (requested_row p qid answerId K) d).
  rewrite upsert_collides; [reflexivity| | |].
  - simpl. apply String.eqb_refl.
  - unfold requested_row, Votes.vote_target_check, QuestionDetail.or_null. simpl.
    destruct (QuestionDetail.truthy answerId) eqn:T; simpl; auto.
    destruct answerId; [reflexivity|discriminate].
  - rewrite (existsb_pointwise _ (vote_matches p (requested_target qid answerId)))
      by (intros w; apply requested_row_matches).
    now apply (held_vote_matches d p _ K').
Qed.

(** X14. The vote button of a question card: the vote the user holds is
    removed, a first vote is inserted, a vote of the other kind is rejected
    with [unique_violation], and nothing is issued while a request is
    pending. *)
Theorem card_vote_button (d : db) (uid : uuid) (Q : Questions.row)
    (K : vote_type) :
  let t := on_question (Questions.id Q) in
  let current := QuestionDetail.vote_of d uid t in
  let r := QuestionCard.handleVote (Some uid) false Q current K d in
  (current = Some K ->
   fst r = QuestionDetail.completed
   /\ QuestionDetail.vote_of (snd r) uid t = None)
  /\ (current = None ->
      profile_exists d uid = true -> question_exists d (Questions.id Q) = true ->
      fst r = QuestionDetail.completed
      /\ QuestionDetail.vote_of (snd r) uid t = Some K)
  /\ (forall K', current = Some K' -> K' <> K ->
        r = (QuestionDetail.caught unique_violation, d))
  /\ (forall user kind,
        QuestionCard.handleVote user true Q kind K d = (QuestionDetail.returned, d)).
Proof.
  intros t current r. subst r. unfold QuestionCard.handleVote. cbv beta iota.
  split; [|split; [|split]].
  - intros Hv. rewrite Hv.
    replace (vote_type_eqb K K) with true by (now destruct K).
    destruct (delete_vote_effect uid t d) as [d' [E Hnone]].
    fold t. rewrite E. now split.
  - intros Hv Hp Hq. rewrite Hv.
    destruct (request_inserts uid (Questions.id Q) None K d Hv Hp Hq) as [E Hk].
    change (upsert_vote (authenticated uid) None
              (Votes.mk uid (Some (Questions.id Q)) None K) d)
      with (insert_vote (authenticated uid)
              (requested_row uid (Questions.id Q) None K) d).
    rewrite E. now split.
  - intros K' Hv Hne. rewrite Hv.
    replace (vote_type_eqb K' K) with false
      by (destruct K', K; simpl; congruence).
    rewrite upsert_collides; [reflexivity| | |].
    + simpl. apply String.eqb_refl.
    + reflexivity.
    + rewrite (existsb_pointwise _ (vote_matches uid (on_question (Questions.id Q)))).
      * now apply (held_vote_matches d uid _ K').
      * intros w. apply (requested_row_matches uid (Questions.id Q) None K w).
  - intros [u|] kind; reflexivity.
Qed.

Lemma fetched_admin d uid :
  QuestionCard.isAdmin (useProfile.fetchProfile (Some uid) d) = true ->
  admin_exists d uid = true.
Proof.
  unfold QuestionCard.isAdmin, useProfile.fetchProfile, admin_exists.
  destruct (filter _ (profiles d)) as [|p [|p' l]] eqn:F; try discriminate.
  intros Hadm. apply existsb_exists. exists p.
  assert (In p (filter (fun p => Profiles.user_id p == uid) (profiles d)))
    by (rewrite F; now left).
  apply filter_In in H. destruct H as [Hin Hu]. split; auto.
  now rewrite Hu, Hadm.
Qed.

(** X15. The delete button of a question card agrees with the delete
    policy: with the profile the hook has fetched, the handler deletes the
    question and what hangs under it when the user is the author or an
    admin, and returns without a statement otherwise. *)
Theorem delete_button_agrees_with_the_policy
    (reqs : list (session * statement)) (d0 : db) :
  initial d0 = true ->
  let d := run reqs d0 in
  forall uid qid Q,
    select_question d qid = Some Q ->
    let profile := useProfile.fetchProfile (Some uid) d in
    QuestionCard.handleDelete (Some uid) profile false Q d
    = if QuestionCard.canDelete (Some uid) profile Q
      then (QuestionDetail.completed, without_question qid d)
      else (QuestionDetail.returned, d).
Proof.
  intros Hi d uid qid Q Hsel profile.
  destruct (reachable_invariants reqs d0 Hi) as [Hc _]. fold d in Hc.
  unfold QuestionCard.handleDelete.
  destruct (QuestionCard.canDelete (Some uid) profile Q) eqn:Hcan; auto.
  cbn [negb orb].
  pose proof (find_key_in Questions.id qid _ Q Hsel) as [_ Hid]. rewrite Hid.
  rewrite (delete_question_closed (authenticated uid) qid Q d Hc Hsel); auto.
  unfold policy_delete, policy.
  unfold QuestionCard.canDelete, QuestionCard.isAuthor in Hcan.
  apply orb_true_iff in Hcan. destruct Hcan as [Ha|Hadm].
  - now rewrite Ha.
  - rewrite (fetched_admin d uid Hadm). apply orb_true_r.
Qed.

Lemma flagged_hides_accept d u qid q b :
  select_question d qid = Some q ->
  Questions.has_accepted_answer q = true ->
  QuestionDetail.acceptButton (QuestionDetail.fetch d u qid) b = false.
Proof.
  intros Hq Hf. unfold QuestionDetail.acceptButton. rewrite fetch_eq.
  cbn [QuestionDetail.question]. rewrite Hq, Hf. apply andb_false_r.
Qed.

(** X16. Once a question is flagged as having an accepted answer, the Accept
    button is rendered under none of its answers, and no statement other
    than a write of [is_accepted] brings it back: not the deletion of the
    accepted answer either. *)
Theorem accept_is_offered_until_the_first_accept
    (reqs : list (session * statement)) (d0 : db) :
  initial d0 = true ->
  let d := run reqs d0 in
  forall qid q,
    select_question d qid = Some q ->
    Questions.has_accepted_answer q = true ->
    (forall u b, QuestionDetail.acceptButton (QuestionDetail.fetch d u qid) b = false)
    /\ (forall s st d',
          writes_is_accepted st = false -> exec s st d = ok d' ->
          forall u b,
            QuestionDetail.acceptButton (QuestionDetail.fetch d' u qid) b = false).
Proof.
  intros Hi d qid q Hq Hf.
  destruct (reachable_invariants reqs d0 Hi) as [Hc _]. fold d in Hc.
  pose proof (find_key_in Questions.id qid _ q Hq) as [Hqin Hqid].
  split.
  - intros u b. now apply (flagged_hides_accept d u qid q).
  - intros s st d' Hw H u b.
    destruct (exec_acceptance_shape s st d d' Hc Hw H) as [_ Hshape].
    destruct (select_question d' qid) as [q'|] eqn:Hq'.
    + apply (flagged_hides_accept d' u qid q' b Hq').
      pose proof (find_key_in Questions.id qid _ q' Hq') as [Hin' Hid'].
      assert (E : QF q' = QF q).
      { apply (view_survives QF fst (questions d) (questions d')); auto.
        - rewrite map_key_QF. now apply schema_pk_questions.
        - intros t Ht. rewrite map_key_QF. auto.
        - unfold QF. simpl. congruence. }
      unfold QF in E. congruence.
    + unfold QuestionDetail.acceptButton. rewrite fetch_eq.
      cbn [QuestionDetail.question]. now rewrite Hq'.
Qed.

(** X17. Submitting an answer: a blank text issues no statement; any other
    text (of 7-bit characters, on which [JS.trim] is JavaScript's) appends
    the answer, not accepted and with no votes, and adds one to
    [answer_count] of the page's question when the user owns that question,
    and to no [answer_count] otherwise; when the question is gone the insert
    is rejected with [foreign_key_violation]. *)
Theorem submitting_an_answer (d : db) (uid qid new : uuid) (newAnswer : String.string) :
  let r := QuestionDetail.handleSubmitAnswer (QuestionDetail.fetch d uid qid)
             newAnswer new d in
  (JS.trim newAnswer = String.EmptyString -> r = (QuestionDetail.returned, d))
  /\ (Forall seven_bit (chars newAnswer) ->
      JS.trim newAnswer <> String.EmptyString ->
      profile_exists d uid = true -> answer_exists d new = false ->
      if question_exists d qid
      then fst r = QuestionDetail.completed
           /\ answers (snd r) = answers d ++ [Answers.mk new qid uid 0 0 false]
           /\ forall q Q,
                select_question d q = Some Q ->
                answer_count_of (snd r) q
                = Some (if (q == qid) && (uid == Questions.user_id Q)
                        then Questions.answer_count Q + 1
                        else Questions.answer_count Q)
      else r = (QuestionDetail.caught foreign_key_violation, d)).
Proof.
  intros r. subst r. unfold QuestionDetail.handleSubmitAnswer. rewrite fetch_eq.
  cbn [QuestionDetail.user QuestionDetail.id]. split.
  - intros ->. reflexivity.
  - intros _ Hne Hp Hfresh. apply eqb_false in Hne. rewrite Hne.
    destruct (question_exists d qid) eqn:Hq.
    + destruct (insert_answer_effect (authenticated uid) new qid uid d)
        as [d' [E [Ha [_ [_ Hn]]]]]; auto.
      { simpl. apply String.eqb_refl. }
      rewrite E. cbn [QuestionDetail.settle fst snd].
      split; [reflexivity|]. split; [exact Ha|].
      intros q Q HQ. unfold answer_count_of, select_question. rewrite Hn.
      rewrite (find_map_key Questions.id) by (intros x; now destruct (_ && _)).
      fold (select_question d q). rewrite HQ.
      apply find_key_in in HQ. destruct HQ as [_ HQ].
      cbn [option_map policy_update policy]. rewrite HQ.
      now destruct ((q == qid) && (uid == Questions.user_id Q)).
    + unfold insert_answer.
      replace (policy_insert (authenticated uid) uid) with true
        by (simpl; now rewrite String.eqb_refl).
      now rewrite Hfresh, Hq.
Qed.

(** X18. [updateProfile] lets a user write the role of their own profile
    and of no other: after writing [admin] the delete policies admit that
    user for every row. *)
Theorem role_is_writable_by_the_profile_owner (d : db) (uid : uuid) :
  profile_exists d uid = true ->
  let r := useProfile.updateProfile (Some uid) admin d in
  fst r = useProfile.updated
  /\ admin_exists (snd r) uid = true
  /\ (forall owner, policy_delete (authenticated uid) (snd r) owner = true)
  /\ questions (snd r) = questions d
  /\ answers (snd r) = answers d
  /\ votes (snd r) = votes d
  /\ (forall other role, other <> uid ->
        update_profile_role (authenticated uid) other role d = ok d).
Proof.
  intros Hp r. subst r. unfold useProfile.updateProfile, update_profile_role.
  cbn [fst snd questions answers votes].
  assert (Hadm : admin_exists
                   (mkdb (map (fun p => if (Profiles.user_id p == uid)
                                           && policy_update (authenticated uid)
                                                (Profiles.user_id p)
                                        then Profiles.mk (Profiles.user_id p) admin
                                        else p) (profiles d))
                         (questions d) (answers d) (votes d)) uid = true).
  { unfold admin_exists, profile_exists in *. cbn [profiles].
    apply existsb_exists in Hp. destruct Hp as [p [Hin Hu]].
    apply existsb_exists.
    exists (Profiles.mk (Profiles.user_id p) admin). split.
    - apply in_map_iff. exists p. split; auto.
      unfold policy_update, policy. apply eqb_true in Hu.
      now rewrite Hu, String.eqb_refl.
    - simpl. now rewrite Hu. }
  repeat split; auto.
  - intros owner. unfold policy_delete, policy. rewrite Hadm. apply orb_true_r.
  - intros other role Hne. f_equal. rewrite update_none.
    + apply db_eta.
    + intros p _. unfold policy_update, policy.
      destruct (Profiles.user_id p == other) eqn:E1; auto.
      destruct (uid == Profiles.user_id p) eqn:E2; auto.
      apply eqb_true in E1. apply eqb_true in E2. congruence.
Qed.

(** ** Initials *)

Ltac each_char c :=
  destruct c as [[] [] [] [] [] [] [] []].

Lemma upper_idem c : JS.upper (JS.upper c) = JS.upper c.
Proof. each_char c; reflexivity. Qed.

Lemma lower_idem c : JS.lower (JS.lower c) = JS.lower c.
Proof. each_char c; reflexivity. Qed.

Lemma upper_space c : JS.upper c = space -> c = space.
Proof. each_char c; vm_compute; congruence. Qed.

Lemma isWhiteSpace_lower c : JS.isWhiteSpace (JS.lower c) = JS.isWhiteSpace c.
Proof. each_char c; reflexivity. Qed.

Lemma chars_map f s : chars (JS.map_chars f s) = map f (chars s).
Proof. induction s as [|c s IH]; simpl; auto. now rewrite <- IH. Qed.

Lemma substring_length m : forall s, (String.length (String.substring 0 m s) <= m)%nat.
Proof.
  induction m as [|m IH]; intros [|c s]; simpl; try lia.
  specialize (IH s). lia.
Qed.

Lemma substring_empty s : String.substring 0 0 s = String.EmptyString.
Proof. now destruct s. Qed.

Lemma substring_chars m : forall s c,
  In c (chars (String.substring 0 m s)) -> In c (chars s).
Proof.
  induction m as [|m IH]; intros [|c' s] c; simpl; auto; try tauto.
  intros [->|H]; auto.
Qed.

Lemma split_words sep s :
  forall w, In w (JS.split sep s) -> ~ In sep (chars w).
Proof.
  induction s as [|c s IH]; simpl.
  - intros w [<-|[]]. simpl. tauto.
  - destruct (Ascii.eqb c sep) eqn:E.
    + intros w [<-|H]; simpl; auto.
    + destruct (JS.split sep s) as [|w0 ws] eqn:S.
      * intros w [<-|[]]. simpl. intros [->|[]].
        now rewrite Ascii.eqb_refl in E.
      * intros w [<-|H].
        -- simpl. intros [->|H]; [now rewrite Ascii.eqb_refl in E|].
           apply (IH w0); simpl; auto.
        -- apply IH. simpl. auto.
Qed.

Lemma split_word sep w :
  ~ In sep (chars w) -> JS.split sep w = [w].
Proof.
  induction w as [|c w IH]; simpl; auto.
  intros H. destruct (Ascii.eqb c sep) eqn:E.
  - apply Ascii.eqb_eq in E. tauto.
  - rewrite IH; auto.
Qed.

Lemma split_app sep w s :
  ~ In sep (chars w) ->
  JS.split sep (String.append w (String.String sep s)) = w :: JS.split sep s.
Proof.
  induction w as [|c w IH]; simpl.
  - intros _. now rewrite Ascii.eqb_refl.
  - intros H. destruct (Ascii.eqb c sep) eqn:E.
    + apply Ascii.eqb_eq in E. tauto.
    + rewrite IH; auto.
Qed.

Lemma split_head sep c s :
  Ascii.eqb c sep = false ->
  exists w ws, JS.split sep (String.String c s) = String.String c w :: ws.
Proof.
  intros E. simpl. rewrite E.
  destruct (JS.split sep s) as [|w ws]; eauto.
Qed.

Lemma join_chars ws c :
  In c (chars (JS.join (map JS.first ws))) ->
  exists w, In w ws /\ In c (chars w).
Proof.
  induction ws as [|w ws IH]; simpl; [tauto|].
  destruct w as [|c' w]; simpl.
  - intros H. destruct (IH H) as [x [Hx Hc]]. eauto.
  - intros [->|H].
    + exists (String.String c w). simpl. auto.
    + destruct (IH H) as [x [Hx Hc]]. eauto.
Qed.

Lemma split_blank sep s :
  Forall (eq sep) (chars s) ->
  Forall (eq String.EmptyString) (JS.split sep s).
Proof.
  induction s as [|c s IH]; simpl; intros H.
  - repeat constructor.
  - inversion H as [|? ? Hc Hs]; subst. rewrite Ascii.eqb_refl.
    constructor; auto.
Qed.

Lemma join_blank ws :
  Forall (eq String.EmptyString) ws -> JS.join (map JS.first ws) = String.EmptyString.
Proof.
  induction 1 as [|w ws <- _ IH]; simpl; auto.
Qed.

(** X19. [getInitials] returns at most two characters, none of them a
    space or a lower-case letter, and the empty string for a name made of
    spaces. *)
Theorem initials_are_short_and_upper_case (name : String.string) :
  let r := QuestionDetail.getInitials name in
  (String.length r <= 2)%nat
  /\ Forall (fun c => c <> space /\ JS.upper c = c) (chars r)
  /\ (Forall (eq space) (chars name) -> r = String.EmptyString).
Proof.
  intros r. subst r. unfold QuestionDetail.getInitials, JS.slice.
  cbn [Nat.sub]. fold space. split; [apply substring_length|split].
  - apply Forall_forall. intros c Hc.
    apply substring_chars in Hc. unfold JS.toUpperCase in Hc.
    rewrite chars_map in Hc. apply in_map_iff in Hc. destruct Hc as [c0 [<- Hc0]].
    split; [|apply upper_idem].
    intros E. apply upper_space in E. subst c0.
    apply join_chars in Hc0. destruct Hc0 as [w [Hw Hc0]].
    now apply (split_words space name w).
  - intros Hb. rewrite (join_blank _ (split_blank space name Hb)). reflexivity.
Qed.

(** X20. [getInitials] of a first and a last name whose initials are 7-bit
    characters is their two initials in upper case; of a single word with a
    7-bit initial, its initial in upper case. *)
Theorem initials_of_first_and_last_name (c1 c2 : Ascii.ascii)
    (w1 rest : String.string) :
  seven_bit c1 -> seven_bit c2 ->
  c1 <> space -> c2 <> space -> ~ In space (chars w1) ->
  QuestionDetail.getInitials (two_words (String.String c1 w1) c2 rest)
  = String.String (JS.upper c1) (String.String (JS.upper c2) String.EmptyString)
  /\ QuestionDetail.getInitials (String.String c1 w1)
     = String.String (JS.upper c1) String.EmptyString.
Proof.
  intros _ _.
  intros H1 H2 Hw.
  assert (Hw1 : ~ In space (chars (String.String c1 w1))).
  { simpl. intros [E|E]; [now apply H1|now apply Hw]. }
  unfold QuestionDetail.getInitials, two_words. fold space. split.
  - rewrite split_app by exact Hw1.
    destruct (split_head space c2 rest) as [w [ws ->]].
    { now apply Ascii.eqb_neq. }
    unfold JS.slice, JS.toUpperCase. cbn [map JS.first JS.join JS.map_chars Nat.sub].
    cbn [String.substring]. now rewrite substring_empty.
  - rewrite split_word by exact Hw1. reflexivity.
Qed.

(** ** Tags *)

Lemma map_chars_empty f s :
  JS.map_chars f s = String.EmptyString <-> s = String.EmptyString.
Proof. destruct s; simpl; split; congruence. Qed.

Lemma toLowerCase_idem s : JS.toLowerCase (JS.toLowerCase s) = JS.toLowerCase s.
Proof.
  unfold JS.toLowerCase. induction s as [|c s IH]; simpl; auto.
  now rewrite lower_idem, IH.
Qed.

Lemma trimStart_lower s :
  JS.trimStart (JS.toLowerCase s) = JS.toLowerCase (JS.trimStart s).
Proof.
  unfold JS.toLowerCase. induction s as [|c s IH]; simpl; auto.
  rewrite isWhiteSpace_lower. destruct (JS.isWhiteSpace c); auto.
Qed.

Lemma trimEnd_lower s :
  JS.trimEnd (JS.toLowerCase s) = JS.toLowerCase (JS.trimEnd s).
Proof.
  unfold JS.toLowerCase. induction s as [|c s IH]; simpl; auto.
  rewrite IH, isWhiteSpace_lower.
  destruct (JS.trimEnd s); simpl; auto.
  destruct (JS.isWhiteSpace c); auto.
Qed.

Lemma trimEnd_idem s : JS.trimEnd (JS.trimEnd s) = JS.trimEnd s.
Proof.
  induction s as [|c s IH]; simpl; auto.
  destruct (JS.trimEnd s) as [|a t] eqn:E.
  - destruct (JS.isWhiteSpace c) eqn:W; simpl; auto. now rewrite W.
  - cbn [JS.trimEnd]. cbn [JS.trimEnd] in IH. now rewrite IH.
Qed.

Lemma trimStart_head s :
  JS.trimStart s = String.EmptyString
  \/ exists c t, JS.trimStart s = String.String c t /\ JS.isWhiteSpace c = false.
Proof.
  induction s as [|c s IH]; simpl; auto.
  destruct (JS.isWhiteSpace c) eqn:W; auto. right. eauto.
Qed.

Lemma trimEnd_head c t :
  JS.isWhiteSpace c = false ->
  exists t', JS.trimEnd (String.String c t) = String.String c t'.
Proof.
  intros W. simpl. destruct (JS.trimEnd t); rewrite ?W; eauto.
Qed.

Lemma trim_idem s : JS.trim (JS.trim s) = JS.trim s.
Proof.
  unfold JS.trim. destruct (trimStart_head s) as [->|[c [t [-> W]]]]; auto.
  destruct (trimEnd_head c t W) as [t' E]. rewrite E.
  cbn [JS.trimStart]. rewrite W, <- E. apply trimEnd_idem.
Qed.

Lemma trim_lower s : JS.trim (JS.toLowerCase s) = JS.toLowerCase (JS.trim s).
Proof. unfold JS.trim. now rewrite trimStart_lower, trimEnd_lower. Qed.

Lemma typed_tag_normalised st :
  JS.trim (AskQuestion.currentTag st) <> String.EmptyString ->
  normalised (typed_tag st).
Proof.
  intros H. unfold normalised, typed_tag. repeat split.
  - intros E. apply map_chars_empty in E. now apply H.
  - now rewrite trim_lower, trim_idem.
  - apply toLowerCase_idem.
Qed.

Lemma includes_In l x : JS.includes l x = true <-> In x l.
Proof.
  unfold JS.includes. rewrite existsb_exists. split.
  - intros [y [Hy E]]. apply eqb_true in E. now subst.
  - intros H. exists x. split; auto. apply String.eqb_refl.
Qed.

Lemma includes_not_In l x : JS.includes l x = false <-> ~ In x l.
Proof.
  rewrite <- includes_In. destruct (JS.includes l x); split; congruence.
Qed.

(** [addTag] either stores the typed tag or does nothing. *)
Lemma addTag_cases st :
  (JS.trim (AskQuestion.currentTag st) <> String.EmptyString
   /\ ~ In (JS.trim (AskQuestion.currentTag st)) (AskQuestion.tags st)
   /\ (length (AskQuestion.tags st) < 5)%nat
   /\ AskQuestion.tags (AskQuestion.addTag st)
      = AskQuestion.tags st ++ [typed_tag st])
  \/ AskQuestion.addTag st = st.
Proof.
  unfold AskQuestion.addTag.
  destruct (JS.trim (AskQuestion.currentTag st) == String.EmptyString) eqn:E;
    cbn [negb andb]; auto.
  destruct (JS.includes _ _) eqn:I; cbn [negb andb]; auto.
  destruct (Nat.ltb_spec (length (AskQuestion.tags st)) 5); auto.
  left. repeat split; auto.
  - now apply eqb_false.
  - now apply includes_not_In.
Qed.

(** X21. Whatever is typed, added and removed, the tag editor holds at
    most five tags, each of them non-empty, trimmed and in lower case. *)
Theorem tags_stay_few_and_normalised (events : list AskQuestion.event) :
  let st := tag_editor events in
  (length (AskQuestion.tags st) <= 5)%nat
  /\ Forall normalised (AskQuestion.tags st).
Proof.
  unfold tag_editor.
  assert (G : forall st,
             (length (AskQuestion.tags st) <= 5)%nat
             /\ Forall normalised (AskQuestion.tags st) ->
             (length (AskQuestion.tags (fold_left AskQuestion.handle events st)) <= 5)%nat
             /\ Forall normalised
                  (AskQuestion.tags (fold_left AskQuestion.handle events st))).
  { induction events as [|e events IH]; intros st H; auto.
    cbn [fold_left]. apply IH. destruct H as [Hl Hn].
    destruct e as [value| |tag]; cbn [AskQuestion.handle].
    - auto.
    - destruct (addTag_cases st) as [[Hne [_ [Hlt ->]]]| ->]; auto.
      split.
      + rewrite length_app. simpl. lia.
      + apply Forall_app. split; auto. constructor; auto.
        now apply typed_tag_normalised.
    - cbn [AskQuestion.removeTag AskQuestion.tags]. split.
      + pose proof (filter_length_le (fun t => negb (t == tag)) (AskQuestion.tags st)).
        lia.
      + apply Forall_forall. intros t Ht. apply filter_In in Ht.
        rewrite Forall_forall in Hn. apply Hn. tauto. }
  apply G. simpl. split; [lia|constructor].
Qed.

(** X22. [addTag] compares the typed text before lowering its case: tags
    stay distinct when the text is typed in lower case, and a text that
    differs from a stored tag by its case alone is stored a second time. *)
Theorem typing_the_case_of_a_tag (st : AskQuestion.state) :
  let typed := JS.trim (AskQuestion.currentTag st) in
  (NoDup (AskQuestion.tags st) -> JS.toLowerCase typed = typed ->
   NoDup (AskQuestion.tags (AskQuestion.addTag st)))
  /\ (typed <> String.EmptyString ->
      ~ In typed (AskQuestion.tags st) ->
      (length (AskQuestion.tags st) < 5)%nat ->
      In (JS.toLowerCase typed) (AskQuestion.tags st) ->
      ~ NoDup (AskQuestion.tags (AskQuestion.addTag st))).
Proof.
  intros typed. split.
  - intros Hnd Hlow.
    destruct (addTag_cases st) as [[_ [Hnot [_ ->]]]| ->]; auto.
    apply NoDup_snoc; auto. unfold typed_tag. fold typed. now rewrite Hlow.
  - intros Hne Hnot Hlt Hin Hnd.
    unfold AskQuestion.addTag in Hnd. fold typed in Hnd.
    apply eqb_false in Hne. apply includes_not_In in Hnot.
    apply Nat.ltb_lt in Hlt. rewrite Hne, Hnot, Hlt in Hnd.
    cbn [negb andb AskQuestion.tags] in Hnd.
    apply NoDup_remove_2 in Hnd. apply Hnd. now rewrite app_nil_r.
Qed.

(** X23. [removeTag] removes every occurrence of a tag and nothing else,
    and undoes the [addTag] of a tag that was not there. *)
Theorem removing_a_tag (st : AskQuestion.state) (t : String.string) :
  ~ In t (AskQuestion.tags (AskQuestion.removeTag t st))
  /\ (forall t', t' <> t ->
        (In t' (AskQuestion.tags (AskQuestion.removeTag t st))
         <-> In t' (AskQuestion.tags st)))
  /\ (~ In t (AskQuestion.tags st) -> AskQuestion.removeTag t st = st)
  /\ (~ In (typed_tag st) (AskQuestion.tags st) ->
      AskQuestion.tags (AskQuestion.removeTag (typed_tag st) (AskQuestion.addTag st))
      = AskQuestion.tags st).
Proof.
  assert (Absent : forall l x, ~ In x l -> filter (fun tag => negb (tag == x)) l = l).
  { intros l x H. apply filter_all. intros y Hy. apply negb_true_iff, eqb_false.
    intros ->. now apply H. }
  split; [|split; [|split]].
  - cbn [AskQuestion.removeTag AskQuestion.tags]. intros H.
    apply filter_In in H. destruct H as [_ H].
    now rewrite String.eqb_refl in H.
  - intros t' Hne. cbn [AskQuestion.removeTag AskQuestion.tags]. split.
    + intros H. apply filter_In in H. tauto.
    + intros Hin. apply filter_In. split; auto. now apply negb_true_iff, eqb_false.
  - intros H. unfold AskQuestion.removeTag. rewrite Absent by exact H.
    now destruct st.
  - intros H. cbn [AskQuestion.removeTag AskQuestion.tags].
    destruct (addTag_cases st) as [[_ [_ [_ ->]]]| ->].
    + rewrite filter_app, Absent by exact H. cbn [filter].
      rewrite String.eqb_refl. cbn [negb]. apply app_nil_r.
    + now apply Absent.
Qed.

Lemma unique_In seen l x :
  In x (JS.unique seen l) <-> In x l /\ ~ In x seen.
Proof.
  revert seen. induction l as [|y l IH]; intros seen; simpl; [tauto|].
  destruct (JS.includes seen y) eqn:I.
  - apply includes_In in I. rewrite IH. split.
    + tauto.
    + intros [[->|H] Hs]; tauto.
  - apply includes_not_In in I. simpl. rewrite IH. simpl. split.
    + intros [->|[H Hs]]; auto.
    + intros [[->|H] Hs]; auto.
      destruct (String.string_dec y x) as [->|Hne]; auto.
      right. split; auto. intros [E|E]; auto.
Qed.

Lemma unique_NoDup seen l : NoDup (JS.unique seen l).
Proof.
  revert seen. induction l as [|y l IH]; intros seen; simpl; [constructor|].
  destruct (JS.includes seen y); auto.
  constructor; auto. rewrite unique_In. simpl. tauto.
Qed.

Lemma insert_In x l y : In y (JS.insert x l) <-> y = x \/ In y l.
Proof.
  induction l as [|z l IH]; simpl.
  - split; intros [H|H]; auto.
  - destruct (String.leb x z); simpl; rewrite ?IH; split; intuition auto.
Qed.

Lemma sort_In l y : In y (JS.sort l) <-> In y l.
Proof.
  induction l as [|x l IH]; simpl; [tauto|].
  rewrite insert_In, IH. split; intuition auto.
Qed.

Lemma leb_before x y : String.leb x y = true -> x <> y -> before x y.
Proof.
  unfold before, String.leb, String.ltb. intros H Hne.
  destruct (String.compare x y) eqn:C; auto; try discriminate.
  apply String.compare_eq_iff in C. contradiction.
Qed.

Lemma not_leb_before x y : String.leb x y = false -> before y x.
Proof.
  unfold before, String.leb, String.ltb. rewrite (String.compare_antisym y x).
  destruct (String.compare x y); simpl; auto; discriminate.
Qed.

Lemma insert_sorted x l :
  Sorted before l -> ~ In x l -> Sorted before (JS.insert x l).
Proof.
  induction l as [|y l IH]; intros Hs Hx; simpl.
  - repeat constructor.
  - destruct (String.leb x y) eqn:L.
    + constructor; auto. constructor. apply leb_before; auto.
      intros ->. apply Hx. now left.
    + inversion Hs as [|? ? Hs' Hd]; subst.
      constructor.
      * apply IH; auto. intros H. apply Hx. now right.
      * destruct l as [|z l]; simpl.
        -- constructor. now apply not_leb_before.
        -- destruct (String.leb x z).
           ++ constructor. now apply not_leb_before.
           ++ constructor. now inversion Hd.
Qed.

Lemma sort_sorted l : NoDup l -> Sorted before (JS.sort l).
Proof.
  induction 1 as [|x l Hx Hnd IH]; simpl; [constructor|].
  apply insert_sorted; auto. now rewrite sort_In.
Qed.

Lemma insert_NoDup x l : NoDup l -> ~ In x l -> NoDup (JS.insert x l).
Proof.
  induction l as [|y l IH]; intros Hnd Hx; simpl.
  - constructor; auto.
  - destruct (String.leb x y).
    + constructor; auto.
    + inversion Hnd as [|? ? Hy Hnd']; subst. constructor.
      * rewrite insert_In. intros [->|H]; [|contradiction].
        apply Hx. now left.
      * apply IH; auto. intros H. apply Hx. now right.
Qed.

Lemma sort_NoDup l : NoDup l -> NoDup (JS.sort l).
Proof.
  induction 1 as [|x l Hx Hnd IH]; simpl; [constructor|].
  apply insert_NoDup; auto. now rewrite sort_In.
Qed.

(** X24. The tags offered as filters are strictly increasing, hence
    distinct, and are exactly the tags carried by some question. *)
Theorem available_tags_are_sorted_and_distinct (data : list QuestionsPage.tags_row) :
  let uniqueTags := QuestionsPage.fetchAvailableTags data in
  Sorted before uniqueTags
  /\ NoDup uniqueTags
  /\ (forall t, In t uniqueTags <-> exists tags, In (Some tags) data /\ In t tags).
Proof.
  intros uniqueTags. subst uniqueTags. unfold QuestionsPage.fetchAvailableTags.
  split; [|split].
  - apply sort_sorted, unique_NoDup.
  - apply sort_NoDup, unique_NoDup.
  - intros t. rewrite sort_In, unique_In, in_flat_map. split.
    + intros [[q [Hq Ht]] _]. destruct q as [tags|]; [eauto|destruct Ht].
    + intros [tags [Hq Ht]]. split; [|tauto]. exists (Some tags). auto.
Qed.

(** ** Round trips *)












(** ** Rows of other users *)

(** X27. In a reachable state, a statement of a signed-in user that deletes
    no question and no answer leaves every question and every answer of the
    other users as it was, in every column: the statements of the trigger
    functions are filtered by the policies of the user as well. *)
Theorem statements_keep_the_rows_of_other_users
    (reqs : list (session * statement)) (d0 : db) :
  initial d0 = true ->
  let d := run reqs d0 in
  forall c st d',
    deletes_rows st = false ->
    exec (authenticated c) st d = ok d' ->
    (forall qid Q, select_question d qid = Some Q -> Questions.user_id Q <> c ->
                   select_question d' qid = Some Q)
    /\ (forall aid A, select_answer d aid = Some A -> Answers.user_id A <> c ->
                      select_answer d' aid = Some A).
Proof.
  intros Hi d c st d' Hst E.
  destruct (reachable_invariants reqs d0 Hi) as [Hc _]. fold d in Hc.
  assert (Hc' : schema_ok d') by (eapply exec_schema; eauto).
  destruct (exec_others c st d d' Hst E) as [KQ KA]. split.
  - intros qid Q. now apply kept_question.
  - intros aid A. now apply kept_answer.
Qed.

(** * The further properties at work on the small forum *)


Lemma acceptance_written_by_accept_only_witness :
  initial empty_db = true
  /\ exists d',
       exec (authenticated bob) (DeleteAnswer a1) forum_accepted = ok d'
       /\ (forall q q', In q (questions forum_accepted) -> In q' (questions d') ->
             Questions.id q' = Questions.id q ->
             Questions.has_accepted_answer q' = Questions.has_accepted_answer q).
Proof.
  split; [reflexivity|]. eexists. split; [reflexivity|].
  apply (acceptance_written_by_accept_only
           (setup ++ [(service_role, SetAccepted a1 true)]) empty_db eq_refl
           (authenticated bob) (DeleteAnswer a1) _ eq_refl eq_refl).
Defined.

Lemma vote_counters_written_by_votes_only_witness :
  initial empty_db = true
  /\ exists d' n',
       exec (authenticated bob) (DeleteAnswer a1) forum_voted = ok d'
       /\ counter forum_voted (on_question q1) upvote = Some 0
       /\ counter d' (on_question q1) upvote = Some n'
       /\ n' = 0.
Proof.
  split; [reflexivity|]. eexists. eexists.
  split; [reflexivity|]. split; [reflexivity|]. split; [reflexivity|].
  apply (vote_counters_written_by_votes_only
           (setup ++ [(authenticated bob, InsertVote vote_of_bob)]) empty_db eq_refl
           (authenticated bob) (DeleteAnswer a1) _ (on_question q1) upvote 0 _
           eq_refl eq_refl eq_refl eq_refl).
Defined.

Lemma votes_of_others_are_out_of_reach_witness :
  insert_vote (authenticated alice) vote_of_bob forum = error insufficient_privilege
  /\ delete_vote (authenticated alice) bob (on_question q1) forum_voted = ok forum_voted
  /\ exists d',
       exec (authenticated alice) (InsertVote vote_of_alice) forum_voted = ok d'
       /\ votes_of_others alice d' = votes_of_others alice forum_voted.
Proof.
  destruct (votes_of_others_are_out_of_reach alice) as [H1 [H2 H3]].
  split; [|split].
  - apply H2. discriminate.
  - apply (H3 bob (on_question q1) upvote). discriminate.
  - eexists. split; [reflexivity|].
    apply (H1 (InsertVote vote_of_alice) forum_voted _ eq_refl eq_refl).
Defined.

Lemma delete_vote_twice_is_delete_vote_once_witness :
  QuestionDetail.vote_of forum_voted alice (on_question q1) = None
  /\ delete_vote (authenticated alice) alice (on_question q1) forum_voted
     = ok forum_voted.
Proof.
  split; [reflexivity|].
  exact (proj2 (delete_vote_twice_is_delete_vote_once
                  (authenticated alice) alice (on_question q1) forum_voted)
               eq_refl).
Defined.

Lemma delete_question_removes_its_subtree_witness :
  initial empty_db = true
  /\ delete_question (authenticated alice) q1 forum_voted
     = ok (without_question q1 forum_voted)
  /\ delete_question (authenticated bob) q1 forum_voted = ok forum_voted.
Proof.
  split; [reflexivity|]. split.
  - exact (delete_question_removes_its_subtree
             (setup ++ [(authenticated bob, InsertVote vote_of_bob)]) empty_db eq_refl
             (authenticated alice) q1 _ eq_refl).
  - exact (delete_question_removes_its_subtree
             (setup ++ [(authenticated bob, InsertVote vote_of_bob)]) empty_db eq_refl
             (authenticated bob) q1 _ eq_refl).
Defined.

Lemma delete_answer_removes_its_votes_witness :
  initial empty_db = true
  /\ delete_answer (authenticated bob) a1 forum = ok (without_answer (authenticated bob) answer1 forum)
  /\ delete_answer (authenticated bob) a2 forum = ok forum.
Proof.
  split; [reflexivity|]. split.
  - exact (delete_answer_removes_its_votes setup empty_db eq_refl
             (authenticated bob) a1 answer1 eq_refl).
  - exact (delete_answer_removes_its_votes setup empty_db eq_refl
             (authenticated bob) a2 answer2 eq_refl).
Defined.

Lemma votes_of_two_users_commute_witness :
  exists d2 d21,
    insert_vote (authenticated alice) vote_of_alice forum = ok d2
    /\ insert_vote (authenticated bob) vote_of_bob d2 = ok d21
    /\ questions d21
       = questions (step forum_voted (authenticated alice, InsertVote vote_of_alice))
    /\ answers d21
       = answers (step forum_voted (authenticated alice, InsertVote vote_of_alice))
    /\ votes (step forum_voted (authenticated alice, InsertVote vote_of_alice))
       = votes forum ++ [vote_of_bob; vote_of_alice]
    /\ votes d21 = votes forum ++ [vote_of_alice; vote_of_bob].
Proof.
  apply (votes_of_two_users_commute (authenticated bob) (authenticated alice)
           vote_of_bob vote_of_alice forum forum_voted).
  - discriminate.
  - reflexivity.
  - reflexivity.
Defined.

Lemma one_vote_per_user_and_target_witness :
  initial empty_db = true
  /\ (length (filter (vote_matches bob (on_question q1)) (votes forum_voted)) <= 1)%nat.
Proof.
  split; [reflexivity|].
  exact (one_vote_per_user_and_target
           (setup ++ [(authenticated bob, InsertVote vote_of_bob)]) empty_db
           bob (on_question q1) eq_refl).
Defined.

Lemma accepting_an_answer_of_another_user_writes_nothing_witness :
  initial empty_db = true
  /\ QuestionDetail.handleAcceptAnswer (QuestionDetail.fetch forum alice q1) a1 forum
     = (QuestionDetail.completed, forum).
Proof.
  split; [reflexivity|].
  apply (accepting_an_answer_of_another_user_writes_nothing setup empty_db eq_refl
           alice q1 a1 question1 answer1); try reflexivity.
  discriminate.
Defined.

Lemma switching_a_vote_is_rejected_witness :
  QuestionDetail.handleVote (QuestionDetail.fetch forum_voted bob q1)
    downvote None forum_voted
  = (QuestionDetail.caught unique_violation, forum_voted).
Proof.
  apply (switching_a_vote_is_rejected forum_voted bob q1 None downvote upvote).
  - reflexivity.
  - reflexivity.
  - discriminate.
Defined.

Lemma card_vote_button_witness :
  QuestionCard.handleVote (Some bob) false question1
    (QuestionDetail.vote_of forum_voted bob (on_question q1)) downvote forum_voted
  = (QuestionDetail.caught unique_violation, forum_voted)
  /\ fst (QuestionCard.handleVote (Some bob) false question1
            (QuestionDetail.vote_of forum_voted bob (on_question q1)) upvote forum_voted)
     = QuestionDetail.completed.
Proof.
  split.
  - apply (proj1 (proj2 (proj2 (card_vote_button forum_voted bob question1 downvote)))
             upvote); [reflexivity|discriminate].
  - apply (proj1 (card_vote_button forum_voted bob question1 upvote)). reflexivity.
Defined.

Lemma delete_button_agrees_with_the_policy_witness :
  initial empty_db = true
  /\ QuestionCard.handleDelete (Some alice)
       (useProfile.fetchProfile (Some alice) forum) false question1 forum
     = (QuestionDetail.completed, without_question q1 forum)
  /\ QuestionCard.handleDelete (Some bob)
       (useProfile.fetchProfile (Some bob) forum) false question1 forum
     = (QuestionDetail.returned, forum).
Proof.
  split; [reflexivity|]. split.
  - exact (delete_button_agrees_with_the_policy setup empty_db eq_refl
             alice q1 question1 eq_refl).
  - exact (delete_button_agrees_with_the_policy setup empty_db eq_refl
             bob q1 question1 eq_refl).
Defined.

Lemma accept_is_offered_until_the_first_accept_witness :
  initial empty_db = true
  /\ QuestionDetail.acceptButton (QuestionDetail.fetch forum_accepted alice q1) answer2
     = false
  /\ exists d',
       delete_answer (authenticated bob) a1 forum_accepted = ok d'
       /\ (forall b, In b (answers d') -> Answers.question_id b = q1 ->
                     Answers.is_accepted b = false)
       /\ QuestionDetail.acceptButton (QuestionDetail.fetch d' alice q1) answer2 = false.
Proof.
  split; [reflexivity|].
  destruct (accept_is_offered_until_the_first_accept
              (setup ++ [(service_role, SetAccepted a1 true)]) empty_db eq_refl
              q1 (Questions.set_has_accepted_answer true question1)
              eq_refl eq_refl) as [H1 H2].
  split; [apply H1|].
  eexists. split; [reflexivity|]. split.
  - intros b Hb _. vm_compute in Hb. destruct Hb as [<-|[]]. reflexivity.
  - apply (H2 (authenticated bob) (DeleteAnswer a1) _ eq_refl eq_refl).
Defined.

Lemma submitting_an_answer_witness :
  QuestionDetail.handleSubmitAnswer (QuestionDetail.fetch forum bob q1)
    blank_text a3 forum
  = (QuestionDetail.returned, forum)
  /\ answer_count_of forum q1 = Some 1
  /\ answer_count_of
       (snd (QuestionDetail.handleSubmitAnswer (QuestionDetail.fetch forum alice q1)
               answer_text a3 forum)) q1
     = Some 2
  /\ answer_count_of
       (snd (QuestionDetail.handleSubmitAnswer (QuestionDetail.fetch forum bob q1)
               answer_text a3 forum)) q1
     = Some 1.
Proof.
  destruct (submitting_an_answer forum bob q1 a3 blank_text) as [H1 _].
  destruct (submitting_an_answer forum alice q1 a3 answer_text) as [_ H2].
  destruct (submitting_an_answer forum bob q1 a3 answer_text) as [_ H3].
  assert (H7 : Forall seven_bit (chars answer_text))
    by (repeat constructor).
  assert (Hne : JS.trim answer_text <> String.EmptyString) by (vm_compute; discriminate).
  specialize (H2 H7 Hne eq_refl eq_refl).
  specialize (H3 H7 Hne eq_refl eq_refl).
  change (question_exists forum q1) with true in H2, H3. cbv iota in H2, H3.
  destruct H2 as [_ [_ H2]]. destruct H3 as [_ [_ H3]].
  split; [apply H1; reflexivity|]. split; [reflexivity|]. split.
  - rewrite (H2 q1 question1 eq_refl). reflexivity.
  - rewrite (H3 q1 question1 eq_refl). reflexivity.
Defined.

Lemma role_is_writable_by_the_profile_owner_witness :
  fst (useProfile.updateProfile (Some bob) admin forum) = useProfile.updated
  /\ policy_delete (authenticated bob) forum alice = false
  /\ policy_delete (authenticated bob)
       (snd (useProfile.updateProfile (Some bob) admin forum)) alice = true.
Proof.
  destruct (role_is_writable_by_the_profile_owner forum bob eq_refl)
    as [H1 [_ [H3 _]]].
  split; [exact H1|]. split; [reflexivity|apply H3].
Defined.

Lemma initials_are_short_and_upper_case_witness :
  QuestionDetail.getInitials blank_text = String.EmptyString.
Proof.
  apply (proj2 (proj2 (initials_are_short_and_upper_case blank_text))).
  vm_compute. repeat constructor.
Defined.

Lemma initials_of_first_and_last_name_witness :
  QuestionDetail.getInitials (two_words first_name letter_l tail_of_last_name)
  = initials_AL
  /\ QuestionDetail.getInitials first_name = initial_A.
Proof.
  apply (initials_of_first_and_last_name letter_a letter_l
           tail_of_first_name tail_of_last_name).
  - reflexivity.
  - reflexivity.
  - intros E. vm_compute in E. discriminate E.
  - intros E. vm_compute in E. discriminate E.
  - vm_compute. intros [E|[E|[]]]; discriminate E.
Defined.

Lemma typing_the_case_of_a_tag_witness :
  AskQuestion.tags (AskQuestion.addTag react_form) = [react; react]
  /\ ~ NoDup (AskQuestion.tags (AskQuestion.addTag react_form)).
Proof.
  split; [reflexivity|].
  apply (proj2 (typing_the_case_of_a_tag react_form)).
  - vm_compute. discriminate.
  - vm_compute. intros [E|[]]. discriminate E.
  - vm_compute. lia.
  - vm_compute. auto.
Defined.

Lemma removing_a_tag_witness :
  AskQuestion.tags (AskQuestion.addTag new_form) = [react]
  /\ AskQuestion.tags (AskQuestion.removeTag react (AskQuestion.addTag new_form))
     = AskQuestion.tags new_form.
Proof.
  split; [reflexivity|].
  exact (proj2 (proj2 (proj2 (removing_a_tag new_form react))) (fun H => H)).
Defined.



Lemma statements_keep_the_rows_of_other_users_witness :
  initial empty_db = true
  /\ exists d',
       exec (authenticated bob) (InsertAnswer a3 q1 bob) forum = ok d'
       /\ select_question d' q1 = Some question1
       /\ select_answer d' a2 = Some answer2.
Proof.
  split; [reflexivity|]. eexists. split; [reflexivity|].
  destruct (statements_keep_the_rows_of_other_users setup empty_db eq_refl
              bob (InsertAnswer a3 q1 bob) _ eq_refl eq_refl) as [HQ HA].
  split.
  - apply (HQ q1 question1 eq_refl). intros E. discriminate E.
  - apply (HA a2 answer2 eq_refl). intros E. discriminate E.
Defined.
